(** * MacroPulse: the simulate / classify / signal pipeline of [main.py]

    A shallow embedding of the market engine of [main.py] and the
    verification of its specification.

    Python's [float] is the IEEE 754 binary64 format; it is modelled by
    Rocq's primitive [float], which is the same format with the same
    round-to-nearest-even operations.  Decimal literals are read to the
    nearest binary64 value in both languages.  Universal statements are
    proved through the specification of the primitives in [FloatAxioms]
    ([Prim2SF], [SFmul], [SFcompare], ...). *)

From Stdlib Require Import ZArith QArith Qabs Floats List String Ascii Bool Lia.
From Stdlib Require Import Permutation Sorted DecimalString DecimalN.
Import ListNotations.

Set Warnings "-inexact-float".

Local Open Scope Z_scope.

(* ================================================================== *)
(** * Python built-ins used by the program *)
(* ================================================================== *)

Module Py.

(** ** Exceptions and the result of a computation that may raise *)

Inductive exn : Type :=
| KeyError (key : string)
| IndexError
| OverflowError
| ValueError
| ZeroDivisionError.

Inductive result (A : Type) : Type :=
| Ok (a : A)
| Raise (e : exn).

Arguments Ok {A} a.
Arguments Raise {A} e.

Definition bind {A B : Type} (r : result A) (k : A -> result B) : result B :=
  match r with
  | Ok a => k a
  | Raise e => Raise e
  end.

Definition raises {A : Type} (r : result A) : bool :=
  match r with
  | Ok _ => false
  | Raise _ => true
  end.

(** ** [dict]: string keys, insertion ordered *)

Definition dict (V : Type) : Type := list (string * V).

Fixpoint dict_find {V : Type} (d : dict V) (k : string) : option V :=
  match d with
  | [] => None
  | (k', v) :: d' => if String.eqb k k' then Some v else dict_find d' k
  end.

(** [d[k]] *)
Definition dict_get {V : Type} (d : dict V) (k : string) : result V :=
  match dict_find d k with
  | Some v => Ok v
  | None => Raise (KeyError k)
  end.

(** [d[k] = v]: an existing key keeps its position, a new key goes last. *)
Fixpoint dict_set {V : Type} (d : dict V) (k : string) (v : V) : dict V :=
  match d with
  | [] => [(k, v)]
  | (k', v') :: d' =>
      if String.eqb k k' then (k, v) :: d' else (k', v') :: dict_set d' k v
  end.

Definition dict_keys {V : Type} (d : dict V) : list string := map fst d.

(** ** Floats *)

Local Open Scope float_scope.

(** [max(a, b)] keeps [a] unless [b > a]; [min(a, b)] keeps [a] unless
    [b < a].  Both return [a] when a comparison with NaN is involved. *)
Definition py_max (a b : float) : float := if a <? b then b else a.
Definition py_min (a b : float) : float := if b <? a then b else a.

(** [clamp(x, lo, hi)], which the program writes [max(lo, min(hi, x))]. *)
Definition clamp (x lo hi : float) : float := py_max lo (py_min hi x).

(** Float division raises on a zero divisor (of either sign). *)
Definition py_div (a b : float) : result float :=
  if b =? 0 then Raise ZeroDivisionError else Ok (a / b).

(** The integer [m * 2^e] truncated toward zero. *)
Definition trunc_mag (m : positive) (e : Z) : Z :=
  (if 0 <=? e then Zpos m * 2 ^ e else Zpos m / 2 ^ (- e))%Z.

(** [int(x)]: truncation toward zero. *)
Definition py_int (x : float) : result Z :=
  match Prim2SF x with
  | S754_nan => Raise ValueError
  | S754_infinity _ => Raise OverflowError
  | S754_zero _ => Ok 0%Z
  | S754_finite s m e => Ok (cond_Zopp s (trunc_mag m e))
  end.

(** [num / den] rounded to the nearest integer, ties to even ([den > 0]). *)
Definition round_half_even (num den : Z) : Z :=
  (let q := num / den in
   let r := num mod den in
   match 2 * r ?= den with
   | Lt => q
   | Gt => q + 1
   | Eq => if Z.even q then q else q + 1
   end)%Z.

(** [round(x)] with no digits argument: the nearest integer, ties to even. *)
Definition py_round0 (x : float) : result Z :=
  match Prim2SF x with
  | S754_nan => Raise ValueError
  | S754_infinity _ => Raise OverflowError
  | S754_zero _ => Ok 0%Z
  | S754_finite s m e =>
      Ok (cond_Zopp s
            (if 0 <=? e then Zpos m * 2 ^ e
             else round_half_even (Zpos m) (2 ^ (- e))))%Z
  end.

(** The magnitude [m * 2^e] times [10^nd], rounded to the nearest integer:
    the digits of the correctly rounded decimal with [nd] places. *)
Definition scaled_decimal (m : positive) (e : Z) (nd : nat) : Z :=
  (if 0 <=? e then Zpos m * 2 ^ e * 10 ^ Z.of_nat nd
   else round_half_even (Zpos m * 10 ^ Z.of_nat nd) (2 ^ (- e)))%Z.

(** The binary64 value nearest to [(-1)^s * n / d], for [n >= 0], [d > 0]. *)
Definition SF_of_ratio (s : bool) (n d : Z) : spec_float :=
  match n with
  | Zpos _ =>
      let '(mz, ez, lz) := SFdiv_core_binary prec emax n 0 d 0 in
      binary_round_aux prec emax s mz ez lz
  | _ => S754_zero s
  end.

(** [round(x, nd)]: the decimal with [nd] places nearest to the exact value
    of [x] (ties to even), read back as the nearest float. *)
Definition py_round (x : float) (nd : nat) : float :=
  match Prim2SF x with
  | S754_finite s m e =>
      if (0 <=? e)%Z then x
      else SF2Prim (SF_of_ratio s (scaled_decimal m e nd) (10 ^ Z.of_nat nd))
  | _ => x
  end.

(** ** Strings *)

Local Open Scope string_scope.

Definition digit_char (d : Z) : ascii := ascii_of_nat (48 + Z.to_nat d).

Definition is_digit (c : ascii) : bool :=
  (48 <=? nat_of_ascii c)%nat && (nat_of_ascii c <=? 57)%nat.

(** Decimal numeral of a non-negative integer. *)
Definition Z_to_string (z : Z) : string :=
  NilZero.string_of_uint (N.to_uint (Z.to_N z)).

Definition sign_string (s : bool) : string := if s then "-" else "+".

(** The digits of [n] hundredths: integer part, point, two decimals. *)
Definition fixed2 (n : Z) : string :=
  Z_to_string (n / 100) ++ "."
    ++ String (digit_char ((n mod 100) / 10))
         (String (digit_char (n mod 10)) EmptyString).

(** [f"{x:+.2f}"] *)
Definition format_plus_2f (x : float) : string :=
  match Prim2SF x with
  | S754_nan => "+nan"
  | S754_infinity s => sign_string s ++ "inf"
  | S754_zero s => sign_string s ++ "0.00"
  | S754_finite s m e => sign_string s ++ fixed2 (scaled_decimal m e 2)
  end.

(** ** [sorted]

    [sorted] copies the items into a list and sorts it with [list.sort],
    which compares with [<] only.  On a list of fewer than 64 items
    [list.sort] (listobject.c, CPython 3.11) finds the run that starts the
    list, ascending or strictly descending and then reversed
    ([count_run]), and places the remaining items one at a time by binary
    search ([binarysort]); with [reverse=True] the list is reversed before
    and after, which keeps the original order of equal keys.  The model is
    this path, comparison for comparison, so it also gives the list of
    [sorted] when a key is NaN, where the result depends on the
    comparisons made.  Where [<] is a strict weak order it is the list
    every stable sort gives. *)

Section Sorting.
Context {A : Type}.
Variable lt : A -> A -> bool.

(** How many items carry on the run after [prev]: the run is ascending
    while no item is below the one before it, descending while every item
    is. *)
Fixpoint run_on (descending : bool) (prev : A) (l : list A) : nat :=
  match l with
  | [] => 0%nat
  | x :: l' =>
      if Bool.eqb (lt x prev) descending then S (run_on descending x l')
      else 0%nat
  end.

(** [count_run]: the length of the run that starts the list, and whether
    it is descending. *)
Definition count_run (l : list A) : nat * bool :=
  match l with
  | [] => (0%nat, false)
  | [_] => (1%nat, false)
  | a :: (b :: _) as l' => (S (run_on (lt b a) a l'), lt b a)
  end.

(** The binary search of [binarysort] between [lo] and [hi]: the middle
    item [p] is compared with [pivot], and the search goes on below [p]
    when [pivot < p], above it otherwise.  [fuel] bounds the halvings. *)
Fixpoint bisect (fuel : nat) (pivot : A) (l : list A) (lo hi : nat) : nat :=
  match fuel with
  | O => lo
  | S fuel' =>
      if (lo <? hi)%nat then
        let p := (lo + (hi - lo) / 2)%nat in
        match nth_error l p with
        | Some x =>
            if lt pivot x then bisect fuel' pivot l lo p
            else bisect fuel' pivot l (S p) hi
        | None => lo
        end
      else lo
  end.

Definition insert_at (k : nat) (x : A) (l : list A) : list A :=
  (firstn k l ++ x :: skipn k l)%list.

(** [binarysort]: each item of [rest] in turn is placed in the sorted
    part, where the binary search over the whole sorted part ends. *)
Fixpoint binarysort (sorted rest : list A) : list A :=
  match rest with
  | [] => sorted
  | pivot :: rest' =>
      let n := List.length sorted in
      binarysort (insert_at (bisect n pivot sorted 0%nat n) pivot sorted) rest'
  end.

(** [list.sort] on a list of fewer than 64 items. *)
Definition list_sort (l : list A) : list A :=
  let '(n, descending) := count_run l in
  let run := firstn n l in
  binarysort (if descending then rev run else run) (skipn n l).

(** [sorted(l, key=..., reverse=True)], [lt] comparing the keys. *)
Definition sorted_reverse (l : list A) : list A := rev (list_sort (rev l)).

(** [z] ties with [v]: neither is below the other. *)
Definition ties (v z : A) : bool := negb (lt v z) && negb (lt z v).

(** [a] may stand before [b] in ascending, respectively descending,
    order. *)
Definition asc (a b : A) : Prop := lt b a = false.
Definition desc (a b : A) : Prop := lt a b = false.
End Sorting.

(** [l[0]] and [l[-1]] *)
Definition first_item {A : Type} (l : list A) : result A :=
  match l with
  | [] => Raise IndexError
  | x :: _ => Ok x
  end.

Definition last_item {A : Type} (l : list A) : result A :=
  first_item (rev l).

(** ** [random]

    The generator is an arbitrary sequence of draws read through a cursor;
    [random.gauss(mu, sigma)] and [random.random()] each consume one. *)

Record rng : Type := { draws : nat -> float; cursor : nat }.

Definition next_draw (g : rng) : float * rng :=
  (draws g (cursor g), {| draws := draws g; cursor := S (cursor g) |}).

Definition gauss (mu sigma : float) (g : rng) : float * rng := next_draw g.
Definition random (g : rng) : float * rng := next_draw g.

End Py.

Export Py.

Notation "x <- c1 ;; c2" := (bind c1 (fun x => c2))
  (at level 61, c1 at next level, right associativity).

Local Open Scope string_scope.
Local Open Scope float_scope.

(* ================================================================== *)
(** * The program: [main.py] *)
(* ================================================================== *)

Module MacroPulse.

Record asset_info : Type := { name : string; price : float }.

(** [ASSETS], in the order the module writes it. *)
Definition ASSETS : dict asset_info :=
  [ ("SPY", {| name := "S&P 500 (SPY)"; price := 500.00 |});
    ("GLD", {| name := "Gold (GLD)"; price := 190.00 |});
    ("BTC", {| name := "Bitcoin (BTC-USD)"; price := 50000.00 |});
    ("TLT", {| name := "Treasuries (TLT)"; price := 95.00 |}) ].

(** [_tick_price]: one step of the random walk, floored at [0.01]. *)
Definition _tick_price (p vol : float) (g : rng) : float * rng :=
  let '(shock, g') := gauss 0 vol g in
  (py_max 0.01 (p * (1 + shock)), g').

(** [_pct]: [(new - old) / old * 100], and [0.0] for a zero [old]. *)
Definition _pct (new old : float) : result float :=
  if old =? 0 then Ok 0.0
  else
    q <- py_div (new - old) old ;;
    Ok (q * 100.0).

(** [_regime] *)
Definition _regime (spy_ret btc_ret tlt_ret gld_ret : float) : string * float :=
  let risk_on := (0 <? spy_ret) && (0 <? btc_ret) && (tlt_ret <? 0) in
  let risk_off := (0 <? tlt_ret) && (0 <? gld_ret) && (spy_ret <? 0) in
  if risk_on then
    let conf := py_min 0.95 (0.55 + 0.08 * (abs spy_ret + abs btc_ret + abs tlt_ret)) in
    ("RISK-ON", conf)
  else if risk_off then
    let conf := py_min 0.95 (0.55 + 0.08 * (abs tlt_ret + abs gld_ret + abs spy_ret)) in
    ("RISK-OFF", conf)
  else
    let conf := 0.45 + 0.04 * (abs spy_ret + abs btc_ret) in
    ("TRANSITION", py_min 0.75 conf).

Record signal : Type :=
  { sig_asset : string;
    sig_action : string;
    sig_confidence : float;
    sig_drivers : list string }.

(** The directional probability of [_signal] after the final clamp. *)
Definition _signal_p_up (asset : string) (ret_1h : float) (vol_spike : bool)
    (regime : string) : float :=
  let p_up := 0.50 + 0.06 * py_max (-5) (py_min 5 ret_1h) in
  let p_up :=
    if String.eqb regime "RISK-ON"
       && (String.eqb asset "SPY" || String.eqb asset "BTC")
    then p_up + 0.08 else p_up in
  let p_up :=
    if String.eqb regime "RISK-OFF"
       && (String.eqb asset "GLD" || String.eqb asset "TLT")
    then p_up + 0.08 else p_up in
  let p_up := if vol_spike then p_up - 0.05 else p_up in
  py_max 0.05 (py_min 0.95 p_up).

(** The list [drivers] of [_signal] before the slice [drivers[:2]]. *)
Definition _signal_drivers (ret_1h : float) (vol_spike : bool)
    (regime : string) : list string :=
  let drivers := [] in
  let drivers :=
    (drivers ++ [("1-tick momentum: " ++ format_plus_2f ret_1h ++ "%")%string])%list in
  let drivers := (drivers ++ [("regime: " ++ regime)%string])%list in
  if vol_spike then (drivers ++ ["volatility spike: caution"])%list else drivers.

(** [_signal] *)
Definition _signal (asset : string) (ret_1h : float) (vol_spike : bool)
    (regime : string) : signal :=
  let p_up := _signal_p_up asset ret_1h vol_spike regime in
  let action :=
    if 0.60 <=? p_up then "BUY"
    else if p_up <=? 0.40 then "SELL"
    else "HOLD" in
  let drivers := _signal_drivers ret_1h vol_spike regime in
  {| sig_asset := asset;
     sig_action := action;
     sig_confidence := py_round (p_up * 100) 1;
     sig_drivers := firstn 2 drivers |}.

(** ** [live] *)

(** The three dictionaries the simulation loop of [live] fills. *)
Record ticks : Type :=
  { new_prices : dict float;
    volume : dict Z;
    vol_spike : dict bool }.

Definition vols : dict float :=
  [ ("SPY", 0.0009); ("GLD", 0.0007); ("BTC", 0.0025); ("TLT", 0.0010) ].

(** The volume expression [int(1_000_000 * (1 + abs(shock)))]. *)
Definition synthetic_volume (shock : float) : result Z :=
  py_int (1000000 * (1 + abs shock)).

(** One pass of the body of [for a in ASSETS]. *)
Definition simulate_asset (_last : dict float) (a : string) (t : ticks)
    (g : rng) : result (ticks * rng) :=
  p <- dict_get _last a ;;
  vol <- dict_get vols a ;;
  let '(np, g) := _tick_price p vol g in
  let '(shock, g) := gauss 0 0.6 g in
  v <- synthetic_volume shock ;;
  let '(u, g) := random g in
  Ok ({| new_prices := dict_set (new_prices t) a np;
         volume := dict_set (volume t) a v;
         vol_spike := dict_set (vol_spike t) a (u <? 0.12) |}, g).

Fixpoint simulate (_last : dict float) (keys : list string) (t : ticks)
    (g : rng) : result (ticks * rng) :=
  match keys with
  | [] => Ok (t, g)
  | a :: keys' =>
      r <- simulate_asset _last a t g ;;
      simulate _last keys' (fst r) (snd r)
  end.

(** [{a: _pct(new_prices[a], _last[a]) for a in ASSETS}] *)
Fixpoint compute_rets (new_prices _last : dict float) (keys : list string)
    : result (dict float) :=
  match keys with
  | [] => Ok []
  | a :: keys' =>
      np <- dict_get new_prices a ;;
      p <- dict_get _last a ;;
      r <- _pct np p ;;
      rest <- compute_rets new_prices _last keys' ;;
      Ok ((a, r) :: rest)
  end.

(** The order [sorted] sees under [key=lambda x: x[1]]. *)
Definition by_return (x y : string * float) : bool := snd x <? snd y.

(** [sorted(rets.items(), key=lambda x: x[1], reverse=True)] *)
Definition rs_rank (rets : dict float) : list (string * float) :=
  sorted_reverse by_return rets.

Record detector : Type :=
  { leader : string;
    laggard : string;
    relative_strength_rank : list (string * float) }.

(** The detector panel: ranking, then [rs_rank[0][0]] and [rs_rank[-1][0]].
    The reported ranking carries the returns rounded to three places. *)
Definition detector_panel (rets : dict float) : result detector :=
  let rank := rs_rank rets in
  first <- first_item rank ;;
  last <- last_item rank ;;
  Ok {| leader := fst first;
        laggard := fst last;
        relative_strength_rank := map (fun kv => (fst kv, py_round (snd kv) 3)) rank |}.

(** [_regime(rets["SPY"], rets["BTC"], rets["TLT"], rets["GLD"])] *)
Definition regime_step (rets : dict float) : result (string * float) :=
  spy <- dict_get rets "SPY" ;;
  btc <- dict_get rets "BTC" ;;
  tlt <- dict_get rets "TLT" ;;
  gld <- dict_get rets "GLD" ;;
  Ok (_regime spy btc tlt gld).

Definition signal_for (rets : dict float) (spikes : dict bool)
    (regime_label : string) (a : string) : result signal :=
  r <- dict_get rets a ;;
  s <- dict_get spikes a ;;
  Ok (_signal a r s regime_label).

Record asset_row : Type :=
  { row_name : string;
    row_price : float;
    row_chg_pct : float;
    row_volume : Z;
    row_vol_spike : bool }.

Fixpoint asset_rows (assets : dict asset_info) (t : ticks) (rets : dict float)
    (keys : list string) : result (dict asset_row) :=
  match keys with
  | [] => Ok []
  | a :: keys' =>
      info <- dict_get assets a ;;
      np <- dict_get (new_prices t) a ;;
      r <- dict_get rets a ;;
      v <- dict_get (volume t) a ;;
      s <- dict_get (vol_spike t) a ;;
      rest <- asset_rows assets t rets keys' ;;
      Ok ((a, {| row_name := name info;
                 row_price := py_round np 2;
                 row_chg_pct := py_round r 3;
                 row_volume := v;
                 row_vol_spike := s |}) :: rest)
  end.

(** The response of [live], without its wall-clock field [ts_utc]. *)
Record snapshot : Type :=
  { snap_assets : dict asset_row;
    snap_detector : detector;
    snap_regime : string * float;
    snap_signals : list signal }.

(** Everything [live] does once the simulation loop has filled [t]:
    returns, detector panel, regime, signals, the new value of the global
    [_last], and the response. *)
Definition live_after_ticks (assets : dict asset_info) (_last : dict float)
    (t : ticks) : result (snapshot * dict float) :=
  let keys := dict_keys assets in
  rets <- compute_rets (new_prices t) _last keys ;;
  det <- detector_panel rets ;;
  reg <- regime_step rets ;;
  let '(regime_label, regime_conf) := reg in
  s_spy <- signal_for rets (vol_spike t) regime_label "SPY" ;;
  s_gld <- signal_for rets (vol_spike t) regime_label "GLD" ;;
  s_btc <- signal_for rets (vol_spike t) regime_label "BTC" ;;
  s_tlt <- signal_for rets (vol_spike t) regime_label "TLT" ;;
  let signals := [s_spy; s_gld; s_btc; s_tlt] in
  let _last' := new_prices t in
  rows <- asset_rows assets t rets keys ;;
  Ok ({| snap_assets := rows;
         snap_detector := det;
         snap_regime := (regime_label, py_round (regime_conf * 100) 1);
         snap_signals := signals |}, _last').

Definition no_ticks : ticks :=
  {| new_prices := []; volume := []; vol_spike := [] |}.

(** [live], over the registry [assets], the global [_last] and the random
    generator: the response, the new [_last] and the generator after it. *)
Definition live_over (assets : dict asset_info) (_last : dict float) (g : rng)
    : result (snapshot * dict float * rng) :=
  sim <- simulate _last (dict_keys assets) no_ticks g ;;
  let '(t, g') := sim in
  out <- live_after_ticks assets _last t ;;
  Ok (out, g').

Definition live (_last : dict float) (g : rng)
    : result (snapshot * dict float * rng) :=
  live_over ASSETS _last g.

(** [_last = {k: v["price"] for k, v in ASSETS.items()}] *)
Definition initial_last : dict float :=
  map (fun kv => (fst kv, price (snd kv))) ASSETS.

(** The state after [n] calls of [live], while none raises. *)
Fixpoint run_live (n : nat) (_last : dict float) (g : rng)
    : result (dict float * rng) :=
  match n with
  | O => Ok (_last, g)
  | S n' =>
      r <- live _last g ;;
      let '(_, _last', g') := r in
      run_live n' _last' g'
  end.

End MacroPulse.

Export MacroPulse.

(* ================================================================== *)
(** * Vocabulary of the specification *)
(* ================================================================== *)

(** The classifier with the two rules tried in the other order. *)
Definition _regime_off_first (spy_ret btc_ret tlt_ret gld_ret : float)
    : string * float :=
  let risk_on := (0 <? spy_ret) && (0 <? btc_ret) && (tlt_ret <? 0) in
  let risk_off := (0 <? tlt_ret) && (0 <? gld_ret) && (spy_ret <? 0) in
  if risk_off then
    ("RISK-OFF",
     py_min 0.95 (0.55 + 0.08 * (abs tlt_ret + abs gld_ret + abs spy_ret)))
  else if risk_on then
    ("RISK-ON",
     py_min 0.95 (0.55 + 0.08 * (abs spy_ret + abs btc_ret + abs tlt_ret)))
  else
    ("TRANSITION", py_min 0.75 (0.45 + 0.04 * (abs spy_ret + abs btc_ret))).

(** Every stored price is at least [0.01]. *)
Definition price_floor (d : dict float) : bool :=
  forallb (fun kv => 0.01 <=? snd kv) d.

(** No return of the mapping is NaN. *)
Definition no_nan (d : dict float) : bool :=
  forallb (fun kv => negb (is_nan (snd kv))) d.

(** The draws that let [int(...)] return: those whose volume is finite. *)
Definition finite_volumes (g : rng) : Prop :=
  forall i, is_finite (1000000 * (1 + abs (draws g i))) = true.

(** The three dictionaries of the loop all list [k]. *)
Definition ticked (t : ticks) (k : string) : Prop :=
  In k (dict_keys (new_prices t)) /\ In k (dict_keys (volume t))
  /\ In k (dict_keys (vol_spike t)).

(** The exact value of a float as a rational (zero for NaN and infinities). *)
Definition float_value (x : float) : Q :=
  match Prim2SF x with
  | S754_finite s m e =>
      if (0 <=? e)%Z then inject_Z (cond_Zopp s (Zpos m * 2 ^ e))
      else Qmake (cond_Zopp s (Zpos m)) (Z.to_pos (2 ^ (- e)))
  | _ => 0%Q
  end.

(** Sign carried by a float, NaN carrying none. *)
Definition SF_has_sign (b : bool) (x : spec_float) : Prop :=
  match x with
  | S754_zero s | S754_infinity s | S754_finite s _ _ => s = b
  | S754_nan => True
  end.

(** Shape of a number printed with an explicit sign and two decimals:
    sign, one or more digits, a point, two digits. *)
Fixpoint all_digits (s : string) : bool :=
  match s with
  | EmptyString => true
  | String c s' => is_digit c && all_digits s'
  end.

Fixpoint digits_point_2 (s : string) : bool :=
  match s with
  | EmptyString => false
  | String c s' =>
      is_digit c
      && (digits_point_2 s'
          || match s' with
             | String "." (String d1 (String d2 EmptyString)) =>
                 is_digit d1 && is_digit d2
             | _ => false
             end)
  end.

Definition is_signed_fixed2 (s : string) : bool :=
  match s with
  | String c s' => (Ascii.eqb c "+" || Ascii.eqb c "-") && digits_point_2 s'
  | EmptyString => false
  end.

(** Reading a printed number back.  [split_at_point] gives the text
    before and after the first point. *)
Fixpoint split_at_point (s : string) : string * string :=
  match s with
  | EmptyString => (EmptyString, EmptyString)
  | String c s' =>
      if Ascii.eqb c "." then (EmptyString, s')
      else let '(a, b) := split_at_point s' in (String c a, b)
  end.

Definition digit_value (c : ascii) : Z := (Z.of_nat (nat_of_ascii c) - 48)%Z.

(** The count of hundredths that digits, a point and two digits write;
    the digits before the point are to be the decimal numeral of their
    value, which has no leading zero. *)
Definition read_fixed2 (s : string) : option Z :=
  let '(ip, fp) := split_at_point s in
  match NilZero.uint_of_string ip, fp with
  | Some d, String d1 (String d2 EmptyString) =>
      let n := Z.of_N (N.of_uint d) in
      if String.eqb (Z_to_string n) ip && is_digit d1 && is_digit d2
      then Some (n * 100 + digit_value d1 * 10 + digit_value d2)%Z
      else None
  | _, _ => None
  end.

(** The sign and the count of hundredths of a number printed with an
    explicit sign and two decimals: [(true, 105)] for ["-1.05"]. *)
Definition read_signed_fixed2 (s : string) : option (bool * Z) :=
  match s with
  | String c s' =>
      if Ascii.eqb c "+" then option_map (pair false) (read_fixed2 s')
      else if Ascii.eqb c "-" then option_map (pair true) (read_fixed2 s')
      else None
  | EmptyString => None
  end.

(** [q] hundredths is the decimal with two places nearest to [v], the
    even one of the two nearest when [v] is halfway between them. *)
Definition nearest_hundredths (v : Q) (q : Z) : Prop :=
  (Qabs (v * 100 - inject_Z q) <= 1 # 2)%Q /\
  ((Qabs (v * 100 - inject_Z q) == 1 # 2)%Q -> Z.even q = true).

(** The binary64 constants of the signal bounds, as [Prim2SF] reads them. *)
Definition SF_005 : spec_float := S754_finite false 7205759403792794 (-57).
Definition SF_095 : spec_float := S754_finite false 8556839292003942 (-53).
Definition SF_100 : spec_float := S754_finite false 7036874417766400 (-46).
Definition SF_5 : spec_float := S754_finite false 5629499534213120 (-50).
Definition SF_95 : spec_float := S754_finite false 6685030696878080 (-46).

(** Every count of tenths from 5.0 to 95.0 reads back as a float in
    [[5, 95]]. *)
Definition round1_table_ok : bool :=
  forallb (fun k =>
             let r := SF2Prim (SF_of_ratio false (50 + Z.of_nat k) 10) in
             (5 <=? r) && (r <=? 95))
          (seq 0 901).

(** A generator whose every draw is [0.0]. *)
Definition zero_rng : rng := {| draws := fun _ => 0; cursor := 0 |}.

(** The end-to-end scenario: the simulator yields these prices, no spikes. *)
Definition e2e_ticks : ticks :=
  {| new_prices :=
       [("SPY", 505.00); ("GLD", 188.00); ("BTC", 51000.00); ("TLT", 94.00)];
     volume :=
       [("SPY", 1000000%Z); ("GLD", 1000000%Z); ("BTC", 1000000%Z);
        ("TLT", 1000000%Z)];
     vol_spike :=
       [("SPY", false); ("GLD", false); ("BTC", false); ("TLT", false)] |}.

(** The returns of the scenario, as the return calculator produces them. *)
Definition e2e_rets : dict float :=
  [("SPY", 1); ("GLD", -1.0526315789473684); ("BTC", 2);
   ("TLT", -1.0526315789473684)].

(** A generator with some movement in its first twelve draws, and the tick
    it gives from the initial prices. *)
Definition sample_rng : rng :=
  {| draws := fun n =>
       nth n [0.01; 0.3; 0.5; -0.002; 0.1; 0.05;
              0.004; -0.2; 0.9; -0.001; 0.0; 0.11] 0;
     cursor := 0 |}.

Definition empty_snapshot : snapshot :=
  {| snap_assets := [];
     snap_detector := {| leader := ""; laggard := ""; relative_strength_rank := [] |};
     snap_regime := ("", 0);
     snap_signals := [] |}.

Definition sample_snapshot : snapshot :=
  Eval vm_compute in
    match live initial_last sample_rng with
    | Ok (snap, _, _) => snap
    | Raise _ => empty_snapshot
    end.

Definition sample_last : dict float :=
  Eval vm_compute in
    match live initial_last sample_rng with
    | Ok (_, _last', _) => _last'
    | Raise _ => []
    end.

Definition sample_rng_after : rng :=
  {| draws := draws sample_rng; cursor := 12 |}.

(** The first of the names [_regime] is called with, in the order [live]
    reads them, that the returns do not list. *)
Definition first_missing (rets : dict float) : option string :=
  find (fun k => negb (existsb (String.eqb k) (dict_keys rets)))
       ["SPY"; "BTC"; "TLT"; "GLD"].

(** The float is a zero or NaN, or carries the sign [b]. *)
Definition SF_sign_or_zero (b : bool) (x : spec_float) : Prop :=
  match x with
  | S754_zero _ | S754_nan => True
  | S754_infinity s | S754_finite s _ _ => s = b
  end.

(** A positive number or [+inf]. *)
Definition SF_positive (x : spec_float) : Prop :=
  match x with
  | S754_infinity false | S754_finite false _ _ => True
  | _ => False
  end.

(** The float that [round(x, 1)] reads back from [n] tenths. *)
Definition tenths (n : Z) : float := SF2Prim (SF_of_ratio false n 10).

(** From 5.0 to 95.0, more tenths never read back as a lower float. *)
Definition tenths_nondecreasing : bool :=
  forallb (fun k => tenths (50 + Z.of_nat k) <=? tenths (50 + Z.of_nat k + 1))
          (seq 0 900).

(** The magnitude of a float against that of [m * 2^e], read as the
    comparison of floats reads it: by exponent, then by mantissa. *)
Definition SF_mag_le (x : spec_float) (m : positive) (e : Z) : Prop :=
  match x with
  | S754_zero _ => True
  | S754_finite _ q f => (f < e \/ (f = e /\ Zpos q <= Zpos m))%Z
  | _ => False
  end.

Definition SF_mag_ge (x : spec_float) (m : positive) (e : Z) : Prop :=
  match x with
  | S754_infinity _ => True
  | S754_finite _ q f => (e < f \/ (e = f /\ Zpos m <= Zpos q))%Z
  | _ => False
  end.

(* ================================================================== *)
(** * The built-ins on sample values *)
(* ================================================================== *)

Example py_round_samples :
  py_round 2.675 2 = 2.67 /\ py_round 0.125 2 = 0.12 /\
  py_round (-1.0526315789473684) 3 = -1.053 /\ py_round 64.000000000000001 1 = 64.
Proof. repeat split; vm_compute; reflexivity. Qed.

Example py_int_samples :
  py_int 2.5 = Ok 2%Z /\ py_int (-2.5) = Ok (-2)%Z /\
  py_int 1000000.7 = Ok 1000000%Z /\ py_int infinity = Raise OverflowError /\
  py_int nan = Raise ValueError.
Proof. repeat split; vm_compute; reflexivity. Qed.

Example format_plus_2f_samples :
  format_plus_2f 1.0 = "+1.00" /\ format_plus_2f (-1.0526315789473684) = "-1.05" /\
  format_plus_2f (-0.001) = "-0.00" /\ format_plus_2f 12345.675 = "+12345.67" /\
  format_plus_2f nan = "+nan" /\ format_plus_2f neg_infinity = "-inf".
Proof. repeat split; vm_compute; reflexivity. Qed.

Example read_signed_fixed2_samples :
  read_signed_fixed2 "-1.05" = Some (true, 105%Z) /\
  read_signed_fixed2 "+12345.67" = Some (false, 1234567%Z) /\
  read_signed_fixed2 "-0.00" = Some (true, 0%Z) /\
  read_signed_fixed2 "+01.00" = None /\
  read_signed_fixed2 "+1.0" = None /\
  read_signed_fixed2 "+nan" = None /\
  read_signed_fixed2 "1.00" = None.
Proof. repeat split; vm_compute; reflexivity. Qed.

Example sorted_reverse_sample :
  sorted_reverse by_return
    [("a", 1.0); ("b", 2.0); ("c", 1.0); ("d", 3.0); ("e", 2.0)]
  = [("d", 3.0); ("b", 2.0); ("e", 2.0); ("a", 1.0); ("c", 1.0)].
Proof. vm_compute. reflexivity. Qed.

(** With a NaN key the comparisons [list.sort] makes decide the list. *)
Example sorted_reverse_nan_sample :
  sorted_reverse by_return
    [("SPY", 1.0); ("GLD", nan); ("BTC", 2.0); ("TLT", 3.0)]
  = [("GLD", nan); ("TLT", 3.0); ("BTC", 2.0); ("SPY", 1.0)].
Proof. vm_compute. reflexivity. Qed.

(* ================================================================== *)
(** * Facts about binary64 arithmetic *)
(* ================================================================== *)

Local Open Scope Z_scope.

(** ** Order *)

Lemma SFltb_SFleb x y : SFltb x y = true -> SFleb x y = true.
Proof.
  unfold SFltb, SFleb. destruct (SFcompare x y) as [[ | | ]|]; congruence.
Qed.

Lemma SFcompare_nan_free x y :
  x <> S754_nan -> y <> S754_nan -> exists c, SFcompare x y = Some c.
Proof.
  destruct x, y; simpl; intros; try congruence; eauto.
Qed.

Lemma SFcompare_antisym x y c :
  SFcompare x y = Some c -> SFcompare y x = Some (CompOpp c).
Proof.
  destruct x as [sx|sx| |sx mx ex], y as [sy|sy| |sy my ey]; simpl;
    try discriminate;
    try (destruct sx; intros [= <-]; reflexivity);
    try (destruct sy; intros [= <-]; reflexivity);
    try (destruct sx, sy; intros [= <-]; reflexivity);
    try (intros [= <-]; reflexivity).
  destruct sx, sy; intros [= <-]; try reflexivity;
    rewrite (Z.compare_antisym ex ey);
    destruct (ex ?= ey); simpl; try reflexivity;
    fold (Pos.compare mx my); fold (Pos.compare my mx);
    rewrite (Pos.compare_antisym mx my); destruct (mx ?= my)%positive; reflexivity.
Qed.

Lemma SFleb_trans x y z :
  SFleb x y = true -> SFleb y z = true -> SFleb x z = true.
Proof.
  unfold SFleb.
  destruct x as [sx|sx| |sx mx ex], y as [sy|sy| |sy my ey],
    z as [sz|sz| |sz mz ez]; simpl; try discriminate; try reflexivity;
    try (destruct sx); try (destruct sy); try (destruct sz);
    simpl; try discriminate; try reflexivity;
    fold (Pos.compare mx my); fold (Pos.compare my mz); fold (Pos.compare mx mz);
    destruct (Z.compare_spec ex ey), (Z.compare_spec ey ez), (Z.compare_spec ex ez);
    simpl; try discriminate; try reflexivity; try lia;
    destruct (Pos.compare_spec mx my), (Pos.compare_spec my mz), (Pos.compare_spec mx mz);
    simpl; try discriminate; try reflexivity; try lia.
Qed.

(** ** Rounding *)

(** [digits2_pos p] is the number of bits of [p]. *)
Lemma digits2_pos_bounds p :
  2 ^ (Zpos (digits2_pos p) - 1) <= Zpos p < 2 ^ Zpos (digits2_pos p).
Proof.
  induction p as [p IH|p IH|]; cbn [digits2_pos].
  - rewrite Pos2Z.inj_succ.
    replace (Z.succ (Zpos (digits2_pos p)) - 1) with (Z.succ (Zpos (digits2_pos p) - 1)) by lia.
    rewrite !Z.pow_succ_r by lia. lia.
  - rewrite Pos2Z.inj_succ.
    replace (Z.succ (Zpos (digits2_pos p)) - 1) with (Z.succ (Zpos (digits2_pos p) - 1)) by lia.
    rewrite !Z.pow_succ_r by lia. lia.
  - simpl. lia.
Qed.

Lemma digits2_pos_unique p d :
  2 ^ (d - 1) <= Zpos p < 2 ^ d -> Zpos (digits2_pos p) = d.
Proof.
  intros [Hlo Hhi].
  pose proof (digits2_pos_bounds p) as [Blo Bhi].
  assert (0 < d).
  { destruct (Z.ltb_spec 0 d); auto.
    assert (2 ^ d <= 2 ^ 0) by (apply Z.pow_le_mono_r; lia).
    simpl in *. lia. }
  destruct (Z.lt_trichotomy (Zpos (digits2_pos p)) d) as [Hlt|[Heq|Hgt]]; auto.
  - assert (2 ^ Zpos (digits2_pos p) <= 2 ^ (d - 1)) by (apply Z.pow_le_mono_r; lia). lia.
  - assert (2 ^ d <= 2 ^ (Zpos (digits2_pos p) - 1)) by (apply Z.pow_le_mono_r; lia). lia.
Qed.

(** Shifting right by [n] bits divides the mantissa by [2^n]. *)
Lemma shr_1_m mrs : 0 <= shr_m mrs -> shr_m (shr_1 mrs) = shr_m mrs / 2.
Proof.
  destruct mrs as [m r s]; simpl. intros Hm.
  destruct m as [|[p|p|]|p]; cbn [shr_m]; try lia; try reflexivity.
  - apply Z.div_unique with 1; lia.
  - apply Z.div_unique with 0; lia.
Qed.

Lemma iter_shr_1_m n : forall mrs,
  0 <= shr_m mrs -> shr_m (iter_pos shr_1 n mrs) = shr_m mrs / 2 ^ Zpos n.
Proof.
  induction n as [n IH|n IH|]; intros mrs Hm; cbn [iter_pos].
  - assert (H1 : 0 <= shr_m (shr_1 mrs)).
    { rewrite shr_1_m by auto. apply Z.div_pos; lia. }
    assert (H2 : 0 <= shr_m (iter_pos shr_1 n (shr_1 mrs))).
    { rewrite IH by auto. apply Z.div_pos; lia. }
    rewrite IH, IH, shr_1_m by auto.
    rewrite !Z.div_div by lia.
    f_equal.
    replace (Zpos n~1) with (1 + Zpos n + Zpos n) by lia.
    rewrite !Z.pow_add_r by lia. lia.
  - assert (H2 : 0 <= shr_m (iter_pos shr_1 n mrs)).
    { rewrite IH by auto. apply Z.div_pos; lia. }
    rewrite IH, IH by auto.
    rewrite !Z.div_div by lia.
    f_equal.
    replace (Zpos n~0) with (Zpos n + Zpos n) by lia.
    rewrite !Z.pow_add_r by lia. lia.
  - rewrite shr_1_m by auto. reflexivity.
Qed.

Lemma round_nearest_even_range m l :
  m <= round_nearest_even m l <= m + 1.
Proof.
  destruct l as [|[ | | ]]; simpl; try lia. destruct (Z.even m); lia.
Qed.

(** Rounding a mantissa that is too long by [n > 0] bits: the result is
    the mantissa shifted by [n] bits, or its successor, with one more shift
    when the successor reaches [2^53]. *)
Lemma binary_round_aux_long s M E l n :
  Zpos (digits2_pos M) = 53 + n -> 0 < n ->
  emin <= E + n -> E + n + 1 <= emax - prec ->
  exists q,
    Zpos M / 2 ^ n <= q <= Zpos M / 2 ^ n + 1 /\
    2 ^ 52 <= q <= 2 ^ 53 /\
    binary_round_aux prec emax s (Zpos M) E l =
      if q <? 2 ^ 53 then S754_finite s (Z.to_pos q) (E + n)
      else S754_finite s (Z.to_pos (2 ^ 52)) (E + n + 1).
Proof.
  intros Hd Hn Hlo Hhi.
  pose proof (digits2_pos_bounds M) as [Blo Bhi]. rewrite Hd in Blo, Bhi.
  replace (53 + n - 1) with (52 + n) in Blo by lia.
  rewrite Z.pow_add_r in Blo, Bhi by lia.
  assert (Hpow : 0 < 2 ^ n) by (apply Z.pow_pos_nonneg; lia).
  set (q0 := Zpos M / 2 ^ n).
  assert (Hq0 : 2 ^ 52 <= q0 < 2 ^ 53).
  { split.
    - apply Z.div_le_lower_bound; lia.
    - apply Z.div_lt_upper_bound; lia. }
  unfold binary_round_aux, shr_fexp. cbn [Zdigits2]. rewrite Hd.
  assert (Hf : fexp prec emax (53 + n + E) = E + n).
  { unfold fexp, SpecFloat.emin, prec, emax in *. lia. }
  rewrite Hf. replace (E + n - E) with n by lia.
  destruct n as [|p|p]; try lia. cbn [shr].
  set (mrs' := iter_pos shr_1 p (shr_record_of_loc (Zpos M) l)).
  assert (Hm : shr_m mrs' = q0).
  { unfold mrs'. rewrite iter_shr_1_m.
    - destruct l as [|[ | | ]]; reflexivity.
    - destruct l as [|[ | | ]]; simpl; lia. }
  pose proof (round_nearest_even_range (shr_m mrs') (loc_of_shr_record mrs')) as Hr.
  set (q := round_nearest_even (shr_m mrs') (loc_of_shr_record mrs')) in *.
  rewrite Hm in Hr.
  exists q. split; [exact Hr|]. split; [lia|].
  destruct (Z.ltb_spec q (2 ^ 53)) as [Hlt|Hge].
  - destruct q as [|qp|qp] eqn:Eq; try lia.
    cbn [Zdigits2].
    rewrite (digits2_pos_unique qp 53) by (simpl in *; lia).
    assert (Hf2 : fexp prec emax (53 + (E + Zpos p)) = E + Zpos p).
    { unfold fexp, SpecFloat.emin, prec, emax in *. lia. }
    rewrite Hf2, Z.sub_diag. cbn [shr shr_record_of_loc shr_m].
    replace (E + Zpos p <=? emax - prec) with true
      by (symmetry; apply Z.leb_le; lia).
    reflexivity.
  - assert (Eq : q = 2 ^ 53) by lia.
    rewrite Eq. cbn [Z.pow Z.pow_pos Pos.iter Z.mul Pos.mul Zdigits2 digits2_pos Pos.succ].
    assert (Hf2 : fexp prec emax (54 + (E + Zpos p)) = E + Zpos p + 1).
    { unfold fexp, SpecFloat.emin, prec, emax in *. lia. }
    rewrite Hf2. replace (E + Zpos p + 1 - (E + Zpos p)) with 1 by lia.
    cbn [shr iter_pos shr_record_of_loc shr_1 shr_m].
    replace (E + Zpos p + 1 <=? emax - prec) with true
      by (symmetry; apply Z.leb_le; lia).
    reflexivity.
Qed.

(** Positive finite floats compare by exponent, then by mantissa. *)
Lemma SFleb_pos_finite a ea b eb :
  SFleb (S754_finite false a ea) (S754_finite false b eb) = true <->
  ea < eb \/ (ea = eb /\ Zpos a <= Zpos b).
Proof.
  unfold SFleb; simpl. fold (Pos.compare a b).
  destruct (Z.compare_spec ea eb); destruct (Pos.compare_spec a b);
    split; intros; try reflexivity; try discriminate; lia.
Qed.

(** A normal number has a full 53-bit mantissa. *)
Lemma bounded_normal m e :
  bounded prec emax m e = true -> emin < e ->
  2 ^ 52 <= Zpos m < 2 ^ 53.
Proof.
  unfold bounded, canonical_mantissa. intros H He.
  apply andb_true_iff in H as [H _]. apply Z.eqb_eq in H.
  pose proof (digits2_pos_bounds m) as B.
  assert (Hd : Zpos (digits2_pos m) = 53).
  { unfold fexp, SpecFloat.emin, prec, emax in *. lia. }
  rewrite Hd in B. exact B.
Qed.


(** Multiplying a float of [[0.05, 0.95]] by 100 gives a float of
    [[5, 95]]: the product mantissa [m * 25 * 2^48] has 105 or 106 bits and
    is rounded to 53. *)
Lemma SFmul100_bounds x :
  valid_binary x = true ->
  SFleb SF_005 x = true -> SFleb x SF_095 = true ->
  SFleb SF_5 (SF64mul x SF_100) = true /\ SFleb (SF64mul x SF_100) SF_95 = true.
Proof.
  intros Hv Hlo Hhi.
  destruct x as [s|s| |s m e]; try discriminate;
    try (destruct s; discriminate).
  destruct s; try discriminate.
  apply SFleb_pos_finite in Hlo, Hhi.
  assert (Hm : 2 ^ 52 <= Zpos m < 2 ^ 53).
  { apply (bounded_normal m e Hv). unfold SpecFloat.emin, prec, emax. lia. }
  unfold SF64mul, SF_100, SFmul. cbn [xorb].
  set (M := (m * 7036874417766400)%positive).
  assert (HM : Zpos M = Zpos m * 7036874417766400) by (unfold M; lia).
  change (2 ^ 52) with 4503599627370496 in Hm.
  change (2 ^ 53) with 9007199254740992 in Hm.
  destruct (Z.ltb_spec (Zpos M) (2 ^ 105)) as [Hlt|Hge].
  - destruct (binary_round_aux_long false M (e + -46) loc_Exact 52) as (q & Hq & Hr & ->).
    + apply digits2_pos_unique. change (2 ^ (53 + 52 - 1)) with 20282409603651670423947251286016.
      change (2 ^ (53 + 52)) with (2 ^ 105). lia.
    + lia.
    + unfold SpecFloat.emin, prec, emax. lia.
    + unfold prec, emax. lia.
    + change (2 ^ 105) with 40564819207303340847894502572032 in Hlt.
      change (2 ^ 52) with 4503599627370496 in *.
      change (2 ^ 53) with 9007199254740992 in *.
      pose proof (Z.mul_div_le (Zpos M) 4503599627370496 eq_refl).
      pose proof (Z.mul_succ_div_gt (Zpos M) 4503599627370496 eq_refl).
      destruct (Z.ltb_spec q 9007199254740992);
        unfold SF_5, SF_95; rewrite !SFleb_pos_finite;
        try rewrite Z2Pos.id by lia; lia.
  - destruct (binary_round_aux_long false M (e + -46) loc_Exact 53) as (q & Hq & Hr & ->).
    + apply digits2_pos_unique. change (53 + 53 - 1) with 105.
      change (2 ^ (53 + 53)) with 81129638414606681695789005144064.
      split; [lia|].
      change (2 ^ 105) with 40564819207303340847894502572032 in Hge. lia.
    + lia.
    + unfold SpecFloat.emin, prec, emax. lia.
    + unfold prec, emax. lia.
    + change (2 ^ 105) with 40564819207303340847894502572032 in Hge.
      change (2 ^ 52) with 4503599627370496 in *.
      change (2 ^ 53) with 9007199254740992 in *.
      pose proof (Z.mul_div_le (Zpos M) 9007199254740992 eq_refl).
      pose proof (Z.mul_succ_div_gt (Zpos M) 9007199254740992 eq_refl).
      destruct (Z.ltb_spec q 9007199254740992);
        unfold SF_5, SF_95; rewrite !SFleb_pos_finite;
        try rewrite Z2Pos.id by lia; lia.
Qed.

(** ** The primitive operations *)

Lemma Prim2SF_005 : Prim2SF 0.05 = SF_005. Proof. vm_compute. reflexivity. Qed.
Lemma Prim2SF_095 : Prim2SF 0.95 = SF_095. Proof. vm_compute. reflexivity. Qed.
Lemma Prim2SF_100 : Prim2SF 100 = SF_100. Proof. vm_compute. reflexivity. Qed.
Lemma Prim2SF_5 : Prim2SF 5 = SF_5. Proof. vm_compute. reflexivity. Qed.
Lemma Prim2SF_95 : Prim2SF 95 = SF_95. Proof. vm_compute. reflexivity. Qed.

Lemma ltb_leb (a b : float) : (a <? b)%float = true -> (a <=? b)%float = true.
Proof. rewrite ltb_spec, leb_spec. apply SFltb_SFleb. Qed.

Lemma leb_trans (a b c : float) :
  (a <=? b)%float = true -> (b <=? c)%float = true -> (a <=? c)%float = true.
Proof. rewrite !leb_spec. apply SFleb_trans. Qed.

(** The final clamp of [_signal]: whatever [p] is, NaN included, the result
    lies between [lo] and [hi]. *)
Lemma clamp_bounds (lo hi p : float) :
  (lo <=? hi)%float = true ->
  (lo <=? py_max lo (py_min hi p))%float = true /\
  (py_max lo (py_min hi p) <=? hi)%float = true.
Proof.
  intros Hlh.
  assert (Hlo : (lo <=? lo)%float = true).
  { rewrite leb_spec in *. unfold SFleb in *.
    destruct (Prim2SF lo) as [s|s| |s m e], (Prim2SF hi) as [s'|s'| |s' m' e'];
      simpl in *; try discriminate; try reflexivity;
      try (destruct s; reflexivity);
      destruct s; rewrite Z.compare_refl; fold (Pos.compare m m);
      rewrite Pos.compare_refl; reflexivity. }
  unfold py_max, py_min.
  destruct (p <? hi)%float eqn:E1.
  - destruct (lo <? p)%float eqn:E2.
    + split; [apply ltb_leb; exact E2 | apply ltb_leb; exact E1].
    + split; assumption.
  - destruct (lo <? hi)%float eqn:E2.
    + split; [assumption|].
      rewrite leb_spec in *. unfold SFleb in *.
      destruct (Prim2SF lo) as [s|s| |s m e], (Prim2SF hi) as [s'|s'| |s' m' e'];
        simpl in *; try discriminate; try reflexivity;
        try (destruct s'; reflexivity);
        destruct s'; rewrite Z.compare_refl; fold (Pos.compare m' m');
        rewrite Pos.compare_refl; reflexivity.
    + split; assumption.
Qed.

Lemma mul100_bounds (p : float) :
  (0.05 <=? p)%float = true -> (p <=? 0.95)%float = true ->
  (5 <=? p * 100)%float = true /\ (p * 100 <=? 95)%float = true.
Proof.
  rewrite !leb_spec, mul_spec.
  rewrite Prim2SF_005, Prim2SF_095, Prim2SF_100, Prim2SF_5, Prim2SF_95.
  apply SFmul100_bounds, Prim2SF_valid.
Qed.

Lemma round_half_even_bounds num den lo hi :
  0 < den -> lo * den <= num -> num <= hi * den ->
  lo <= round_half_even num den <= hi.
Proof.
  intros Hd Hlo Hhi. unfold round_half_even.
  pose proof (Z.div_mod num den ltac:(lia)) as Hdm.
  pose proof (Z.mod_pos_bound num den Hd) as Hr.
  set (q := num / den) in *. set (r := num mod den) in *.
  assert (lo <= q) by nia.
  assert (q <= hi) by nia.
  destruct (Z.compare_spec (2 * r) den); [destruct (Z.even q)| |]; try lia; nia.
Qed.

Lemma round1_table : round1_table_ok = true.
Proof. vm_compute. reflexivity. Qed.

Lemma round1_of_tenths n :
  50 <= n <= 950 ->
  let r := SF2Prim (SF_of_ratio false n 10) in
  (5 <=? r)%float = true /\ (r <=? 95)%float = true.
Proof.
  intros Hn.
  pose proof round1_table as T. unfold round1_table_ok in T.
  rewrite forallb_forall in T.
  specialize (T (Z.to_nat (n - 50))).
  replace (50 + Z.of_nat (Z.to_nat (n - 50))) with n in T by lia.
  apply andb_true_iff. apply T. apply in_seq. lia.
Qed.

Lemma py_round_1_bounds (y : float) :
  (5 <=? y)%float = true -> (y <=? 95)%float = true ->
  (5 <=? py_round y 1)%float = true /\ (py_round y 1 <=? 95)%float = true.
Proof.
  intros Hlo Hhi. unfold py_round.
  pose proof (Prim2SF_valid y) as Hv.
  pose proof Hlo as Hlo'. pose proof Hhi as Hhi'.
  rewrite leb_spec, Prim2SF_5 in Hlo'. rewrite leb_spec, Prim2SF_95 in Hhi'.
  destruct (Prim2SF y) as [s|s| |s m e]; try (split; assumption).
  destruct s; try discriminate.
  unfold SF_5 in Hlo'. unfold SF_95 in Hhi'.
  apply SFleb_pos_finite in Hlo', Hhi'.
  assert (Hm : 2 ^ 52 <= Zpos m < 2 ^ 53).
  { apply (bounded_normal m e Hv). unfold SpecFloat.emin, prec, emax. lia. }
  change (2 ^ 52) with 4503599627370496 in Hm.
  change (2 ^ 53) with 9007199254740992 in Hm.
  destruct (Z.leb_spec 0 e) as [He|He]; [lia|].
  apply round1_of_tenths.
  unfold scaled_decimal.
  destruct (Z.leb_spec 0 e) as [He'|He']; [lia|].
  change (10 ^ Z.of_nat 1) with 10.
  assert (Hcases : e = -50 \/ e = -49 \/ e = -48 \/ e = -47 \/ e = -46) by lia.
  destruct Hcases as [->|[->|[->|[->| ->]]]];
    apply round_half_even_bounds; cbn; lia.
Qed.

Local Open Scope float_scope.

Lemma is_nan_SF (x : float) : is_nan x = false -> Prim2SF x <> S754_nan.
Proof.
  unfold is_nan. rewrite FloatAxioms.eqb_spec. intros H E.
  rewrite E in H. discriminate.
Qed.

Lemma is_nan_true_SF (x : float) : is_nan x = true -> Prim2SF x = S754_nan.
Proof.
  unfold is_nan. rewrite FloatAxioms.eqb_spec. unfold SFeqb.
  destruct (Prim2SF x) as [s|s| |s m e]; cbn; try discriminate; try reflexivity.
  - destruct s; discriminate.
  - rewrite Z.compare_refl. fold (Pos.compare m m). rewrite Pos.compare_refl.
    destruct s; discriminate.
Qed.

Lemma eqb_nan_r (x v : float) : is_nan v = true -> (x =? v) = false.
Proof.
  unfold is_nan. rewrite !FloatAxioms.eqb_spec. unfold SFeqb.
  destruct (Prim2SF v) as [s|s| |s m e]; cbn.
  - discriminate.
  - destruct s; discriminate.
  - intros _. destruct (Prim2SF x); reflexivity.
  - destruct s; rewrite Z.compare_refl; fold (Pos.compare m m);
      rewrite Pos.compare_refl; discriminate.
Qed.

Lemma ltb_asym (a b : float) : (a <? b) = true -> (b <? a) = false.
Proof.
  rewrite !ltb_spec. unfold SFltb.
  destruct (SFcompare (Prim2SF a) (Prim2SF b)) as [c|] eqn:E; [|discriminate].
  rewrite (SFcompare_antisym _ _ _ E). destruct c; cbn; congruence.
Qed.

Lemma nlt_iff_leb (a b : float) :
  is_nan a = false -> is_nan b = false ->
  (a <? b) = false <-> (b <=? a) = true.
Proof.
  intros Ha Hb. apply is_nan_SF in Ha, Hb.
  rewrite ltb_spec, leb_spec. unfold SFltb, SFleb.
  destruct (SFcompare_nan_free _ _ Ha Hb) as [c E].
  rewrite E, (SFcompare_antisym _ _ _ E). destruct c; cbn; split; congruence.
Qed.

Lemma ties_iff_eqb (a b : float) :
  is_nan a = false -> is_nan b = false ->
  negb (a <? b) && negb (b <? a) = (b =? a).
Proof.
  intros Ha Hb. apply is_nan_SF in Ha, Hb.
  rewrite !ltb_spec, FloatAxioms.eqb_spec. unfold SFltb, SFeqb.
  destruct (SFcompare_nan_free _ _ Ha Hb) as [c E].
  rewrite E, (SFcompare_antisym _ _ _ E). destruct c; reflexivity.
Qed.

(* ================================================================== *)
(** * Facts about the sort *)
(* ================================================================== *)

Lemma StronglySorted_weaken {A : Type} (R R' : A -> A -> Prop) (P : A -> Prop) l :
  (forall x y, P x -> P y -> R x y -> R' x y) ->
  Forall P l -> StronglySorted R l -> StronglySorted R' l.
Proof.
  intros HR Pl Hs. induction Hs as [|x l Hs IH Hx]; constructor.
  - apply IH. inversion Pl; assumption.
  - inversion Pl as [|? ? Px Pl']; subst.
    rewrite Forall_forall in Hx, Pl' |- *. intros y Hy.
    apply HR; [exact Px | apply Pl', Hy | apply Hx, Hy].
Qed.

Section SortFacts.
Context {A : Type}.
Variable lt : A -> A -> bool.
Variable P : A -> Prop.

Hypothesis lt_asym : forall x y, P x -> P y -> lt x y = true -> lt y x = false.
Hypothesis nlt_trans : forall x y z, P x -> P y -> P z ->
  lt x y = false -> lt y z = false -> lt x z = false.

Lemma insert_at_perm k (x : A) l : Permutation (x :: l) (insert_at k x l).
Proof.
  unfold insert_at. rewrite <- (firstn_skipn k l) at 1.
  apply Permutation_middle.
Qed.

Lemma binarysort_perm rest : forall pre,
  Permutation (pre ++ rest) (binarysort lt pre rest).
Proof.
  induction rest as [|x rest IH]; intros pre; cbn [binarysort].
  - rewrite app_nil_r. reflexivity.
  - rewrite <- IH. rewrite <- insert_at_perm.
    symmetry. apply Permutation_middle.
Qed.

Lemma list_sort_perm l : Permutation l (list_sort lt l).
Proof.
  unfold list_sort. destruct (count_run lt l) as [n d].
  rewrite <- binarysort_perm.
  rewrite <- (firstn_skipn n l) at 1.
  apply Permutation_app_tail.
  destruct d; [apply Permutation_rev | reflexivity].
Qed.

Lemma sorted_reverse_perm l : Permutation l (sorted_reverse lt l).
Proof.
  unfold sorted_reverse.
  rewrite <- Permutation_rev, <- list_sort_perm. apply Permutation_rev.
Qed.

Lemma below_trans x y z :
  P x -> P y -> P z -> lt x y = true -> lt y z = true -> lt x z = true.
Proof.
  intros Px Py Pz Hxy Hyz. destruct (lt x z) eqn:E; [reflexivity|].
  rewrite (nlt_trans x z y Px Pz Py E) in Hxy; [discriminate|].
  apply lt_asym; assumption.
Qed.

Lemma StronglySorted_snoc (R : A -> A -> Prop) l x :
  StronglySorted R l -> Forall (fun y => R y x) l -> StronglySorted R (l ++ [x]).
Proof.
  induction l as [|y l IH]; intros Hs Hx; simpl.
  - repeat constructor.
  - apply StronglySorted_inv in Hs as [Hs Hy].
    inversion Hx; subst.
    constructor; [apply IH; assumption|].
    apply Forall_app. split; [assumption | repeat constructor; assumption].
Qed.

Lemma StronglySorted_rev (R : A -> A -> Prop) l :
  StronglySorted R l -> StronglySorted (fun a b => R b a) (rev l).
Proof.
  induction l as [|x l IH]; intros Hs; simpl.
  - constructor.
  - apply StronglySorted_inv in Hs as [Hs Hx].
    apply StronglySorted_snoc; [apply IH; assumption|].
    apply Forall_rev. exact Hx.
Qed.

Lemma Forall_firstn (Q : A -> Prop) n l : Forall Q l -> Forall Q (firstn n l).
Proof.
  intros H. rewrite <- (firstn_skipn n l) in H.
  apply Forall_app in H. apply H.
Qed.

Lemma Forall_skipn (Q : A -> Prop) n l : Forall Q l -> Forall Q (skipn n l).
Proof.
  intros H. rewrite <- (firstn_skipn n l) in H.
  apply Forall_app in H. apply H.
Qed.

(** The run [count_run] finds is in order. *)
Lemma run_on_asc l : forall a,
  P a -> Forall P l ->
  StronglySorted (asc lt) (a :: firstn (run_on lt false a l) l).
Proof.
  induction l as [|x l IH]; intros a Pa Pl; cbn [run_on firstn].
  - repeat constructor.
  - inversion Pl as [|? ? Px Pl']; subst.
    destruct (lt x a) eqn:E; cbn [Bool.eqb firstn]; [repeat constructor|].
    specialize (IH x Px Pl').
    constructor; [exact IH|].
    constructor; [exact E|].
    apply StronglySorted_inv in IH as [_ Hx].
    pose proof (Forall_firstn P (run_on lt false x l) l Pl') as Pf.
    rewrite Forall_forall in Hx, Pf |- *.
    intros z Hz. unfold asc in *.
    apply (nlt_trans z x a); auto.
Qed.

Lemma run_on_desc l : forall a,
  P a -> Forall P l ->
  StronglySorted (fun x y => lt y x = true) (a :: firstn (run_on lt true a l) l).
Proof.
  induction l as [|x l IH]; intros a Pa Pl; cbn [run_on firstn].
  - repeat constructor.
  - inversion Pl as [|? ? Px Pl']; subst.
    destruct (lt x a) eqn:E; cbn [Bool.eqb firstn]; [|repeat constructor].
    specialize (IH x Px Pl').
    constructor; [exact IH|].
    constructor; [exact E|].
    apply StronglySorted_inv in IH as [_ Hx].
    pose proof (Forall_firstn P (run_on lt true x l) l Pl') as Pf.
    rewrite Forall_forall in Hx, Pf |- *.
    intros z Hz.
    apply (below_trans z x a); auto.
Qed.

Lemma firstn_count_run l n d :
  count_run lt l = (n, d) ->
  match l with
  | [] => n = 0%nat /\ d = false
  | a :: l' => firstn n l = a :: firstn (run_on lt d a l') l'
               /\ (l' = [] -> d = false)
  end.
Proof.
  destruct l as [|a [|b l'']]; cbn [count_run]; intros [= <- <-].
  - auto.
  - split; [reflexivity | auto].
  - split; [reflexivity | discriminate].
Qed.

(** Items of a sorted list are in order by position. *)
Lemma StronglySorted_nth (R : A -> A -> Prop) l :
  StronglySorted R l ->
  forall i j x y, (i < j)%nat ->
    nth_error l i = Some x -> nth_error l j = Some y -> R x y.
Proof.
  induction 1 as [|a l Hs IH Ha]; intros i j x y Hij Hi Hj.
  - destruct i; discriminate.
  - destruct j as [|j]; [lia|]. cbn in Hj.
    destruct i as [|i]; cbn in Hi.
    + injection Hi as <-. rewrite Forall_forall in Ha.
      apply Ha. eapply nth_error_In. exact Hj.
    + apply (IH i j); [lia | assumption | assumption].
Qed.

(** The binary search keeps its two invariants, and ends where they
    meet. *)
Lemma bisect_spec pivot l :
  P pivot -> Forall P l -> StronglySorted (asc lt) l ->
  forall fuel lo hi,
    (hi - lo <= fuel)%nat -> (lo <= hi <= List.length l)%nat ->
    (forall i x, (i < lo)%nat -> nth_error l i = Some x -> lt pivot x = false) ->
    (forall i x, (hi <= i)%nat -> nth_error l i = Some x -> lt pivot x = true) ->
    let k := bisect lt fuel pivot l lo hi in
    (k <= List.length l)%nat /\
    (forall i x, (i < k)%nat -> nth_error l i = Some x -> lt pivot x = false) /\
    (forall i x, (k <= i)%nat -> nth_error l i = Some x -> lt pivot x = true).
Proof.
  intros Pp Pl Hs.
  assert (Pn : forall i x, nth_error l i = Some x -> P x).
  { intros i x Hi. rewrite Forall_forall in Pl. eapply Pl, nth_error_In, Hi. }
  induction fuel as [|fuel IH]; intros lo hi Hf Hb Hlo Hhi; cbn [bisect].
  - assert (lo = hi) by lia. subst hi. repeat split; [lia | exact Hlo | exact Hhi].
  - destruct (Nat.ltb_spec lo hi) as [Hlt|Hge].
    + set (p := (lo + (hi - lo) / 2)%nat).
      assert (Hp : (lo <= p < hi)%nat).
      { unfold p. pose proof (Nat.div_lt (hi - lo) 2). lia. }
      destruct (nth_error l p) as [x|] eqn:Ex.
      * destruct (lt pivot x) eqn:E.
        -- apply IH; [lia | lia | exact Hlo|].
           intros i y Hi Hy.
           destruct (Nat.eq_dec i p) as [->|Hne]; [congruence|].
           destruct (Nat.le_gt_cases hi i) as [Hhi'|Hhi']; [eapply Hhi; eassumption|].
           pose proof (StronglySorted_nth _ _ Hs p i x y ltac:(lia) Ex Hy) as Hxy.
           unfold asc in Hxy.
           destruct (lt pivot y) eqn:Ey; [reflexivity|].
           assert (lt pivot x = false) by (apply (nlt_trans pivot y x); eauto).
           congruence.
        -- apply IH; [lia | lia | | exact Hhi].
           intros i y Hi Hy.
           destruct (Nat.eq_dec i p) as [->|Hne]; [congruence|].
           destruct (Nat.le_gt_cases lo i) as [Hlo'|Hlo']; [|eapply Hlo; eassumption].
           pose proof (StronglySorted_nth _ _ Hs i p y x ltac:(lia) Hy Ex) as Hyx.
           unfold asc in Hyx.
           apply (nlt_trans pivot x y); eauto.
      * apply nth_error_None in Ex. lia.
    + assert (lo = hi) by lia. subst hi. repeat split; [lia | exact Hlo | exact Hhi].
Qed.

(** Where [binarysort] puts [pivot]: after the items it is not below,
    before the items it is below. *)
Lemma bisect_place pivot l :
  P pivot -> Forall P l -> StronglySorted (asc lt) l ->
  let k := bisect lt (List.length l) pivot l 0 (List.length l) in
  Forall (fun x => lt pivot x = false) (firstn k l) /\
  Forall (fun x => lt pivot x = true) (skipn k l).
Proof.
  intros Pp Pl Hs k.
  assert (H0 : forall i x, (i < 0)%nat -> nth_error l i = Some x ->
                           lt pivot x = false) by (intros i x Hi; lia).
  assert (Hn : forall i x, (List.length l <= i)%nat -> nth_error l i = Some x ->
                           lt pivot x = true).
  { intros i x Hi Hx. apply nth_error_None in Hi. congruence. }
  destruct (bisect_spec pivot l Pp Pl Hs (List.length l) 0 (List.length l)
              ltac:(lia) ltac:(lia) H0 Hn) as (Hk & Hbefore & Hafter).
  fold k in Hk, Hbefore, Hafter. split; apply Forall_forall; intros x Hx.
  - destruct (In_nth_error _ _ Hx) as [i Hi].
    rewrite nth_error_firstn in Hi.
    destruct (Nat.ltb_spec i k); [|discriminate].
    eapply Hbefore; eassumption.
  - destruct (In_nth_error _ _ Hx) as [i Hi].
    rewrite nth_error_skipn in Hi.
    apply (Hafter (k + i)%nat); [lia | exact Hi].
Qed.

Lemma StronglySorted_insert (R : A -> A -> Prop) l1 l2 x :
  StronglySorted R (l1 ++ l2) ->
  Forall (fun y => R y x) l1 -> Forall (R x) l2 ->
  StronglySorted R (l1 ++ x :: l2).
Proof.
  induction l1 as [|y l1 IH]; intros Hs H1 H2; cbn [app] in *.
  - constructor; assumption.
  - apply StronglySorted_inv in Hs as [Hs Hy].
    inversion H1 as [|? ? Hyx H1']; subst.
    constructor; [apply IH; assumption|].
    apply Forall_app in Hy as [Hy1 Hy2].
    apply Forall_app. split; [exact Hy1|]. constructor; assumption.
Qed.

Lemma insert_at_sorted pivot l :
  P pivot -> Forall P l -> StronglySorted (asc lt) l ->
  StronglySorted (asc lt)
    (insert_at (bisect lt (List.length l) pivot l 0 (List.length l)) pivot l).
Proof.
  intros Pp Pl Hs.
  destruct (bisect_place pivot l Pp Pl Hs) as [H1 H2].
  set (k := bisect lt (List.length l) pivot l 0 (List.length l)) in *.
  unfold insert_at. apply StronglySorted_insert.
  - rewrite firstn_skipn. exact Hs.
  - exact H1.
  - assert (Ps : Forall P (skipn k l)).
    { apply Forall_skipn, Pl. }
    rewrite Forall_forall in H2, Ps |- *.
    intros z Hz. unfold asc. apply lt_asym; auto.
Qed.

Lemma binarysort_sorted rest : forall pre,
  Forall P pre -> Forall P rest -> StronglySorted (asc lt) pre ->
  StronglySorted (asc lt) (binarysort lt pre rest).
Proof.
  induction rest as [|x rest IH]; intros pre Ppre Prest Hs; cbn [binarysort].
  - exact Hs.
  - inversion Prest as [|? ? Px Prest']; subst.
    apply IH; [|exact Prest'|apply insert_at_sorted; assumption].
    rewrite <- insert_at_perm. constructor; assumption.
Qed.

(** The first run, put in ascending order. *)
Lemma first_run_sorted l n d :
  Forall P l -> count_run lt l = (n, d) ->
  StronglySorted (asc lt) (if d then rev (firstn n l) else firstn n l).
Proof.
  intros Pl Hc. pose proof (firstn_count_run l n d Hc) as Hf.
  destruct l as [|a l'].
  - destruct Hf as [-> ->]. constructor.
  - destruct Hf as [Hf _]. rewrite Hf.
    inversion Pl as [|? ? Pa Pl']; subst.
    destruct d.
    + apply (StronglySorted_weaken (fun x y => lt x y = true) _ P).
      * intros x y Px Py H. unfold asc. apply lt_asym; assumption.
      * apply Forall_rev. constructor; [exact Pa | apply Forall_firstn, Pl'].
      * apply (StronglySorted_rev (fun x y => lt y x = true)).
        apply run_on_desc; assumption.
    + apply run_on_asc; assumption.
Qed.

Lemma list_sort_sorted l : Forall P l -> StronglySorted (asc lt) (list_sort lt l).
Proof.
  intros Pl. unfold list_sort.
  destruct (count_run lt l) as [n d] eqn:Hc.
  apply binarysort_sorted.
  - destruct d; [apply Forall_rev|]; apply Forall_firstn, Pl.
  - apply Forall_skipn, Pl.
  - apply first_run_sorted; assumption.
Qed.

Lemma sorted_reverse_desc l :
  Forall P l -> StronglySorted (desc lt) (sorted_reverse lt l).
Proof.
  intros Pl. unfold sorted_reverse.
  apply (StronglySorted_rev (asc lt)). apply list_sort_sorted.
  apply Forall_rev. exact Pl.
Qed.

(** Stability: the items that tie with [v] keep their order. *)
Lemma filter_all_false (f : A -> bool) l :
  Forall (fun x => f x = false) l -> filter f l = [].
Proof.
  induction 1 as [|x l Hx _ IH]; cbn [filter]; [reflexivity|].
  rewrite Hx. exact IH.
Qed.

Lemma filter_tie_insert v pivot l :
  P v -> P pivot -> Forall P l -> StronglySorted (asc lt) l ->
  filter (ties lt v)
    (insert_at (bisect lt (List.length l) pivot l 0 (List.length l)) pivot l)
  = filter (ties lt v) (l ++ [pivot]).
Proof.
  intros Pv Pp Pl Hs.
  destruct (bisect_place pivot l Pp Pl Hs) as [_ H2].
  set (k := bisect lt (List.length l) pivot l 0 (List.length l)) in *.
  unfold insert_at.
  rewrite <- (firstn_skipn k l) at 3.
  rewrite !filter_app. cbn [filter].
  destruct (ties lt v pivot) eqn:Tp.
  - rewrite (filter_all_false (ties lt v) (skipn k l)); [rewrite !app_nil_r; reflexivity|].
    pose proof (Forall_skipn P k l Pl) as Ps.
    rewrite Forall_forall in H2, Ps |- *. intros z Hz.
    destruct (ties lt v z) eqn:Tz; [exfalso|reflexivity].
    unfold ties in Tp, Tz.
    apply andb_true_iff in Tp as [_ Tp], Tz as [Tz _].
    apply negb_true_iff in Tp, Tz.
    assert (lt pivot z = false) by (apply (nlt_trans pivot v z); auto).
    specialize (H2 z Hz). congruence.
  - rewrite app_nil_r. reflexivity.
Qed.

Lemma binarysort_stable v rest : forall pre,
  P v -> Forall P pre -> Forall P rest -> StronglySorted (asc lt) pre ->
  filter (ties lt v) (binarysort lt pre rest) = filter (ties lt v) (pre ++ rest).
Proof.
  induction rest as [|x rest IH]; intros pre Pv Ppre Prest Hs; cbn [binarysort].
  - rewrite app_nil_r. reflexivity.
  - inversion Prest as [|? ? Px Prest']; subst.
    rewrite IH; auto.
    + rewrite !filter_app, filter_tie_insert by assumption.
      rewrite filter_app, <- app_assoc.
      change (x :: rest) with ([x] ++ rest)%list. rewrite (filter_app _ [x] rest).
      reflexivity.
    + rewrite <- insert_at_perm. constructor; assumption.
    + apply insert_at_sorted; assumption.
Qed.

(** A strictly descending run holds at most one item that ties with
    [v]. *)
Lemma filter_tie_desc v l :
  P v -> Forall P l -> StronglySorted (fun x y => lt y x = true) l ->
  (List.length (filter (ties lt v) l) <= 1)%nat.
Proof.
  intros Pv Pl Hs. induction Hs as [|x l Hs IH Hx]; cbn [filter]; [cbn; lia|].
  inversion Pl as [|? ? Px Pl']; subst.
  destruct (ties lt v x) eqn:Tx; [|apply IH, Pl'].
  rewrite filter_all_false; [cbn; lia|].
  rewrite Forall_forall in Hx, Pl' |- *. intros z Hz.
  destruct (ties lt v z) eqn:Tz; [exfalso|reflexivity].
  unfold ties in Tx, Tz.
  apply andb_true_iff in Tx as [Tx _], Tz as [_ Tz].
  apply negb_true_iff in Tx, Tz.
  assert (lt z x = false) by (apply (nlt_trans z v x); auto).
  specialize (Hx z Hz). congruence.
Qed.

Lemma rev_short (l : list A) : (List.length l <= 1)%nat -> rev l = l.
Proof. destruct l as [|x [|y l]]; cbn; intros H; try reflexivity; lia. Qed.

Lemma first_run_stable v l n d :
  P v -> Forall P l -> count_run lt l = (n, d) ->
  filter (ties lt v) (if d then rev (firstn n l) else firstn n l)
  = filter (ties lt v) (firstn n l).
Proof.
  intros Pv Pl Hc. destruct d; [|reflexivity].
  rewrite filter_rev. apply rev_short.
  pose proof (firstn_count_run l n true Hc) as Hf.
  destruct l as [|a l']; [destruct Hf; discriminate|].
  destruct Hf as [Hf _]. rewrite Hf.
  inversion Pl as [|? ? Pa Pl']; subst.
  apply filter_tie_desc; [exact Pv| |apply run_on_desc; assumption].
  constructor; [exact Pa | apply Forall_firstn, Pl'].
Qed.

Lemma list_sort_stable v l :
  P v -> Forall P l ->
  filter (ties lt v) (list_sort lt l) = filter (ties lt v) l.
Proof.
  intros Pv Pl. unfold list_sort.
  destruct (count_run lt l) as [n d] eqn:Hc.
  rewrite binarysort_stable; auto.
  - rewrite filter_app, (first_run_stable v l n d Pv Pl Hc), <- filter_app.
    rewrite firstn_skipn. reflexivity.
  - destruct d; [apply Forall_rev|]; apply Forall_firstn, Pl.
  - apply Forall_skipn, Pl.
  - apply first_run_sorted; assumption.
Qed.

Lemma sorted_reverse_stable v l :
  P v -> Forall P l ->
  filter (ties lt v) (sorted_reverse lt l) = filter (ties lt v) l.
Proof.
  intros Pv Pl. unfold sorted_reverse.
  rewrite filter_rev, list_sort_stable, filter_rev, rev_involutive; auto.
  apply Forall_rev. exact Pl.
Qed.
End SortFacts.


(* ================================================================== *)
(** * The regime classifier *)
(* ================================================================== *)

Lemma Prim2SF_0 : Prim2SF 0 = S754_zero false.
Proof. vm_compute. reflexivity. Qed.

(** A float is not both below and above zero. *)
Lemma below_zero_not_above (x : float) : (x <? 0) = true -> (0 <? x) = false.
Proof.
  rewrite !ltb_spec, Prim2SF_0. unfold SFltb.
  destruct (Prim2SF x) as [s|s| |s m e]; simpl; try discriminate;
    destruct s; simpl; congruence.
Qed.

Lemma risk_on_excludes_risk_off (spy_ret btc_ret tlt_ret gld_ret : float) :
  (0 <? spy_ret) && (0 <? btc_ret) && (tlt_ret <? 0) = true ->
  (0 <? tlt_ret) && (0 <? gld_ret) && (spy_ret <? 0) = false.
Proof.
  intros H. apply andb_true_iff in H as [_ H].
  rewrite (below_zero_not_above _ H). reflexivity.
Qed.

(** C1: the classifier answers RISK-ON, with confidence
    [min(0.95, 0.55 + 0.08*(|spy|+|btc|+|tlt|))], exactly when
    [spy_ret>0 and btc_ret>0 and tlt_ret<0]; RISK-OFF, with confidence
    [min(0.95, 0.55 + 0.08*(|tlt|+|gld|+|spy|))], exactly when
    [tlt_ret>0 and gld_ret>0 and spy_ret<0]; and TRANSITION, with confidence
    [min(0.75, 0.45 + 0.04*(|spy|+|btc|))], in every remaining case.  The
    RISK-ON rule is tried first: its condition alone decides that label. *)
Theorem regime_classifier_rules (spy_ret btc_ret tlt_ret gld_ret : float) :
  let risk_on := (0 <? spy_ret) && (0 <? btc_ret) && (tlt_ret <? 0) in
  let risk_off := (0 <? tlt_ret) && (0 <? gld_ret) && (spy_ret <? 0) in
  let r := _regime spy_ret btc_ret tlt_ret gld_ret in
  (fst r = "RISK-ON" <-> risk_on = true) /\
  (risk_on = true ->
   snd r = py_min 0.95 (0.55 + 0.08 * (abs spy_ret + abs btc_ret + abs tlt_ret))) /\
  (fst r = "RISK-OFF" <-> risk_off = true) /\
  (risk_off = true ->
   snd r = py_min 0.95 (0.55 + 0.08 * (abs tlt_ret + abs gld_ret + abs spy_ret))) /\
  (fst r = "TRANSITION" <-> risk_on = false /\ risk_off = false) /\
  (risk_on = false -> risk_off = false ->
   snd r = py_min 0.75 (0.45 + 0.04 * (abs spy_ret + abs btc_ret))).
Proof.
  intros risk_on risk_off r.
  pose proof (risk_on_excludes_risk_off spy_ret btc_ret tlt_ret gld_ret) as Hex.
  fold risk_on risk_off in Hex.
  unfold r, _regime. fold risk_on risk_off.
  destruct risk_on eqn:Eon.
  - rewrite (Hex eq_refl). cbn [fst snd].
    repeat split; intros; try reflexivity; try discriminate.
    destruct H; discriminate.
  - destruct risk_off eqn:Eoff; cbn [fst snd];
      repeat split; intros; try reflexivity; try discriminate.
    destruct H; discriminate.
Qed.

(** C10: the RISK-ON and RISK-OFF conditions never hold together, since
    [tlt_ret] is not both below and above zero; the classifier therefore
    equals the variant that tries RISK-OFF first. *)
Theorem regime_rule_order_irrelevant (spy_ret btc_ret tlt_ret gld_ret : float) :
  ((0 <? spy_ret) && (0 <? btc_ret) && (tlt_ret <? 0))
    && ((0 <? tlt_ret) && (0 <? gld_ret) && (spy_ret <? 0)) = false /\
  _regime spy_ret btc_ret tlt_ret gld_ret
    = _regime_off_first spy_ret btc_ret tlt_ret gld_ret.
Proof.
  pose proof (risk_on_excludes_risk_off spy_ret btc_ret tlt_ret gld_ret) as Hex.
  unfold _regime, _regime_off_first.
  destruct ((0 <? spy_ret) && (0 <? btc_ret) && (tlt_ret <? 0)) eqn:Eon.
  - rewrite (Hex eq_refl). split; reflexivity.
  - split; [reflexivity|].
    destruct ((0 <? tlt_ret) && (0 <? gld_ret) && (spy_ret <? 0)); reflexivity.
Qed.

Example regime_samples :
  fst (_regime 1 1 (-1) 0) = "RISK-ON" /\
  fst (_regime (-1) 0 1 1) = "RISK-OFF" /\
  fst (_regime 1 (-1) 1 0) = "TRANSITION".
Proof. repeat split. Qed.

(* ================================================================== *)
(** * The return calculator *)
(* ================================================================== *)

(** C8: [_pct] returns [(new - old) / old * 100] for a nonzero [old] and
    exactly [0.0] for [old == 0], whatever [new] is; it never raises. *)
Theorem pct_total (new old : float) :
  _pct new old = Ok (if old =? 0 then 0.0 else (new - old) / old * 100) /\
  _pct new 0 = Ok 0.0 /\
  raises (_pct new old) = false.
Proof.
  unfold _pct, py_div. destruct (old =? 0); repeat split; reflexivity.
Qed.

(* ================================================================== *)
(** * The signal generator *)
(* ================================================================== *)

(** [clamp] read the usual way: the bound that [x] passes, else [x]. *)
Lemma clamp_cases (x lo hi : float) :
  (lo <? hi) = true ->
  ((x <? lo) = true -> clamp x lo hi = lo) /\
  ((hi <? x) = true -> clamp x lo hi = hi) /\
  ((lo <? x) = true -> (x <? hi) = true -> clamp x lo hi = x).
Proof.
  intros Hlh. unfold clamp, py_max, py_min. repeat split.
  - intros Hx.
    assert (Hxh : (x <? hi) = true).
    { rewrite ltb_spec in *. unfold SFltb in *.
      destruct (SFcompare (Prim2SF x) (Prim2SF lo)) as [[ | | ]|] eqn:E1;
        try discriminate.
      destruct (SFcompare (Prim2SF lo) (Prim2SF hi)) as [[ | | ]|] eqn:E2;
        try discriminate.
      assert (H1 : SFleb (Prim2SF x) (Prim2SF lo) = true)
        by (unfold SFleb; rewrite E1; reflexivity).
      assert (H2 : SFleb (Prim2SF lo) (Prim2SF hi) = true)
        by (unfold SFleb; rewrite E2; reflexivity).
      pose proof (SFleb_trans _ _ _ H1 H2) as H3. unfold SFleb in H3.
      destruct (SFcompare (Prim2SF x) (Prim2SF hi)) as [[ | | ]|] eqn:E3;
        try discriminate; try reflexivity.
      exfalso.
      assert (H4 : SFleb (Prim2SF hi) (Prim2SF x) = true)
        by (unfold SFleb; rewrite (SFcompare_antisym _ _ _ E3); reflexivity).
      pose proof (SFleb_trans _ _ _ H4 H1) as H5. unfold SFleb in H5.
      rewrite (SFcompare_antisym _ _ _ E2) in H5. discriminate. }
    rewrite Hxh, (ltb_asym _ _ Hx). reflexivity.
  - intros Hx. rewrite (ltb_asym _ _ Hx), Hlh. reflexivity.
  - intros H1 H2. rewrite H2, H1. reflexivity.
Qed.

Lemma buy_excludes_sell (p : float) :
  (0.60 <=? p) = true -> (p <=? 0.40) = false.
Proof.
  intros Hb. destruct (p <=? 0.40) eqn:Hs; [|reflexivity].
  pose proof (leb_trans _ _ _ Hb Hs) as H. vm_compute in H. discriminate.
Qed.

(** C2: [p_up] is [0.50 + 0.06*clamp(ret, -5, 5)], plus [0.08] when the
    regime is RISK-ON and the asset SPY or BTC, plus [0.08] when the regime
    is RISK-OFF and the asset GLD or TLT, minus [0.05] on a volatility
    spike, clamped to [[0.05, 0.95]]; the action is BUY exactly when
    [p_up >= 0.60], SELL exactly when [p_up <= 0.40], HOLD otherwise; the
    confidence is [round(p_up*100, 1)] for every action, SELL included, and
    lies in [[5, 95]]. *)
Theorem signal_generator_rules (asset : string) (ret_1h : float)
    (vol_spike : bool) (regime : string) :
  let base := 0.50 + 0.06 * clamp ret_1h (-5) 5 in
  let risk_on_bias :=
    String.eqb regime "RISK-ON"
    && (String.eqb asset "SPY" || String.eqb asset "BTC") in
  let risk_off_bias :=
    String.eqb regime "RISK-OFF"
    && (String.eqb asset "GLD" || String.eqb asset "TLT") in
  let p1 := if risk_on_bias then base + 0.08 else base in
  let p2 := if risk_off_bias then p1 + 0.08 else p1 in
  let p3 := if vol_spike then p2 - 0.05 else p2 in
  let p_up := clamp p3 0.05 0.95 in
  let s := _signal asset ret_1h vol_spike regime in
  _signal_p_up asset ret_1h vol_spike regime = p_up /\
  (0.05 <=? p_up) = true /\ (p_up <=? 0.95) = true /\
  (sig_action s = "BUY" <-> (0.60 <=? p_up) = true) /\
  (sig_action s = "SELL" <-> (p_up <=? 0.40) = true) /\
  (sig_action s = "HOLD" <-> (0.60 <=? p_up) = false /\ (p_up <=? 0.40) = false) /\
  sig_confidence s = py_round (p_up * 100) 1 /\
  (5 <=? sig_confidence s) = true /\ (sig_confidence s <=? 95) = true.
Proof.
  intros base risk_on_bias risk_off_bias p1 p2 p3 p_up s.
  assert (Hp : _signal_p_up asset ret_1h vol_spike regime = p_up) by reflexivity.
  assert (Hb : (0.05 <=? p_up) = true /\ (p_up <=? 0.95) = true).
  { apply clamp_bounds. reflexivity. }
  destruct Hb as [Hlo Hhi].
  assert (Hc : sig_confidence s = py_round (p_up * 100) 1) by reflexivity.
  assert (Ha : sig_action s =
               if 0.60 <=? p_up then "BUY"
               else if p_up <=? 0.40 then "SELL" else "HOLD") by reflexivity.
  destruct (mul100_bounds p_up Hlo Hhi) as [Hm1 Hm2].
  destruct (py_round_1_bounds (p_up * 100) Hm1 Hm2) as [Hr1 Hr2].
  split; [exact Hp|]. split; [exact Hlo|]. split; [exact Hhi|].
  rewrite Hc, Ha.
  pose proof (buy_excludes_sell p_up) as Hx.
  destruct (0.60 <=? p_up) eqn:Eb.
  - rewrite (Hx eq_refl).
    repeat split; intros; try reflexivity; try discriminate; try assumption.
    destruct H; discriminate.
  - destruct (p_up <=? 0.40) eqn:Es;
      repeat split; intros; try reflexivity; try discriminate; try assumption.
    destruct H; discriminate.
Qed.

(** A SELL carries the low [p_up] as its confidence: [-3%] gives
    [p_up = 0.32], action SELL, confidence 32.0. *)
Example sell_confidence_not_inverted :
  _signal_p_up "GLD" (-3) false "TRANSITION" = 0.32 /\
  sig_action (_signal "GLD" (-3) false "TRANSITION") = "SELL" /\
  sig_confidence (_signal "GLD" (-3) false "TRANSITION") = 32.
Proof. repeat split; vm_compute; reflexivity. Qed.

(** ** Drivers *)

Lemma all_digits_of_uint d : all_digits (NilEmpty.string_of_uint d) = true.
Proof. induction d; cbn; auto. Qed.

Lemma Z_to_string_digits z :
  exists c s, Z_to_string z = String c s /\ is_digit c = true /\ all_digits s = true.
Proof.
  unfold Z_to_string.
  pose proof (all_digits_of_uint (N.to_uint (Z.to_N z))) as H.
  destruct (N.to_uint (Z.to_N z)); cbn in *;
    eexists; eexists; (split; [reflexivity|]); split; auto.
Qed.

Lemma digit_char_is_digit d : (0 <= d <= 9)%Z -> is_digit (digit_char d) = true.
Proof.
  intros H.
  assert (Hd : (d = 0 \/ d = 1 \/ d = 2 \/ d = 3 \/ d = 4 \/ d = 5 \/ d = 6
                \/ d = 7 \/ d = 8 \/ d = 9)%Z) by lia.
  repeat (destruct Hd as [->|Hd]; [reflexivity|]). subst. reflexivity.
Qed.

Lemma digits_point_2_intro s : forall c d1 d2,
  is_digit c = true -> all_digits s = true ->
  is_digit d1 = true -> is_digit d2 = true ->
  digits_point_2 (String c s ++ "." ++ String d1 (String d2 EmptyString)) = true.
Proof.
  induction s as [|c' s IH]; intros c d1 d2 Hc Hs H1 H2.
  - cbn. rewrite Hc, H1, H2. reflexivity.
  - cbn in Hs. apply andb_true_iff in Hs as [Hc' Hs].
    change (digits_point_2
              (String c (String c' s ++ "." ++ String d1 (String d2 EmptyString)))
            = true).
    cbn [digits_point_2]. rewrite Hc. cbn [andb].
    apply orb_true_iff. left. apply (IH c' d1 d2); assumption.
Qed.

Lemma fixed2_shape n : (0 <= n)%Z -> digits_point_2 (fixed2 n) = true.
Proof.
  intros Hn. unfold fixed2.
  destruct (Z_to_string_digits (n / 100)) as (c & s & -> & Hc & Hs).
  apply digits_point_2_intro; auto; apply digit_char_is_digit.
  - pose proof (Z.mod_pos_bound n 100 eq_refl).
    assert (n mod 100 / 10 < 10)%Z by (apply Z.div_lt_upper_bound; lia).
    assert (0 <= n mod 100 / 10)%Z by (apply Z.div_pos; lia). lia.
  - pose proof (Z.mod_pos_bound n 10 eq_refl). lia.
Qed.

Lemma round_half_even_nonneg num den :
  (0 <= num)%Z -> (0 < den)%Z -> (0 <= round_half_even num den)%Z.
Proof.
  intros Hn Hd. unfold round_half_even.
  assert (0 <= num / den)%Z by (apply Z.div_pos; lia).
  destruct (2 * (num mod den) ?= den)%Z; [destruct (Z.even (num / den))| |]; lia.
Qed.

Lemma scaled_decimal_nonneg m e nd : (0 <= scaled_decimal m e nd)%Z.
Proof.
  unfold scaled_decimal. destruct (Z.leb_spec 0 e).
  - apply Z.mul_nonneg_nonneg; [apply Z.mul_nonneg_nonneg|]; try lia;
      apply Z.pow_nonneg; lia.
  - apply round_half_even_nonneg.
    + apply Z.mul_nonneg_nonneg; [lia | apply Z.pow_nonneg; lia].
    + apply Z.pow_pos_nonneg; lia.
Qed.

Lemma Prim2SF_infinity : Prim2SF infinity = S754_infinity false.
Proof. vm_compute. reflexivity. Qed.

(** A finite float is a zero or a finite binary number. *)
Lemma is_finite_cases (x : float) :
  is_finite x = true ->
  (exists s, Prim2SF x = S754_zero s) \/ (exists s m e, Prim2SF x = S754_finite s m e).
Proof.
  unfold is_finite, is_nan, is_infinity.
  rewrite !FloatAxioms.eqb_spec, abs_spec, Prim2SF_infinity.
  destruct (Prim2SF x) as [s|s| |s m e]; cbn; try discriminate; eauto.
  rewrite orb_true_r. discriminate.
Qed.

Lemma format_plus_2f_shape (x : float) :
  is_finite x = true -> is_signed_fixed2 (format_plus_2f x) = true.
Proof.
  intros H. unfold format_plus_2f.
  destruct (is_finite_cases x H) as [[s ->]|(s & m & e & ->)].
  - destruct s; reflexivity.
  - pose proof (fixed2_shape _ (scaled_decimal_nonneg m e 2)) as Hs.
    destruct s; cbn [sign_string append is_signed_fixed2];
      rewrite Hs; reflexivity.
Qed.

(** ** Reading the printed return back *)

Lemma is_digit_not_point c : is_digit c = true -> Ascii.eqb c "." = false.
Proof.
  intros H. destruct (Ascii.eqb_spec c ".") as [->|]; [|reflexivity].
  vm_compute in H. discriminate.
Qed.

Lemma split_at_point_digits a : forall b,
  all_digits a = true -> split_at_point (a ++ String "." b) = (a, b).
Proof.
  induction a as [|c a IH]; intros b H.
  - reflexivity.
  - cbn [all_digits] in H. apply andb_true_iff in H as [Hc Ha].
    cbn [append split_at_point].
    rewrite (is_digit_not_point c Hc), (IH b Ha). reflexivity.
Qed.

Lemma digit_value_char d : (0 <= d <= 9)%Z -> digit_value (digit_char d) = d.
Proof.
  intros H.
  assert (Hd : (d = 0 \/ d = 1 \/ d = 2 \/ d = 3 \/ d = 4 \/ d = 5 \/ d = 6
                \/ d = 7 \/ d = 8 \/ d = 9)%Z) by lia.
  repeat (destruct Hd as [->|Hd]; [reflexivity|]). subst. reflexivity.
Qed.

Lemma to_uint_nonnil n : N.to_uint n <> Decimal.Nil.
Proof.
  rewrite <- (DecimalN.Unsigned.of_to n) at 1.
  rewrite DecimalN.Unsigned.to_of. apply DecimalFacts.unorm_nonnil.
Qed.

Lemma Z_to_string_all_digits z : all_digits (Z_to_string z) = true.
Proof.
  destruct (Z_to_string_digits z) as (c & s & -> & Hc & Hs).
  cbn [all_digits]. rewrite Hc, Hs. reflexivity.
Qed.

Lemma read_fixed2_fixed2 n : (0 <= n)%Z -> read_fixed2 (fixed2 n) = Some n.
Proof.
  intros Hn. unfold read_fixed2, fixed2.
  change (Z_to_string (n / 100) ++ "."
            ++ String (digit_char (n mod 100 / 10))
                 (String (digit_char (n mod 10)) ""))
    with (Z_to_string (n / 100)
            ++ String "." (String (digit_char (n mod 100 / 10))
                             (String (digit_char (n mod 10)) ""))).
  rewrite split_at_point_digits by apply Z_to_string_all_digits.
  assert (H1 : (0 <= n mod 100 / 10 <= 9)%Z).
  { pose proof (Z.mod_pos_bound n 100 eq_refl).
    assert (n mod 100 / 10 < 10)%Z by (apply Z.div_lt_upper_bound; lia).
    assert (0 <= n mod 100 / 10)%Z by (apply Z.div_pos; lia). lia. }
  assert (H2 : (0 <= n mod 10 <= 9)%Z)
    by (pose proof (Z.mod_pos_bound n 10 eq_refl); lia).
  unfold Z_to_string at 1.
  rewrite NilZero.usu by apply to_uint_nonnil.
  rewrite DecimalN.Unsigned.of_to.
  assert (Hq : (0 <= n / 100)%Z) by (apply Z.div_pos; lia).
  rewrite Z2N.id by exact Hq.
  rewrite String.eqb_refl, !digit_char_is_digit by assumption.
  cbn [andb]. rewrite !digit_value_char by assumption.
  f_equal. Z.div_mod_to_equations. lia.
Qed.

(** ** The printed return is the nearest decimal *)

Lemma round_half_even_nearest num den :
  (0 <= num)%Z -> (0 < den)%Z ->
  let q := round_half_even num den in
  (2 * Z.abs (num - q * den) <= den)%Z /\
  ((2 * Z.abs (num - q * den) = den)%Z -> Z.even q = true).
Proof.
  intros Hn Hd q. subst q. unfold round_half_even.
  pose proof (Z.div_mod num den ltac:(lia)) as E.
  pose proof (Z.mod_pos_bound num den Hd) as B.
  set (k := (num / den)%Z) in *. set (r := (num mod den)%Z) in *.
  destruct (Z.compare_spec (2 * r) den) as [H|H|H].
  - destruct (Z.even k) eqn:Ek.
    + split; [nia | auto].
    + split; [nia|]. intros _. rewrite Z.even_add, Ek. reflexivity.
  - split; [nia | intros; nia].
  - split; [nia | intros; nia].
Qed.

Lemma nearest_hundredths_ratio (m : positive) (d : positive) :
  nearest_hundredths (Zpos m # d) (round_half_even (Zpos m * 100) (Zpos d)).
Proof.
  destruct (round_half_even_nearest (Zpos m * 100) (Zpos d)) as [Hle Hev];
    [lia | lia |].
  set (q := round_half_even (Zpos m * 100) (Zpos d)) in *.
  assert (E : ((Zpos m # d) * 100 - inject_Z q == (Zpos m * 100 - q * Zpos d) # d)%Q).
  { unfold Qeq, Qminus, Qplus, Qmult, Qopp, inject_Z. cbn [Qnum Qden].
    rewrite ?Pos2Z.inj_mul. lia. }
  unfold nearest_hundredths. rewrite E.
  change (Qabs ((Zpos m * 100 - q * Zpos d) # d))
    with (Z.abs (Zpos m * 100 - q * Zpos d) # d).
  unfold Qle, Qeq. cbn [Qnum Qden]. split; [lia|].
  intros H. apply Hev. lia.
Qed.

Lemma nearest_hundredths_exact (n q : Z) :
  q = (n * 100)%Z -> nearest_hundredths (inject_Z n) q.
Proof.
  intros ->.
  assert (E : (inject_Z n * 100 - inject_Z (n * 100) == 0)%Q).
  { unfold Qeq, Qminus, Qplus, Qmult, Qopp, inject_Z. cbn [Qnum Qden]. lia. }
  unfold nearest_hundredths. rewrite E. split.
  - discriminate.
  - intros H. discriminate H.
Qed.

Lemma Qabs_float_value (x : float) s m e :
  Prim2SF x = S754_finite s m e ->
  Qabs (float_value x)
  = if (0 <=? e)%Z then inject_Z (Zpos m * 2 ^ e)
    else Qmake (Zpos m) (Z.to_pos (2 ^ (- e))).
Proof.
  intros E. unfold float_value. rewrite E.
  destruct (0 <=? e)%Z eqn:He.
  - apply Z.leb_le in He.
    assert (0 < Zpos m * 2 ^ e)%Z
      by (apply Z.mul_pos_pos; [lia | apply Z.pow_pos_nonneg; lia]).
    unfold inject_Z, Qabs. f_equal.
    destruct s; cbn [cond_Zopp]; lia.
  - unfold Qabs. f_equal. destruct s; reflexivity.
Qed.

Lemma scaled_decimal_nearest (x : float) s m e :
  Prim2SF x = S754_finite s m e ->
  nearest_hundredths (Qabs (float_value x)) (scaled_decimal m e 2).
Proof.
  intros E. rewrite (Qabs_float_value x s m e E). unfold scaled_decimal.
  change (10 ^ Z.of_nat 2)%Z with 100%Z.
  destruct (Z.leb_spec 0 e) as [He|He].
  - apply nearest_hundredths_exact. reflexivity.
  - assert (Hp : (0 < 2 ^ (- e))%Z) by (apply Z.pow_pos_nonneg; lia).
    rewrite <- (Z2Pos.id (2 ^ (- e))) at 2 by exact Hp.
    apply nearest_hundredths_ratio.
Qed.

(** What [f"{x:+.2f}"] prints for a finite number: the sign, then the
    decimal with two places nearest to the magnitude. *)
Lemma format_plus_2f_value (x : float) :
  is_finite x = true ->
  exists b q,
    read_signed_fixed2 (format_plus_2f x) = Some (b, q) /\
    SF_has_sign b (Prim2SF x) /\
    nearest_hundredths (Qabs (float_value x)) q.
Proof.
  intros H. unfold format_plus_2f.
  destruct (is_finite_cases x H) as [[s E]|(s & m & e & E)].
  - exists s, 0%Z. rewrite E. split; [destruct s; reflexivity|].
    split; [reflexivity|].
    unfold float_value. rewrite E.
    split; [discriminate | reflexivity].
  - exists s, (scaled_decimal m e 2). rewrite E. split; [|split].
    + pose proof (read_fixed2_fixed2 _ (scaled_decimal_nonneg m e 2)) as R.
      destruct s; cbn [sign_string append read_signed_fixed2];
        [change (Ascii.eqb "-" "+") with false; change (Ascii.eqb "-" "-") with true
        |change (Ascii.eqb "+" "+") with true]; cbn iota; rewrite R; reflexivity.
    + reflexivity.
    + apply (scaled_decimal_nearest x s m e E).
Qed.

Lemma format_plus_2f_nan (x : float) :
  is_nan x = true -> format_plus_2f x = "+nan".
Proof.
  intros H. unfold format_plus_2f. rewrite (is_nan_true_SF x H). reflexivity.
Qed.

Lemma format_plus_2f_infinity (x : float) :
  is_infinity x = true ->
  format_plus_2f x = if x <? 0 then "-inf" else "+inf".
Proof.
  unfold is_infinity, format_plus_2f.
  rewrite FloatAxioms.eqb_spec, ltb_spec, abs_spec, Prim2SF_infinity, Prim2SF_0.
  destruct (Prim2SF x) as [s|s| |s m e]; cbn; try discriminate.
  intros _. destruct s; reflexivity.
Qed.

(** The reader accepts one text for each sign and count of hundredths, so
    what it reads determines what was printed. *)

Lemma split_at_point_inv s : forall a c b,
  split_at_point s = (a, String c b) -> s = a ++ String "." (String c b).
Proof.
  induction s as [|x s IH]; intros a c b; cbn [split_at_point].
  - discriminate.
  - destruct (Ascii.eqb_spec x ".") as [->|Hx].
    + intros [= <- <-]. reflexivity.
    + destruct (split_at_point s) as [a' b'] eqn:E. intros [= <- ->].
      cbn [append]. f_equal. apply IH. reflexivity.
Qed.

Lemma digit_char_value c : is_digit c = true ->
  (0 <= digit_value c <= 9)%Z /\ digit_char (digit_value c) = c.
Proof.
  unfold is_digit, digit_value, digit_char. intros H.
  apply andb_true_iff in H as [H1 H2].
  apply Nat.leb_le in H1, H2. split; [lia|].
  replace (48 + Z.to_nat (Z.of_nat (nat_of_ascii c) - 48))%nat
    with (nat_of_ascii c) by lia.
  apply ascii_nat_embedding.
Qed.

Lemma read_fixed2_unique s q : read_fixed2 s = Some q -> s = fixed2 q.
Proof.
  unfold read_fixed2.
  destruct (split_at_point s) as [ip fp] eqn:E.
  destruct (NilZero.uint_of_string ip) as [d|]; [|discriminate].
  destruct fp as [|d1 [|d2 [|? ?]]]; try discriminate.
  destruct (String.eqb_spec (Z_to_string (Z.of_N (N.of_uint d))) ip) as [Hip|];
    [|discriminate].
  destruct (is_digit d1) eqn:H1; [|discriminate].
  destruct (is_digit d2) eqn:H2; [|discriminate].
  cbn [andb]. intros [= <-].
  destruct (digit_char_value d1 H1) as [B1 C1].
  destruct (digit_char_value d2 H2) as [B2 C2].
  pose proof (N2Z.is_nonneg (N.of_uint d)) as Hn.
  set (n := Z.of_N (N.of_uint d)) in *.
  set (v1 := digit_value d1) in *. set (v2 := digit_value d2) in *.
  unfold fixed2.
  replace ((n * 100 + v1 * 10 + v2) / 100)%Z with n
    by (Z.div_mod_to_equations; lia).
  replace ((n * 100 + v1 * 10 + v2) mod 100 / 10)%Z with v1
    by (Z.div_mod_to_equations; lia).
  replace ((n * 100 + v1 * 10 + v2) mod 10)%Z with v2
    by (Z.div_mod_to_equations; lia).
  rewrite C1, C2, Hip. apply (split_at_point_inv s), E.
Qed.

Lemma read_signed_fixed2_unique s b q :
  read_signed_fixed2 s = Some (b, q) -> s = sign_string b ++ fixed2 q.
Proof.
  destruct s as [|c s]; cbn [read_signed_fixed2]; [discriminate|].
  destruct (Ascii.eqb_spec c "+") as [->|_].
  - destruct (read_fixed2 s) as [q'|] eqn:E; [|discriminate].
    intros [= <- <-]. cbn [sign_string append]. f_equal.
    apply read_fixed2_unique, E.
  - destruct (Ascii.eqb_spec c "-") as [->|_]; [|discriminate].
    destruct (read_fixed2 s) as [q'|] eqn:E; [|discriminate].
    intros [= <- <-]. cbn [sign_string append]. f_equal.
    apply read_fixed2_unique, E.
Qed.

(** C7 (as the program has it): the drivers returned by [_signal] are
    exactly two: the momentum line, then ["regime: <LABEL>"].  The
    momentum line prints a finite return with an explicit sign and two
    decimals, the decimal nearest to the return (the even one on a tie),
    and prints ["+nan"], ["+inf"] or ["-inf"] for a return that is not
    finite.  On a volatility spike the caution line is appended as a third
    candidate and the slice to two entries drops it, so it is never
    returned. *)
Theorem signal_drivers_truncated (asset : string) (ret_1h : float)
    (vol_spike : bool) (regime : string) :
  let s := _signal asset ret_1h vol_spike regime in
  sig_drivers s =
    [("1-tick momentum: " ++ format_plus_2f ret_1h ++ "%")%string;
     ("regime: " ++ regime)%string] /\
  List.length (sig_drivers s) = 2%nat /\
  (is_finite ret_1h = true ->
   is_signed_fixed2 (format_plus_2f ret_1h) = true /\
   exists b q,
     read_signed_fixed2 (format_plus_2f ret_1h) = Some (b, q) /\
     SF_has_sign b (Prim2SF ret_1h) /\
     nearest_hundredths (Qabs (float_value ret_1h)) q) /\
  (is_nan ret_1h = true -> format_plus_2f ret_1h = "+nan") /\
  (is_infinity ret_1h = true ->
   format_plus_2f ret_1h = if ret_1h <? 0 then "-inf" else "+inf") /\
  (vol_spike = true ->
   _signal_drivers ret_1h vol_spike regime
     = (sig_drivers s ++ ["volatility spike: caution"])%list) /\
  existsb (String.eqb "volatility spike: caution") (sig_drivers s) = false.
Proof.
  intros s.
  assert (Hd : sig_drivers s =
    [("1-tick momentum: " ++ format_plus_2f ret_1h ++ "%")%string;
     ("regime: " ++ regime)%string]).
  { unfold s, _signal, _signal_drivers. cbn [sig_drivers].
    destruct vol_spike; reflexivity. }
  rewrite Hd.
  split; [reflexivity|]. split; [reflexivity|].
  split; [intros H; split; [apply format_plus_2f_shape, H
                           | apply format_plus_2f_value, H]|].
  split; [apply format_plus_2f_nan|].
  split; [apply format_plus_2f_infinity|].
  split; [intros ->; reflexivity | reflexivity].
Qed.

(** The momentum line of a NaN return has no digits. *)
Lemma nan_return_momentum_line :
  sig_drivers (_signal "SPY" nan false "TRANSITION")
    = ["1-tick momentum: +nan%"; "regime: TRANSITION"] /\
  is_signed_fixed2 (format_plus_2f nan) = false /\
  sig_drivers (_signal "SPY" neg_infinity false "TRANSITION")
    = ["1-tick momentum: -inf%"; "regime: TRANSITION"] /\
  is_signed_fixed2 (format_plus_2f neg_infinity) = false.
Proof. repeat split; vm_compute; reflexivity. Qed.

(* ================================================================== *)
(** * The relative-strength ranking *)
(* ================================================================== *)

Lemma by_return_asym (x y : string * float) :
  by_return x y = true -> by_return y x = false.
Proof. apply ltb_asym. Qed.

Lemma by_return_nlt_trans (x y z : string * float) :
  is_nan (snd x) = false -> is_nan (snd y) = false -> is_nan (snd z) = false ->
  by_return x y = false -> by_return y z = false -> by_return x z = false.
Proof.
  unfold by_return. intros Hx Hy Hz Hxy Hyz.
  apply nlt_iff_leb in Hxy, Hyz; auto. apply nlt_iff_leb; auto.
  eapply leb_trans; eassumption.
Qed.

Lemma filter_none {A : Type} (l : list A) : filter (fun _ => false) l = [].
Proof. induction l; cbn; auto. Qed.

Lemma first_item_rev {A : Type} (l : list A) (x : A) (l' : list A) :
  l = x :: l' -> first_item (rev l) = Ok (List.last l x).
Proof.
  intros E.
  destruct (exists_last (l := l)) as (l0 & a & E0); [congruence|].
  rewrite E0, rev_unit, last_last. reflexivity.
Qed.

(** C6 (as the program has it): for a mapping in which no return is NaN,
    the relative-strength rank holds the (asset, return) pairs of the
    mapping, sorted by return in descending order, pairs with equal returns
    keeping the order the mapping lists them in; the leader is the asset of
    its first element and the laggard the asset of its last. *)
Theorem relative_strength_rank_sorted (rets : dict float) :
  no_nan rets = true ->
  let rank := rs_rank rets in
  Permutation rets rank /\
  StronglySorted (fun x y => (snd y <=? snd x) = true) rank /\
  (forall v : float,
     filter (fun kv => snd kv =? v) rank = filter (fun kv => snd kv =? v) rets) /\
  (forall first rest, rank = first :: rest ->
     exists det, detector_panel rets = Ok det /\
       leader det = fst first /\ laggard det = fst (List.last rank first)).
Proof.
  intros Hn0 rank.
  set (P := fun kv : string * float => is_nan (snd kv) = false).
  assert (Hn : Forall P rets).
  { apply Forall_forall. intros kv Hin. unfold no_nan in Hn0.
    rewrite forallb_forall in Hn0. apply negb_true_iff, Hn0, Hin. }
  assert (Hperm : Permutation rets rank) by apply sorted_reverse_perm.
  assert (Hrank : Forall P rank) by (rewrite <- Hperm; exact Hn).
  assert (Hasym : forall x y, P x -> P y -> by_return x y = true -> by_return y x = false)
    by (intros x y _ _; apply by_return_asym).
  assert (Htr : forall x y z, P x -> P y -> P z ->
            by_return x y = false -> by_return y z = false -> by_return x z = false)
    by (intros x y z; apply by_return_nlt_trans).
  split; [exact Hperm|]. split; [|split].
  - pose proof (sorted_reverse_desc by_return P Hasym Htr rets Hn) as Hs.
    apply (StronglySorted_weaken (desc by_return) _ P); [|exact Hrank|exact Hs].
    intros x y Px Py Hxy. apply nlt_iff_leb; assumption.
  - intros v. destruct (is_nan v) eqn:Ev.
    + rewrite (filter_ext _ (fun _ => false)) by (intros; apply eqb_nan_r, Ev).
      rewrite (filter_ext (fun kv => snd kv =? v) (fun _ => false))
        by (intros; apply eqb_nan_r, Ev).
      rewrite !filter_none. reflexivity.
    + pose proof (sorted_reverse_stable by_return P Hasym Htr ("", v) rets Ev Hn) as Hs.
      change (sorted_reverse by_return rets) with rank in Hs.
      rewrite (filter_ext_in (fun kv => snd kv =? v) (ties by_return ("", v))).
      * rewrite Hs. apply filter_ext_in. intros kv Hin.
        rewrite Forall_forall in Hn. unfold ties, by_return. cbn [snd].
        apply ties_iff_eqb; [exact Ev | apply Hn, Hin].
      * intros kv Hin. rewrite Forall_forall in Hrank.
        unfold ties, by_return. cbn [snd]. symmetry.
        apply ties_iff_eqb; [exact Ev | apply Hrank, Hin].
  - intros first rest E. unfold detector_panel.
    change (rs_rank rets) with rank.
    assert (H1 : first_item rank = Ok first) by (rewrite E; reflexivity).
    unfold last_item. rewrite H1, (first_item_rev rank first rest E).
    cbn [bind]. eexists. split; [reflexivity|]. split; reflexivity.
Qed.

Lemma relative_strength_rank_sorted_witness :
  let rank := rs_rank e2e_rets in
  Permutation e2e_rets rank /\
  StronglySorted (fun x y => (snd y <=? snd x) = true) rank /\
  (forall v : float,
     filter (fun kv => snd kv =? v) rank
       = filter (fun kv => snd kv =? v) e2e_rets) /\
  (forall first rest, rank = first :: rest ->
     exists det, detector_panel e2e_rets = Ok det /\
       leader det = fst first /\ laggard det = fst (List.last rank first)).
Proof.
  apply (relative_strength_rank_sorted e2e_rets).
  reflexivity.
Defined.

(** With a NaN return the rank need not be in descending order: here no
    comparison of [list.sort] asks for an exchange, the rank is the mapping
    as it is listed, and the leader SPY returned less than BTC, which
    stands third. *)
Lemma nan_return_rank_not_descending :
  rs_rank [("SPY", 1.0); ("GLD", nan); ("BTC", 3.0); ("TLT", 2.0)]
    = [("SPY", 1.0); ("GLD", nan); ("BTC", 3.0); ("TLT", 2.0)] /\
  (exists det,
     detector_panel [("SPY", 1.0); ("GLD", nan); ("BTC", 3.0); ("TLT", 2.0)]
       = Ok det /\
     leader det = "SPY" /\ laggard det = "TLT") /\
  (snd ("BTC", 3.0) <=? snd ("SPY", 1.0)) = false /\
  no_nan [("SPY", 1.0); ("GLD", nan); ("BTC", 3.0); ("TLT", 2.0)] = false.
Proof.
  split; [vm_compute; reflexivity|]. split.
  - eexists. split; [vm_compute; reflexivity|]. split; reflexivity.
  - split; vm_compute; reflexivity.
Qed.

(* ================================================================== *)
(** * The snapshot tick: ranking and regime steps *)
(* ================================================================== *)

Lemma compute_rets_keys np _last keys : forall rets,
  compute_rets np _last keys = Ok rets -> dict_keys rets = keys.
Proof.
  induction keys as [|a keys IH]; intros rets; cbn [compute_rets].
  - intros [= <-]. reflexivity.
  - destruct (dict_get np a); cbn [bind]; [|discriminate].
    destruct (dict_get _last a); cbn [bind]; [|discriminate].
    destruct (_pct _ _); cbn [bind]; [|discriminate].
    destruct (compute_rets np _last keys) as [rest|]; cbn [bind]; [|discriminate].
    intros [= <-]. cbn. f_equal. apply IH. reflexivity.
Qed.

Lemma dict_get_in {V : Type} (d : dict V) (k : string) :
  In k (dict_keys d) -> exists v, dict_get d k = Ok v.
Proof.
  unfold dict_get. induction d as [|[k' v'] d IH]; cbn; [tauto|].
  intros [->|Hin].
  - rewrite String.eqb_refl. eauto.
  - destruct (String.eqb k k'); eauto.
Qed.

Lemma detector_panel_nonempty (rets : dict float) :
  rets <> [] -> raises (detector_panel rets) = false.
Proof.
  intros Hne. unfold detector_panel, last_item.
  pose proof (sorted_reverse_perm by_return rets) as Hp.
  fold (rs_rank rets) in Hp.
  destruct (rs_rank rets) as [|first rest] eqn:E.
  - apply Permutation_sym, Permutation_nil in Hp. contradiction.
  - rewrite (first_item_rev (first :: rest) first rest eq_refl). reflexivity.
Qed.

(** C4 (as the program has it): whenever the registry lists SPY, BTC, TLT
    and GLD, as [ASSETS] does, the ranking step and the regime step of a
    tick run on the computed returns without raising. *)
Theorem ranking_and_regime_do_not_raise (assets : dict asset_info)
    (prices _last rets : dict float) :
  In "SPY" (dict_keys assets) -> In "BTC" (dict_keys assets) ->
  In "TLT" (dict_keys assets) -> In "GLD" (dict_keys assets) ->
  compute_rets prices _last (dict_keys assets) = Ok rets ->
  raises (detector_panel rets) = false /\ raises (regime_step rets) = false.
Proof.
  intros Hspy Hbtc Htlt Hgld Hrets.
  apply compute_rets_keys in Hrets. rewrite <- Hrets in *.
  split.
  - apply detector_panel_nonempty. intros ->. exact Hspy.
  - unfold regime_step.
    destruct (dict_get_in rets _ Hspy) as [v1 ->].
    destruct (dict_get_in rets _ Hbtc) as [v2 ->].
    destruct (dict_get_in rets _ Htlt) as [v3 ->].
    destruct (dict_get_in rets _ Hgld) as [v4 ->].
    reflexivity.
Qed.

Lemma ranking_and_regime_do_not_raise_witness :
  raises (detector_panel e2e_rets) = false /\ raises (regime_step e2e_rets) = false.
Proof.
  apply (ranking_and_regime_do_not_raise ASSETS (new_prices e2e_ticks)
           initial_last e2e_rets); cbn; auto.
Defined.

(** Over an empty registry the returns are empty, and the tick raises:
    [rs_rank[0]] has no element and [rets["SPY"]] no key. *)
Lemma empty_registry_raises :
  compute_rets [] [] (dict_keys (@nil (string * asset_info))) = Ok [] /\
  detector_panel [] = Raise IndexError /\
  regime_step [] = Raise (KeyError "SPY") /\
  live_over [] [] zero_rng = Raise IndexError.
Proof. repeat split. Qed.

(** ** [live] returns *)

Lemma dict_keys_set {V : Type} (d : dict V) k v k' :
  In k' (dict_keys (dict_set d k v)) <-> k' = k \/ In k' (dict_keys d).
Proof.
  unfold dict_keys. induction d as [|[k0 v0] d IH]; cbn [dict_set map fst In].
  - intuition congruence.
  - destruct (String.eqb_spec k k0) as [->|Hne]; cbn [map fst In].
    + intuition congruence.
    + rewrite IH. intuition congruence.
Qed.

Lemma py_int_finite (x : float) :
  is_finite x = true -> exists v, py_int x = Ok v.
Proof.
  intros H. unfold py_int.
  destruct (is_finite_cases x H) as [[s ->]|(s & m & e & ->)]; eauto.
Qed.

Lemma simulate_asset_returns _last a t g :
  In a (dict_keys _last) -> In a (dict_keys vols) -> finite_volumes g ->
  exists t' g',
    simulate_asset _last a t g = Ok (t', g') /\
    draws g' = draws g /\
    (forall k, k = a \/ ticked t k -> ticked t' k).
Proof.
  intros Hl Hv Hf. unfold simulate_asset.
  destruct (dict_get_in _ _ Hl) as [p ->].
  destruct (dict_get_in _ _ Hv) as [vol ->]. cbn [bind].
  unfold _tick_price, gauss, random, next_draw. cbn [draws cursor].
  unfold synthetic_volume.
  destruct (py_int_finite _ (Hf (S (cursor g)))) as [v ->]. cbn [bind].
  eexists. eexists. split; [reflexivity|]. split; [reflexivity|].
  intros k Hk. unfold ticked in *. cbn [new_prices volume vol_spike].
  rewrite (dict_keys_set (new_prices t)), (dict_keys_set (volume t)),
    (dict_keys_set (vol_spike t)).
  tauto.
Qed.

Lemma simulate_returns _last keys : forall t g,
  incl keys (dict_keys _last) -> incl keys (dict_keys vols) ->
  finite_volumes g ->
  exists t' g',
    simulate _last keys t g = Ok (t', g') /\
    draws g' = draws g /\
    (forall k, In k keys \/ ticked t k -> ticked t' k).
Proof.
  induction keys as [|a keys IH]; intros t g Hl Hv Hf; cbn [simulate].
  - exists t, g. split; [reflexivity|]. split; [reflexivity|].
    intros k [[]|Hk]. exact Hk.
  - destruct (simulate_asset_returns _last a t g) as (t1 & g1 & -> & Hd & Ht);
      [apply Hl; left; reflexivity | apply Hv; left; reflexivity | exact Hf |].
    cbn [bind fst snd].
    destruct (IH t1 g1) as (t2 & g2 & -> & Hd2 & Ht2).
    + intros k Hk. apply Hl. right. exact Hk.
    + intros k Hk. apply Hv. right. exact Hk.
    + intros i. unfold finite_volumes in Hf. rewrite Hd. apply Hf.
    + exists t2, g2. split; [reflexivity|]. split; [congruence|].
      intros k [[<-|Hk]|Hk]; apply Ht2; auto.
Qed.

Lemma _pct_returns (new old : float) : exists r, _pct new old = Ok r.
Proof. unfold _pct, py_div. destruct (old =? 0); cbn; eauto. Qed.

Lemma compute_rets_returns prices _last keys :
  incl keys (dict_keys prices) -> incl keys (dict_keys _last) ->
  exists rets, compute_rets prices _last keys = Ok rets.
Proof.
  induction keys as [|a keys IH]; intros Hp Hl; cbn [compute_rets]; eauto.
  destruct (dict_get_in prices a) as [np ->]; [apply Hp; left; reflexivity|].
  destruct (dict_get_in _last a) as [p ->]; [apply Hl; left; reflexivity|].
  cbn [bind]. destruct (_pct_returns np p) as [r ->]. cbn [bind].
  destruct IH as [rest ->]; cbn [bind]; eauto;
    intros k Hk; [apply Hp | apply Hl]; right; exact Hk.
Qed.

Lemma asset_rows_returns assets t rets keys :
  incl keys (dict_keys assets) -> incl keys (dict_keys rets) ->
  (forall k, In k keys -> ticked t k) ->
  exists rows, asset_rows assets t rets keys = Ok rows.
Proof.
  induction keys as [|a keys IH]; intros Ha Hr Ht; cbn [asset_rows]; eauto.
  destruct (Ht a (or_introl eq_refl)) as (H1 & H2 & H3).
  destruct (dict_get_in assets a) as [info ->]; [apply Ha; left; reflexivity|].
  destruct (dict_get_in _ a H1) as [np ->].
  destruct (dict_get_in rets a) as [r ->]; [apply Hr; left; reflexivity|].
  destruct (dict_get_in _ a H2) as [v ->].
  destruct (dict_get_in _ a H3) as [s ->]. cbn [bind].
  destruct IH as [rest ->]; cbn [bind]; eauto.
  - intros k Hk. apply Ha. right. exact Hk.
  - intros k Hk. apply Hr. right. exact Hk.
  - intros k Hk. apply Ht. right. exact Hk.
Qed.

Lemma signal_for_returns rets spikes label a :
  In a (dict_keys rets) -> In a (dict_keys spikes) ->
  exists s, signal_for rets spikes label a = Ok s.
Proof.
  intros Hr Hs. unfold signal_for.
  destruct (dict_get_in _ _ Hr) as [r ->].
  destruct (dict_get_in _ _ Hs) as [s ->]. cbn [bind]. eauto.
Qed.

Lemma regime_step_returns (rets : dict float) :
  In "SPY" (dict_keys rets) -> In "BTC" (dict_keys rets) ->
  In "TLT" (dict_keys rets) -> In "GLD" (dict_keys rets) ->
  exists reg, regime_step rets = Ok reg.
Proof.
  intros Hspy Hbtc Htlt Hgld. unfold regime_step.
  destruct (dict_get_in rets _ Hspy) as [v1 ->].
  destruct (dict_get_in rets _ Hbtc) as [v2 ->].
  destruct (dict_get_in rets _ Htlt) as [v3 ->].
  destruct (dict_get_in rets _ Hgld) as [v4 ->].
  cbn [bind]. eauto.
Qed.

Lemma detector_panel_returns (rets : dict float) :
  rets <> [] -> exists det, detector_panel rets = Ok det.
Proof.
  intros Hne. pose proof (detector_panel_nonempty rets Hne) as H.
  destruct (detector_panel rets); [eauto | discriminate].
Qed.

(** On the registry [ASSETS], a tick returns whenever the state lists the
    four assets and no drawn volume overflows [int]; the new state lists
    the four assets again. *)
Lemma live_returns (_last : dict float) (g : rng) :
  incl (dict_keys ASSETS) (dict_keys _last) -> finite_volumes g ->
  exists snap _last' g',
    live _last g = Ok (snap, _last', g') /\
    draws g' = draws g /\
    incl (dict_keys ASSETS) (dict_keys _last').
Proof.
  intros Hl Hf. unfold live, live_over.
  destruct (simulate_returns _last (dict_keys ASSETS) no_ticks g Hl)
    as (t & g' & -> & Hd & Ht); [intros k Hk; exact Hk | exact Hf |].
  cbn [bind]. unfold live_after_ticks.
  assert (Hk : forall k, In k (dict_keys ASSETS) -> ticked t k)
    by (intros k Hk; apply Ht; left; exact Hk).
  destruct (compute_rets_returns (new_prices t) _last (dict_keys ASSETS))
    as [rets Hrets]; [intros k Hin; apply (Hk k Hin) | exact Hl |].
  rewrite Hrets. cbn [bind].
  pose proof (compute_rets_keys _ _ _ _ Hrets) as Hkeys.
  destruct (detector_panel_returns rets) as [det ->];
    [intros ->; discriminate|]. cbn [bind].
  destruct (regime_step_returns rets) as [[label conf] ->];
    try (rewrite Hkeys; cbn; tauto). cbn [bind].
  destruct (signal_for_returns rets (vol_spike t) label "SPY") as [s1 ->];
    [rewrite Hkeys; cbn; tauto | apply Hk; cbn; tauto |].
  destruct (signal_for_returns rets (vol_spike t) label "GLD") as [s2 ->];
    [rewrite Hkeys; cbn; tauto | apply Hk; cbn; tauto |].
  destruct (signal_for_returns rets (vol_spike t) label "BTC") as [s3 ->];
    [rewrite Hkeys; cbn; tauto | apply Hk; cbn; tauto |].
  destruct (signal_for_returns rets (vol_spike t) label "TLT") as [s4 ->];
    [rewrite Hkeys; cbn; tauto | apply Hk; cbn; tauto |].
  cbn [bind].
  destruct (asset_rows_returns ASSETS t rets (dict_keys ASSETS)) as [rows ->];
    [intros k Hin; exact Hin | rewrite Hkeys; intros k Hin; exact Hin | exact Hk |].
  cbn [bind]. eexists. eexists. eexists.
  split; [reflexivity|]. split; [exact Hd|].
  intros k Hin. apply (Hk k Hin).
Qed.

Lemma run_live_returns (n : nat) : forall (_last : dict float) (g : rng),
  incl (dict_keys ASSETS) (dict_keys _last) -> finite_volumes g ->
  exists _last' g', run_live n _last g = Ok (_last', g').
Proof.
  induction n as [|n IH]; intros _last g Hl Hf; cbn [run_live]; eauto.
  destruct (live_returns _last g Hl Hf) as (snap & l1 & g1 & -> & Hd & Hl1).
  cbn [bind]. apply IH; [exact Hl1|].
  intros i. rewrite Hd. apply Hf.
Qed.

(* ================================================================== *)
(** * The price simulator and the last-price state *)
(* ================================================================== *)

Lemma tick_price_floor (p vol : float) (g : rng) :
  (0.01 <=? fst (_tick_price p vol g)) = true.
Proof.
  unfold _tick_price, gauss, next_draw. cbn [fst]. unfold py_max.
  destruct (0.01 <? p * (1 + draws g (cursor g))) eqn:E.
  - apply ltb_leb, E.
  - reflexivity.
Qed.

Lemma dict_set_forallb {V : Type} (f : string * V -> bool) d k v :
  forallb f d = true -> f (k, v) = true -> forallb f (dict_set d k v) = true.
Proof.
  intros Hd Hk. induction d as [|[k' v'] d' IH]; cbn [dict_set forallb].
  - rewrite Hk. reflexivity.
  - cbn [forallb] in Hd. apply andb_true_iff in Hd as [Hx Hd'].
    destruct (String.eqb k k'); cbn [forallb].
    + rewrite Hk, Hd'. reflexivity.
    + rewrite Hx, (IH Hd'). reflexivity.
Qed.

Lemma simulate_asset_floor _last a t g t' g' :
  price_floor (new_prices t) = true ->
  simulate_asset _last a t g = Ok (t', g') ->
  price_floor (new_prices t') = true.
Proof.
  intros Hf. unfold simulate_asset.
  destruct (dict_get _last a) as [p|]; cbn [bind]; [|discriminate].
  destruct (dict_get vols a) as [vol|]; cbn [bind]; [|discriminate].
  pose proof (tick_price_floor p vol g) as Hp.
  destruct (_tick_price p vol g) as [np g1]. cbn [fst] in Hp.
  destruct (gauss 0 0.6 g1) as [shock g2].
  destruct (synthetic_volume shock) as [v|]; cbn [bind]; [|discriminate].
  destruct (random g2) as [u g3].
  intros [= <- <-]. cbn [new_prices].
  apply dict_set_forallb; assumption.
Qed.

Lemma simulate_floor _last keys : forall t g t' g',
  price_floor (new_prices t) = true ->
  simulate _last keys t g = Ok (t', g') ->
  price_floor (new_prices t') = true.
Proof.
  induction keys as [|a keys IH]; intros t g t' g' Hf; cbn [simulate].
  - intros [= <- <-]. exact Hf.
  - destruct (simulate_asset _last a t g) as [[t1 g1]|] eqn:E; cbn [bind];
      [|discriminate].
    cbn [fst snd]. apply IH. eapply simulate_asset_floor; eassumption.
Qed.

(** The commit [_last = new_prices]. *)
Lemma live_after_ticks_commit assets _last t snap _last' :
  live_after_ticks assets _last t = Ok (snap, _last') -> _last' = new_prices t.
Proof.
  unfold live_after_ticks.
  repeat match goal with
         | |- context [bind ?c _] => destruct c; cbn [bind]; [|discriminate]
         | |- context [let '(_, _) := ?p in _] => destruct p
         end.
  intros [= _ <-]. reflexivity.
Qed.

Lemma live_over_floor assets _last g snap _last' g' :
  live_over assets _last g = Ok (snap, _last', g') -> price_floor _last' = true.
Proof.
  unfold live_over.
  destruct (simulate _last (dict_keys assets) no_ticks g) as [[t g1]|] eqn:E;
    cbn [bind]; [|discriminate].
  assert (Hf : price_floor (new_prices t) = true).
  { eapply simulate_floor; [|exact E]. reflexivity. }
  destruct (live_after_ticks assets _last t) as [[snap1 l1]|] eqn:E2;
    cbn [bind]; [|discriminate].
  intros [= <- <- <-].
  rewrite (live_after_ticks_commit _ _ _ _ _ E2). exact Hf.
Qed.

(** C5: the price simulator never returns less than [0.01], whatever the
    previous price, the volatility and the shock; and from prices that are
    all at least [0.01], every price stored after any number of ticks is
    at least [0.01].  Such ticks do return: on a state that lists the
    registry's assets, with draws whose volume is finite. *)
Theorem price_floor_invariant (p vol : float) (h : rng) (n : nat)
    (_last : dict float) (g : rng) :
  price_floor _last = true ->
  (0.01 <=? fst (_tick_price p vol h)) = true /\
  (forall _last' g',
     run_live n _last g = Ok (_last', g') -> price_floor _last' = true) /\
  (incl (dict_keys ASSETS) (dict_keys _last) -> finite_volumes g ->
   exists _last' g',
     run_live n _last g = Ok (_last', g') /\ price_floor _last' = true).
Proof.
  intros Hf.
  assert (Hinv : forall _last' g',
            run_live n _last g = Ok (_last', g') -> price_floor _last' = true).
  { revert _last g Hf.
    induction n as [|n IH]; intros _last g Hf _last' g'; cbn [run_live].
    - intros [= <- <-]. exact Hf.
    - destruct (live _last g) as [[[snap l1] g1]|] eqn:E; cbn [bind];
        [|discriminate].
      apply IH. eapply live_over_floor. exact E. }
  split; [apply tick_price_floor|]. split; [exact Hinv|].
  intros Hk Hd.
  destruct (run_live_returns n _last g Hk Hd) as (l' & g' & E).
  exists l', g'. split; [exact E | exact (Hinv _ _ E)].
Qed.

(** Two ticks with every draw at [0.0] leave the initial prices in place. *)
Example run_live_sample :
  run_live 2 initial_last zero_rng
  = Ok (initial_last, {| draws := draws zero_rng; cursor := 24 |}).
Proof. vm_compute. reflexivity. Qed.

Lemma price_floor_invariant_witness :
  (0.01 <=? fst (_tick_price 500 0.0009 zero_rng)) = true /\
  (forall _last' g',
     run_live 2 initial_last zero_rng = Ok (_last', g') ->
     price_floor _last' = true) /\
  (incl (dict_keys ASSETS) (dict_keys initial_last) ->
   finite_volumes zero_rng ->
   exists _last' g',
     run_live 2 initial_last zero_rng = Ok (_last', g')
     /\ price_floor _last' = true).
Proof.
  apply (price_floor_invariant 500 0.0009 zero_rng 2 initial_last zero_rng).
  reflexivity.
Defined.

(* ================================================================== *)
(** * The end-to-end scenario *)
(* ================================================================== *)

(** C3 (as the program has it): from prices 500, 190, 50000, 95 to 505,
    188, 51000, 94 with no spike, the returns are +1.0, -1.053, +2.0,
    -1.053 to three decimals; the regime is RISK-ON with confidence
    [min(0.95, 0.55 + 0.08*(1.0 + 2.0 + 1.0526...))], which is 0.8742
    (reported 87.4), the bound 0.95 not being reached; the SPY signal has
    [p_up = 0.64] and action BUY. *)
Theorem end_to_end_scenario :
  compute_rets (new_prices e2e_ticks) initial_last (dict_keys ASSETS)
    = Ok e2e_rets /\
  map (fun kv => (fst kv, py_round (snd kv) 3)) e2e_rets
    = [("SPY", 1.0); ("GLD", -1.053); ("BTC", 2.0); ("TLT", -1.053)] /\
  regime_step e2e_rets = Ok ("RISK-ON", 0.87421052631578955) /\
  0.55 + 0.08 * (1.0 + 2.0 + 1.0526315789473684) = 0.87421052631578955 /\
  (0.87421052631578955 <? 0.95) = true /\
  _signal_p_up "SPY" 1.0 false "RISK-ON" = 0.64 /\
  (exists snap _last',
     live_after_ticks ASSETS initial_last e2e_ticks = Ok (snap, _last') /\
     _last' = new_prices e2e_ticks /\
     map (fun kv => (fst kv, row_chg_pct (snd kv))) (snap_assets snap)
       = [("SPY", 1.0); ("GLD", -1.053); ("BTC", 2.0); ("TLT", -1.053)] /\
     snap_regime snap = ("RISK-ON", 87.4) /\
     hd_error (snap_signals snap)
       = Some {| sig_asset := "SPY"; sig_action := "BUY";
                 sig_confidence := 64.0;
                 sig_drivers := ["1-tick momentum: +1.00%"; "regime: RISK-ON"] |}).
Proof.
  repeat split; try (vm_compute; reflexivity).
  eexists. eexists. split; [vm_compute; reflexivity|].
  repeat split; vm_compute; reflexivity.
Qed.

(** In the scenario the regime confidence is not 0.95. *)
Lemma e2e_confidence_below_cap :
  regime_step e2e_rets = Ok ("RISK-ON", 0.87421052631578955) /\
  (0.87421052631578955 =? 0.95) = false /\
  (py_round (0.87421052631578955 * 100) 1 =? 95) = false.
Proof. repeat split; vm_compute; reflexivity. Qed.

(* ================================================================== *)
(** * The synthetic volume *)
(* ================================================================== *)

Lemma binary_round_aux_sign s m e l :
  SF_has_sign s (binary_round_aux prec emax s m e l).
Proof.
  unfold binary_round_aux.
  destruct (shr_fexp prec emax m e l) as [mrs e'].
  destruct (shr_fexp prec emax _ e' loc_Exact) as [mrs' e''].
  destruct (shr_m mrs'); cbn; auto.
  destruct (e'' <=? 971)%Z; cbn; auto.
Qed.

Lemma SFadd_nonneg x y :
  SF_has_sign false x -> SF_has_sign false y ->
  SF_has_sign false (SFadd prec emax x y).
Proof.
  destruct x as [sx|sx| |sx mx ex], y as [sy|sy| |sy my ey]; cbn;
    intros Hx Hy; subst; cbn; auto.
  unfold binary_normalize.
  destruct (Z.pos (fst (shl_align mx ex (Z.min ex ey)))
            + Z.pos (fst (shl_align my ey (Z.min ex ey))))%Z eqn:E;
    try lia; cbn; auto.
  unfold binary_round.
  match goal with
  | |- context [shl_align ?a ?b ?c] => destruct (shl_align a b c) as [mz ez]
  end.
  apply binary_round_aux_sign.
Qed.

Lemma SFmul_nonneg x y :
  SF_has_sign false x -> SF_has_sign false y ->
  SF_has_sign false (SFmul prec emax x y).
Proof.
  destruct x as [sx|sx| |sx mx ex], y as [sy|sy| |sy my ey]; cbn;
    intros Hx Hy; subst; cbn; auto.
  apply binary_round_aux_sign.
Qed.

Lemma volume_operand_nonneg (shock : float) :
  SF_has_sign false (Prim2SF (1000000 * (1 + abs shock))).
Proof.
  rewrite mul_spec, add_spec, abs_spec.
  apply SFmul_nonneg; [vm_compute; reflexivity|].
  apply SFadd_nonneg.
  - vm_compute. reflexivity.
  - destruct (Prim2SF shock); cbn; auto.
Qed.

Lemma trunc_mag_bounds m e :
  (0 <= trunc_mag m e)%Z /\
  (inject_Z (trunc_mag m e)
   <= (if (0 <=? e)%Z then inject_Z (Zpos m * 2 ^ e)
       else Qmake (Zpos m) (Z.to_pos (2 ^ (- e)))))%Q /\
  ((if (0 <=? e)%Z then inject_Z (Zpos m * 2 ^ e)
    else Qmake (Zpos m) (Z.to_pos (2 ^ (- e))))
   < inject_Z (trunc_mag m e + 1))%Q.
Proof.
  unfold trunc_mag. destruct (Z.leb_spec 0 e) as [He|He].
  - assert (0 < 2 ^ e)%Z by (apply Z.pow_pos_nonneg; lia).
    split; [nia|]. split.
    + apply Qle_refl.
    + rewrite <- Zlt_Qlt. lia.
  - assert (Hd : (0 < 2 ^ (- e))%Z) by (apply Z.pow_pos_nonneg; lia).
    pose proof (Z.mul_div_le (Zpos m) _ Hd).
    pose proof (Z.mul_succ_div_gt (Zpos m) _ Hd).
    split; [apply Z.div_pos; lia|].
    unfold Qle, Qlt, inject_Z. cbn [Qnum Qden].
    rewrite Z2Pos.id by exact Hd. split; lia.
Qed.

(** C9 (as the program has it): the synthetic volume is
    [int(1_000_000 * (1 + |s|))], the float product truncated toward zero
    and not rounded to nearest: a non-negative integer [v] with
    [v <= 1_000_000 * (1 + |s|) < v + 1] for the float product. *)
Theorem volume_is_truncation (shock : float) :
  let x := 1000000 * (1 + abs shock) in
  is_finite x = true ->
  exists v : Z,
    synthetic_volume shock = Ok v /\
    (0 <= v)%Z /\
    (inject_Z v <= float_value x)%Q /\ (float_value x < inject_Z (v + 1))%Q.
Proof.
  intros x Hfin. unfold synthetic_volume, py_int, float_value. fold x.
  pose proof (volume_operand_nonneg shock) as Hs. fold x in Hs.
  destruct (is_finite_cases x Hfin) as [[s E]|(s & m & e & E)]; rewrite E in *.
  - exists 0%Z. repeat split; try lia; try apply Qle_refl.
  - cbn in Hs. subst s. cbn [cond_Zopp].
    destruct (trunc_mag_bounds m e) as (H0 & H1 & H2).
    exists (trunc_mag m e). repeat split; assumption.
Qed.

Lemma volume_is_truncation_witness :
  exists v : Z,
    synthetic_volume 0.0000007 = Ok v /\
    (0 <= v)%Z /\
    (inject_Z v <= float_value (1000000 * (1 + abs 0.0000007)))%Q /\
    (float_value (1000000 * (1 + abs 0.0000007)) < inject_Z (v + 1))%Q.
Proof.
  apply (volume_is_truncation 0.0000007). vm_compute. reflexivity.
Defined.

(** For the shock [7e-7] the product is 1000000.7: the volume is 1000000
    where rounding to nearest gives 1000001. *)
Lemma volume_is_not_rounded :
  synthetic_volume 0.0000007 = Ok 1000000%Z /\
  py_round0 (1000000 * (1 + abs 0.0000007)) = Ok 1000001%Z.
Proof. split; vm_compute; reflexivity. Qed.
(* ================================================================== *)
(** * One tick, step by step *)
(* ================================================================== *)

(** ** Dictionaries *)

Lemma dict_get_set_same {V : Type} (d : dict V) k v :
  dict_get (dict_set d k v) k = Ok v.
Proof.
  unfold dict_get. induction d as [|[k0 v0] d IH]; cbn [dict_set dict_find].
  - rewrite String.eqb_refl. reflexivity.
  - destruct (String.eqb k k0) eqn:E; cbn [dict_find].
    + rewrite String.eqb_refl. reflexivity.
    + rewrite E. exact IH.
Qed.

Lemma dict_get_set_other {V : Type} (d : dict V) k v k' :
  k' <> k -> dict_get (dict_set d k v) k' = dict_get d k'.
Proof.
  intros Hne. unfold dict_get.
  induction d as [|[k0 v0] d IH]; cbn [dict_set dict_find].
  - destruct (String.eqb_spec k' k); [contradiction | reflexivity].
  - destruct (String.eqb_spec k k0) as [->|Hk]; cbn [dict_find].
    + destruct (String.eqb_spec k' k0); [contradiction | reflexivity].
    + destruct (String.eqb k' k0); [reflexivity | exact IH].
Qed.

Lemma dict_get_missing {V : Type} (d : dict V) k :
  ~ In k (dict_keys d) -> dict_get d k = Raise (KeyError k).
Proof.
  unfold dict_get, dict_keys. induction d as [|[k0 v0] d IH]; cbn; [reflexivity|].
  intros Hn. destruct (String.eqb_spec k k0) as [->|Hk]; [tauto|].
  apply IH. tauto.
Qed.

Lemma dict_get_Ok_in {V : Type} (d : dict V) k v :
  dict_get d k = Ok v -> In k (dict_keys d).
Proof.
  intros H. destruct (in_dec string_dec k (dict_keys d)) as [Hin|Hn]; [exact Hin|].
  rewrite (dict_get_missing d k Hn) in H. discriminate.
Qed.

Lemma dict_keys_set_fresh {V : Type} (d : dict V) k v :
  ~ In k (dict_keys d) -> dict_keys (dict_set d k v) = (dict_keys d ++ [k])%list.
Proof.
  unfold dict_keys. induction d as [|[k0 v0] d IH]; cbn; [reflexivity|].
  intros Hn. destruct (String.eqb_spec k k0) as [->|Hk]; [tauto|].
  cbn. f_equal. apply IH. tauto.
Qed.

(** ** The simulation loop *)

(** What one pass of the loop writes, read off the draws it takes. *)
Lemma simulate_asset_inv _last a t g t' g' :
  simulate_asset _last a t g = Ok (t', g') ->
  exists p vol v,
    dict_get _last a = Ok p /\ dict_get vols a = Ok vol /\
    synthetic_volume (draws g (S (cursor g))) = Ok v /\
    t' = {| new_prices :=
              dict_set (new_prices t) a (py_max 0.01 (p * (1 + draws g (cursor g))));
            volume := dict_set (volume t) a v;
            vol_spike :=
              dict_set (vol_spike t) a (draws g (S (S (cursor g))) <? 0.12) |} /\
    g' = {| draws := draws g; cursor := S (S (S (cursor g))) |}.
Proof.
  unfold simulate_asset.
  destruct (dict_get _last a) as [p|]; cbn [bind]; [|discriminate].
  destruct (dict_get vols a) as [vol|]; cbn [bind]; [|discriminate].
  unfold _tick_price, gauss, random, next_draw. cbn [draws cursor].
  destruct (synthetic_volume (draws g (S (cursor g)))) as [v|] eqn:Ev;
    cbn [bind]; [|discriminate].
  intros [= <- <-]. exists p, vol, v. repeat split.
Qed.

(** The loop over keys not yet written: it appends them in order, takes
    three draws for each, and writes for the [i]-th key the price, volume
    and spike flag drawn at [3i], [3i+1] and [3i+2]. *)
Lemma simulate_inv _last keys : forall t g t' g',
  NoDup (dict_keys (new_prices t) ++ keys) ->
  dict_keys (volume t) = dict_keys (new_prices t) ->
  dict_keys (vol_spike t) = dict_keys (new_prices t) ->
  simulate _last keys t g = Ok (t', g') ->
  dict_keys (new_prices t') = (dict_keys (new_prices t) ++ keys)%list /\
  dict_keys (volume t') = dict_keys (new_prices t') /\
  dict_keys (vol_spike t') = dict_keys (new_prices t') /\
  draws g' = draws g /\
  cursor g' = (cursor g + 3 * List.length keys)%nat /\
  (forall i a, nth_error keys i = Some a ->
     exists p v,
       dict_get _last a = Ok p /\
       synthetic_volume (draws g (cursor g + 3 * i + 1)%nat) = Ok v /\
       dict_get (new_prices t') a
         = Ok (py_max 0.01 (p * (1 + draws g (cursor g + 3 * i)%nat))) /\
       dict_get (volume t') a = Ok v /\
       dict_get (vol_spike t') a
         = Ok (draws g (cursor g + 3 * i + 2)%nat <? 0.12)) /\
  (forall k, In k (dict_keys (new_prices t)) ->
     dict_get (new_prices t') k = dict_get (new_prices t) k /\
     dict_get (volume t') k = dict_get (volume t) k /\
     dict_get (vol_spike t') k = dict_get (vol_spike t) k).
Proof.
  induction keys as [|a keys IH]; intros t g t' g' Hnd Hv Hs; cbn [simulate].
  - intros [= <- <-]. rewrite app_nil_r. repeat split; auto.
    intros [|i] a H; discriminate.
  - destruct (simulate_asset _last a t g) as [[t1 g1]|] eqn:E1; cbn [bind];
      [|discriminate].
    cbn [fst snd]. intros E2.
    destruct (simulate_asset_inv _ _ _ _ _ _ E1) as (p & vol & v & Hp & Hvol & Hsv & -> & ->).
    assert (Hfresh : ~ In a (dict_keys (new_prices t))).
    { intros Hin. apply NoDup_remove_2 in Hnd. apply Hnd.
      apply in_or_app. left. exact Hin. }
    cbn [new_prices volume vol_spike draws cursor] in *.
    assert (K1 : dict_keys (dict_set (new_prices t) a
                   (py_max 0.01 (p * (1 + draws g (cursor g)))))
                 = (dict_keys (new_prices t) ++ [a])%list)
      by (apply dict_keys_set_fresh; exact Hfresh).
    assert (K2 : dict_keys (dict_set (volume t) a v)
                 = (dict_keys (new_prices t) ++ [a])%list)
      by (rewrite dict_keys_set_fresh; rewrite Hv; auto).
    assert (K3 : dict_keys (dict_set (vol_spike t) a
                   (draws g (S (S (cursor g))) <? 0.12))
                 = (dict_keys (new_prices t) ++ [a])%list)
      by (rewrite dict_keys_set_fresh; rewrite Hs; auto).
    apply IH in E2; cbn [new_prices volume vol_spike draws cursor].
    + cbn [new_prices volume vol_spike draws cursor] in E2.
      destruct E2 as (H1 & H2 & H3 & H4 & H5 & H6 & H7).
      rewrite K1 in H1, H7. rewrite <- app_assoc in H1. cbn [app] in H1.
      split; [exact H1|]. split; [exact H2|]. split; [exact H3|].
      split; [exact H4|]. split; [cbn [List.length]; lia|].
      split.
      * intros [|i] b Hb; cbn [nth_error] in Hb.
        -- injection Hb as <-.
           destruct (H7 a) as (G1 & G2 & G3);
             [apply in_or_app; right; left; reflexivity|].
           exists p, v. split; [exact Hp|].
           replace (cursor g + 3 * 0 + 1)%nat with (S (cursor g)) by lia.
           replace (cursor g + 3 * 0 + 2)%nat with (S (S (cursor g))) by lia.
           replace (cursor g + 3 * 0)%nat with (cursor g) by lia.
           split; [exact Hsv|].
           rewrite G1, G2, G3, !dict_get_set_same. repeat split.
        -- destruct (H6 i b Hb) as (p' & v' & G0 & G1 & G2 & G3 & G4).
           exists p', v'.
           replace (cursor g + 3 * S i + 1)%nat
             with (S (S (S (cursor g))) + 3 * i + 1)%nat by lia.
           replace (cursor g + 3 * S i + 2)%nat
             with (S (S (S (cursor g))) + 3 * i + 2)%nat by lia.
           replace (cursor g + 3 * S i)%nat
             with (S (S (S (cursor g))) + 3 * i)%nat by lia.
           repeat split; assumption.
      * intros k Hk.
        destruct (H7 k) as (G1 & G2 & G3); [apply in_or_app; left; exact Hk|].
        assert (Hne : k <> a) by (intros ->; contradiction).
        rewrite G1, G2, G3, !dict_get_set_other by exact Hne. repeat split.
    + rewrite K1, <- app_assoc. exact Hnd.
    + rewrite K2, K1. reflexivity.
    + rewrite K3, K1. reflexivity.
Qed.

(** ** The steps after the loop *)

Lemma dict_get_nth {V : Type} (d : dict V) : forall i k v,
  NoDup (dict_keys d) -> nth_error d i = Some (k, v) -> dict_get d k = Ok v.
Proof.
  unfold dict_get, dict_keys.
  induction d as [|[k0 v0] d IH]; intros [|i] k v Hnd H; cbn in H; try discriminate.
  - injection H as -> ->. cbn. rewrite String.eqb_refl. reflexivity.
  - cbn [map fst] in Hnd. inversion Hnd as [|? ? Hn Hnd']; subst.
    cbn [dict_find]. destruct (String.eqb_spec k k0) as [->|Hk].
    + exfalso. apply Hn. apply nth_error_In in H.
      change k0 with (fst (k0, v)). apply in_map. exact H.
    + apply (IH i); assumption.
Qed.

(** The returns pair every key, in order, with its percentage change. *)
Lemma compute_rets_inv prices _last keys : forall rets,
  compute_rets prices _last keys = Ok rets ->
  Forall2 (fun a kv =>
             fst kv = a /\
             exists np p, dict_get prices a = Ok np /\ dict_get _last a = Ok p
                          /\ _pct np p = Ok (snd kv))
          keys rets.
Proof.
  induction keys as [|a keys IH]; intros rets; cbn [compute_rets].
  - intros [= <-]. constructor.
  - destruct (dict_get prices a) as [np|] eqn:E1; cbn [bind]; [|discriminate].
    destruct (dict_get _last a) as [p|] eqn:E2; cbn [bind]; [|discriminate].
    destruct (_pct np p) as [r|] eqn:E3; cbn [bind]; [|discriminate].
    destruct (compute_rets prices _last keys) as [rest|]; cbn [bind]; [|discriminate].
    intros [= <-]. constructor; [|apply IH; reflexivity].
    split; [reflexivity|]. exists np, p. auto.
Qed.

(** The asset rows pair every key, in order, with its rounded figures. *)
Lemma asset_rows_inv assets t rets keys : forall rows,
  asset_rows assets t rets keys = Ok rows ->
  Forall2 (fun a kv =>
             fst kv = a /\
             exists info np r v s,
               dict_get assets a = Ok info /\ dict_get (new_prices t) a = Ok np /\
               dict_get rets a = Ok r /\ dict_get (volume t) a = Ok v /\
               dict_get (vol_spike t) a = Ok s /\
               snd kv = {| row_name := name info; row_price := py_round np 2;
                           row_chg_pct := py_round r 3; row_volume := v;
                           row_vol_spike := s |})
          keys rows.
Proof.
  induction keys as [|a keys IH]; intros rows; cbn [asset_rows].
  - intros [= <-]. constructor.
  - destruct (dict_get assets a) as [info|] eqn:E1; cbn [bind]; [|discriminate].
    destruct (dict_get (new_prices t) a) as [np|] eqn:E2; cbn [bind]; [|discriminate].
    destruct (dict_get rets a) as [r|] eqn:E3; cbn [bind]; [|discriminate].
    destruct (dict_get (volume t) a) as [v|] eqn:E4; cbn [bind]; [|discriminate].
    destruct (dict_get (vol_spike t) a) as [s|] eqn:E5; cbn [bind]; [|discriminate].
    destruct (asset_rows assets t rets keys) as [rest|]; cbn [bind]; [|discriminate].
    intros [= <-]. constructor; [|apply IH; reflexivity].
    split; [reflexivity|]. exists info, np, r, v, s. repeat split; assumption.
Qed.

Lemma signal_for_inv rets spikes label a sg :
  signal_for rets spikes label a = Ok sg ->
  exists r s, dict_get rets a = Ok r /\ dict_get spikes a = Ok s
              /\ sg = _signal a r s label.
Proof.
  unfold signal_for.
  destruct (dict_get rets a) as [r|]; cbn [bind]; [|discriminate].
  destruct (dict_get spikes a) as [s|]; cbn [bind]; [|discriminate].
  intros [= <-]. eauto.
Qed.

(** Everything a returning [live] went through. *)
Lemma live_over_inv assets _last g snap _last' g' :
  live_over assets _last g = Ok (snap, _last', g') ->
  exists t rets det label conf s_spy s_gld s_btc s_tlt rows,
    simulate _last (dict_keys assets) no_ticks g = Ok (t, g') /\
    compute_rets (new_prices t) _last (dict_keys assets) = Ok rets /\
    detector_panel rets = Ok det /\
    regime_step rets = Ok (label, conf) /\
    signal_for rets (vol_spike t) label "SPY" = Ok s_spy /\
    signal_for rets (vol_spike t) label "GLD" = Ok s_gld /\
    signal_for rets (vol_spike t) label "BTC" = Ok s_btc /\
    signal_for rets (vol_spike t) label "TLT" = Ok s_tlt /\
    asset_rows assets t rets (dict_keys assets) = Ok rows /\
    _last' = new_prices t /\
    snap = {| snap_assets := rows; snap_detector := det;
              snap_regime := (label, py_round (conf * 100) 1);
              snap_signals := [s_spy; s_gld; s_btc; s_tlt] |}.
Proof.
  unfold live_over.
  destruct (simulate _last (dict_keys assets) no_ticks g) as [[t g1]|] eqn:E0;
    cbn [bind]; [|discriminate].
  unfold live_after_ticks.
  destruct (compute_rets _ _ _) as [rets|] eqn:E1; cbn [bind]; [|discriminate].
  destruct (detector_panel rets) as [det|] eqn:E2; cbn [bind]; [|discriminate].
  destruct (regime_step rets) as [[label conf]|] eqn:E3; cbn [bind];
    [|discriminate].
  destruct (signal_for rets (vol_spike t) label "SPY") as [s1|] eqn:E4;
    cbn [bind]; [|discriminate].
  destruct (signal_for rets (vol_spike t) label "GLD") as [s2|] eqn:E5;
    cbn [bind]; [|discriminate].
  destruct (signal_for rets (vol_spike t) label "BTC") as [s3|] eqn:E6;
    cbn [bind]; [|discriminate].
  destruct (signal_for rets (vol_spike t) label "TLT") as [s4|] eqn:E7;
    cbn [bind]; [|discriminate].
  destruct (asset_rows assets t rets (dict_keys assets)) as [rows|] eqn:E8;
    cbn [bind]; [|discriminate].
  intros [= <- <- <-].
  exists t, rets, det, label, conf, s1, s2, s3, s4, rows.
  repeat split; assumption.
Qed.

Lemma simulate_from_empty _last keys g t g' :
  NoDup keys ->
  simulate _last keys no_ticks g = Ok (t, g') ->
  dict_keys (new_prices t) = keys /\
  dict_keys (volume t) = keys /\
  dict_keys (vol_spike t) = keys /\
  draws g' = draws g /\
  cursor g' = (cursor g + 3 * List.length keys)%nat /\
  (forall i a, nth_error keys i = Some a ->
     exists p v,
       dict_get _last a = Ok p /\
       synthetic_volume (draws g (cursor g + 3 * i + 1)%nat) = Ok v /\
       dict_get (new_prices t) a
         = Ok (py_max 0.01 (p * (1 + draws g (cursor g + 3 * i)%nat))) /\
       dict_get (volume t) a = Ok v /\
       dict_get (vol_spike t) a
         = Ok (draws g (cursor g + 3 * i + 2)%nat <? 0.12)).
Proof.
  intros Hnd E.
  destruct (simulate_inv _last keys no_ticks g t g' Hnd eq_refl eq_refl E)
    as (H1 & H2 & H3 & H4 & H5 & H6 & _).
  cbn in H1. rewrite H1 in H2, H3. repeat split; assumption.
Qed.

(** X1: a tick that returns replaces the whole state by the new prices: the
    new state lists exactly the registry's assets, in the registry's order,
    whatever else the old state held; the [i]-th asset's new price is
    [max(0.01, old * (1 + shock))] for the draw numbered [3i]; and the tick
    takes three draws per asset. *)
Theorem tick_commits_new_prices (assets : dict asset_info) (_last : dict float)
    (g : rng) (snap : snapshot) (_last' : dict float) (g' : rng) :
  NoDup (dict_keys assets) ->
  live_over assets _last g = Ok (snap, _last', g') ->
  dict_keys _last' = dict_keys assets /\
  draws g' = draws g /\
  cursor g' = (cursor g + 3 * List.length assets)%nat /\
  (forall i a, nth_error (dict_keys assets) i = Some a ->
     exists p,
       dict_get _last a = Ok p /\
       dict_get _last' a
         = Ok (py_max 0.01 (p * (1 + draws g (cursor g + 3 * i)%nat)))).
Proof.
  intros Hnd E.
  destruct (live_over_inv _ _ _ _ _ _ E)
    as (t & rets & det & label & conf & s1 & s2 & s3 & s4 & rows
        & Hsim & _ & _ & _ & _ & _ & _ & _ & _ & -> & _).
  destruct (simulate_from_empty _ _ _ _ _ Hnd Hsim) as (H1 & _ & _ & H4 & H5 & H6).
  split; [exact H1|]. split; [exact H4|].
  split; [rewrite H5; unfold dict_keys; rewrite length_map; reflexivity|].
  intros i a Hi. destruct (H6 i a Hi) as (p & v & G0 & _ & G2 & _).
  exists p. split; assumption.
Qed.

Lemma sample_tick_returns :
  live_over ASSETS initial_last sample_rng
  = Ok (sample_snapshot, sample_last, sample_rng_after).
Proof. vm_compute. reflexivity. Qed.

Lemma ASSETS_keys_NoDup : NoDup (dict_keys ASSETS).
Proof. repeat constructor; cbn; intuition discriminate. Qed.

Lemma tick_commits_new_prices_witness :
  dict_keys sample_last = dict_keys ASSETS /\
  draws sample_rng_after = draws sample_rng /\
  cursor sample_rng_after = (cursor sample_rng + 3 * List.length ASSETS)%nat /\
  (forall i a, nth_error (dict_keys ASSETS) i = Some a ->
     exists p,
       dict_get initial_last a = Ok p /\
       dict_get sample_last a
         = Ok (py_max 0.01
                 (p * (1 + draws sample_rng (cursor sample_rng + 3 * i)%nat)))).
Proof.
  apply (tick_commits_new_prices ASSETS initial_last sample_rng sample_snapshot
           sample_last sample_rng_after).
  - exact ASSETS_keys_NoDup.
  - exact sample_tick_returns.
Defined.
(* ================================================================== *)
(** * The response of a tick *)
(* ================================================================== *)

Lemma Forall2_nth_error_l {A B : Type} (R : A -> B -> Prop) l l' :
  Forall2 R l l' -> forall i a, nth_error l i = Some a ->
  exists b, nth_error l' i = Some b /\ R a b.
Proof.
  induction 1 as [|x y l l' Hxy H IH]; intros [|i] a Hi; cbn in Hi;
    try discriminate.
  - injection Hi as <-. exists y. split; [reflexivity | exact Hxy].
  - apply IH. exact Hi.
Qed.

Lemma Forall2_keys {V : Type} (R : string -> string * V -> Prop) keys (d : dict V) :
  Forall2 (fun a kv => fst kv = a /\ R a kv) keys d -> dict_keys d = keys.
Proof.
  unfold dict_keys. induction 1 as [|x y l l' [Hxy _] H IH]; cbn; congruence.
Qed.

(** The row, return, new price and draws of the [i]-th asset of a tick. *)
Lemma tick_of_asset assets _last g snap _last' g' :
  NoDup (dict_keys assets) ->
  live_over assets _last g = Ok (snap, _last', g') ->
  forall i a, nth_error (dict_keys assets) i = Some a ->
  exists info p np r v row rets t,
    dict_get assets a = Ok info /\
    dict_get _last a = Ok p /\
    dict_get _last' a = Ok np /\
    np = py_max 0.01 (p * (1 + draws g (cursor g + 3 * i)%nat)) /\
    _pct np p = Ok r /\
    synthetic_volume (draws g (cursor g + 3 * i + 1)%nat) = Ok v /\
    nth_error (snap_assets snap) i = Some (a, row) /\
    dict_get (snap_assets snap) a = Ok row /\
    row = {| row_name := name info; row_price := py_round np 2;
             row_chg_pct := py_round r 3; row_volume := v;
             row_vol_spike := draws g (cursor g + 3 * i + 2)%nat <? 0.12 |} /\
    compute_rets _last' _last (dict_keys assets) = Ok rets /\
    dict_get rets a = Ok r /\
    simulate _last (dict_keys assets) no_ticks g = Ok (t, g') /\
    dict_get (vol_spike t) a = Ok (row_vol_spike row).
Proof.
  intros Hnd E i a Hi.
  destruct (live_over_inv _ _ _ _ _ _ E)
    as (t & rets & det & label & conf & s1 & s2 & s3 & s4 & rows
        & Hsim & Hrets & _ & _ & _ & _ & _ & _ & Hrows & -> & ->).
  destruct (simulate_from_empty _ _ _ _ _ Hnd Hsim) as (_ & _ & _ & _ & _ & H6).
  destruct (H6 i a Hi) as (p & v & G0 & G1 & G2 & G3 & G4).
  pose proof (asset_rows_inv _ _ _ _ _ Hrows) as HR.
  destruct (Forall2_nth_error_l _ _ _ HR i a Hi)
    as ([a' row] & Hrow & Ha & info & np & r & v' & s & R1 & R2 & R3 & R4 & R5 & R6).
  cbn [fst snd] in *. subst a'.
  rewrite G2 in R2. injection R2 as <-.
  rewrite G3 in R4. injection R4 as <-.
  rewrite G4 in R5. injection R5 as <-.
  pose proof (compute_rets_inv _ _ _ _ Hrets) as HC.
  destruct (Forall2_nth_error_l _ _ _ HC i a Hi)
    as ([a' r'] & Hr & Ha & np' & p' & C1 & C2 & C3).
  cbn [fst snd] in *. subst a'.
  rewrite G2 in C1. injection C1 as <-.
  rewrite G0 in C2. injection C2 as <-.
  assert (Hkr : dict_keys rets = dict_keys assets)
    by (eapply compute_rets_keys; exact Hrets).
  assert (Hgr : dict_get rets a = Ok r').
  { apply (dict_get_nth rets i); [rewrite Hkr; exact Hnd | exact Hr]. }
  rewrite Hgr in R3. injection R3 as <-.
  assert (Hkrows : dict_keys rows = dict_keys assets)
    by (eapply Forall2_keys; exact HR).
  exists info, p, (py_max 0.01 (p * (1 + draws g (cursor g + 3 * i)%nat))),
    r', v, row, rets, t.
  cbn [snap_assets]. repeat split; try assumption.
  - apply (dict_get_nth rows i); [rewrite Hkrows; exact Hnd | exact Hrow].
  - rewrite R6. cbn [row_vol_spike]. exact G4.
Qed.

(** X2: the asset rows of the response list the registry's assets in
    order, and each row reports the tick of its asset: the display name, the
    committed new price rounded to two decimals, the percentage change from
    the old price rounded to three, the truncated volume and the spike flag
    [draw < 0.12], from the draws numbered [3i], [3i+1] and [3i+2]. *)
Theorem snapshot_rows_report_the_tick (assets : dict asset_info)
    (_last : dict float) (g : rng) (snap : snapshot) (_last' : dict float)
    (g' : rng) :
  NoDup (dict_keys assets) ->
  live_over assets _last g = Ok (snap, _last', g') ->
  dict_keys (snap_assets snap) = dict_keys assets /\
  (forall i a, nth_error (dict_keys assets) i = Some a ->
     exists info p np r v,
       dict_get assets a = Ok info /\
       dict_get _last a = Ok p /\
       dict_get _last' a = Ok np /\
       _pct np p = Ok r /\
       synthetic_volume (draws g (cursor g + 3 * i + 1)%nat) = Ok v /\
       nth_error (snap_assets snap) i
         = Some (a, {| row_name := name info;
                       row_price := py_round np 2;
                       row_chg_pct := py_round r 3;
                       row_volume := v;
                       row_vol_spike :=
                         draws g (cursor g + 3 * i + 2)%nat <? 0.12 |})).
Proof.
  intros Hnd E. split.
  - destruct (live_over_inv _ _ _ _ _ _ E)
      as (t & rets & det & label & conf & s1 & s2 & s3 & s4 & rows
          & _ & _ & _ & _ & _ & _ & _ & _ & Hrows & _ & ->).
    cbn [snap_assets]. eapply Forall2_keys. apply asset_rows_inv. exact Hrows.
  - intros i a Hi.
    destruct (tick_of_asset _ _ _ _ _ _ Hnd E i a Hi)
      as (info & p & np & r & v & row & rets & t
          & H1 & H2 & H3 & _ & H5 & H6 & H7 & _ & H9 & _).
    exists info, p, np, r, v. rewrite <- H9. repeat split; assumption.
Qed.

Lemma snapshot_rows_report_the_tick_witness :
  dict_keys (snap_assets sample_snapshot) = dict_keys ASSETS /\
  (forall i a, nth_error (dict_keys ASSETS) i = Some a ->
     exists info p np r v,
       dict_get ASSETS a = Ok info /\
       dict_get initial_last a = Ok p /\
       dict_get sample_last a = Ok np /\
       _pct np p = Ok r /\
       synthetic_volume (draws sample_rng (cursor sample_rng + 3 * i + 1)%nat)
         = Ok v /\
       nth_error (snap_assets sample_snapshot) i
         = Some (a, {| row_name := name info;
                       row_price := py_round np 2;
                       row_chg_pct := py_round r 3;
                       row_volume := v;
                       row_vol_spike :=
                         draws sample_rng (cursor sample_rng + 3 * i + 2)%nat
                         <? 0.12 |})).
Proof.
  apply (snapshot_rows_report_the_tick ASSETS initial_last sample_rng
           sample_snapshot sample_last sample_rng_after).
  - exact ASSETS_keys_NoDup.
  - exact sample_tick_returns.
Defined.

(** The same, for an asset named rather than numbered. *)
Lemma tick_of_named_asset assets _last g snap _last' g' t rets a :
  NoDup (dict_keys assets) ->
  live_over assets _last g = Ok (snap, _last', g') ->
  simulate _last (dict_keys assets) no_ticks g = Ok (t, g') ->
  compute_rets _last' _last (dict_keys assets) = Ok rets ->
  In a (dict_keys assets) ->
  exists p np r row,
    dict_get _last a = Ok p /\ dict_get _last' a = Ok np /\ _pct np p = Ok r /\
    dict_get (snap_assets snap) a = Ok row /\
    dict_get rets a = Ok r /\
    dict_get (vol_spike t) a = Ok (row_vol_spike row) /\
    row_chg_pct row = py_round r 3.
Proof.
  intros Hnd E Hsim Hrets Hin.
  destruct (In_nth_error _ _ Hin) as [i Hi].
  destruct (tick_of_asset _ _ _ _ _ _ Hnd E i a Hi)
    as (info & p & np & r & v & row & rets' & t'
        & H1 & H2 & H3 & H4 & H5 & H6 & H7 & H8 & H9 & H10 & H11 & H12 & H13).
  rewrite Hsim in H12. injection H12 as <-.
  rewrite Hrets in H10. injection H10 as <-.
  exists p, np, r, row. repeat split; try assumption.
  rewrite H9. reflexivity.
Qed.

(** X3: the response carries four signals, for SPY, GLD, BTC and TLT in
    that order, and each is [_signal] applied to what the response itself
    reports: the asset's unrounded percentage change between the old and
    the committed price, the spike flag of its row, and the regime label of
    the response. *)
Theorem signals_follow_the_response (assets : dict asset_info)
    (_last : dict float) (g : rng) (snap : snapshot) (_last' : dict float)
    (g' : rng) :
  NoDup (dict_keys assets) ->
  live_over assets _last g = Ok (snap, _last', g') ->
  map sig_asset (snap_signals snap) = ["SPY"; "GLD"; "BTC"; "TLT"] /\
  (forall s, In s (snap_signals snap) ->
     exists p np r row,
       dict_get _last (sig_asset s) = Ok p /\
       dict_get _last' (sig_asset s) = Ok np /\
       _pct np p = Ok r /\
       dict_get (snap_assets snap) (sig_asset s) = Ok row /\
       s = _signal (sig_asset s) r (row_vol_spike row) (fst (snap_regime snap))).
Proof.
  intros Hnd E.
  destruct (live_over_inv _ _ _ _ _ _ E)
    as (t & rets & det & label & conf & s1 & s2 & s3 & s4 & rows
        & Hsim & Hrets & _ & _ & S1 & S2 & S3 & S4 & _ & El & Es).
  assert (Hkr : dict_keys rets = dict_keys assets)
    by (eapply compute_rets_keys; exact Hrets).
  rewrite <- El in Hrets.
  assert (Hone : forall a sg, signal_for rets (vol_spike t) label a = Ok sg ->
            sig_asset sg = a /\
            exists p np r row,
              dict_get _last a = Ok p /\ dict_get _last' a = Ok np /\
              _pct np p = Ok r /\ dict_get (snap_assets snap) a = Ok row /\
              sg = _signal a r (row_vol_spike row) label).
  { intros a sg Hs.
    destruct (signal_for_inv _ _ _ _ _ Hs) as (r & sp & Hr & Hsp & ->).
    split; [reflexivity|].
    assert (Hin : In a (dict_keys assets))
      by (rewrite <- Hkr; eapply dict_get_Ok_in; exact Hr).
    destruct (tick_of_named_asset _ _ _ _ _ _ _ _ a Hnd E Hsim Hrets Hin)
      as (p & np & r' & row & H1 & H2 & H3 & H4 & H5 & H6 & _).
    rewrite Hr in H5. injection H5 as <-.
    rewrite Hsp in H6. injection H6 as ->.
    exists p, np, r, row. repeat split; assumption. }
  destruct (Hone _ _ S1) as [A1 B1]. destruct (Hone _ _ S2) as [A2 B2].
  destruct (Hone _ _ S3) as [A3 B3]. destruct (Hone _ _ S4) as [A4 B4].
  rewrite Es. cbn [snap_signals snap_regime snap_assets fst map].
  split; [congruence|].
  rewrite Es in B1, B2, B3, B4. cbn [snap_assets] in B1, B2, B3, B4.
  intros s [<-|[<-|[<-|[<-|[]]]]].
  - rewrite A1. exact B1.
  - rewrite A2. exact B2.
  - rewrite A3. exact B3.
  - rewrite A4. exact B4.
Qed.

Lemma signals_follow_the_response_witness :
  map sig_asset (snap_signals sample_snapshot) = ["SPY"; "GLD"; "BTC"; "TLT"] /\
  (forall s, In s (snap_signals sample_snapshot) ->
     exists p np r row,
       dict_get initial_last (sig_asset s) = Ok p /\
       dict_get sample_last (sig_asset s) = Ok np /\
       _pct np p = Ok r /\
       dict_get (snap_assets sample_snapshot) (sig_asset s) = Ok row /\
       s = _signal (sig_asset s) r (row_vol_spike row)
             (fst (snap_regime sample_snapshot))).
Proof.
  apply (signals_follow_the_response ASSETS initial_last sample_rng
           sample_snapshot sample_last sample_rng_after).
  - exact ASSETS_keys_NoDup.
  - exact sample_tick_returns.
Defined.

(** ** The detector panel *)

Lemma detector_panel_inv (rets : dict float) (det : detector) :
  detector_panel rets = Ok det ->
  exists first rest,
    rs_rank rets = first :: rest /\
    leader det = fst first /\
    laggard det = fst (List.last (rs_rank rets) first) /\
    relative_strength_rank det
      = map (fun kv => (fst kv, py_round (snd kv) 3)) (rs_rank rets).
Proof.
  unfold detector_panel, last_item.
  destruct (rs_rank rets) as [|first rest] eqn:E; cbn [first_item bind];
    [discriminate|].
  rewrite (first_item_rev (first :: rest) first rest eq_refl). cbn [bind].
  intros [= <-]. exists first, rest. repeat split.
Qed.

Lemma rs_rank_perm (rets : dict float) : Permutation rets (rs_rank rets).
Proof. apply sorted_reverse_perm. Qed.

Lemma last_In {A : Type} (l : list A) (d : A) : l <> [] -> In (List.last l d) l.
Proof.
  intros Hne. destruct (exists_last Hne) as (l' & a & ->).
  rewrite last_last. apply in_or_app. right. left. reflexivity.
Qed.

(** X4: the ranking of the response is a reordering of the registry's
    assets; each entry carries the same rounded change as the row of its
    asset; the leader is the asset of its first entry, the laggard the asset
    of its last, and both are registry assets. *)
Theorem ranking_follows_the_rows (assets : dict asset_info)
    (_last : dict float) (g : rng) (snap : snapshot) (_last' : dict float)
    (g' : rng) :
  NoDup (dict_keys assets) ->
  live_over assets _last g = Ok (snap, _last', g') ->
  let det := snap_detector snap in
  let rank := relative_strength_rank det in
  Permutation (map fst rank) (dict_keys assets) /\
  hd_error (map fst rank) = Some (leader det) /\
  hd_error (rev (map fst rank)) = Some (laggard det) /\
  In (leader det) (dict_keys assets) /\
  In (laggard det) (dict_keys assets) /\
  (forall a c, In (a, c) rank ->
     exists row, dict_get (snap_assets snap) a = Ok row /\ c = row_chg_pct row).
Proof.
  intros Hnd E det rank.
  destruct (live_over_inv _ _ _ _ _ _ E)
    as (t & rets & det0 & label & conf & s1 & s2 & s3 & s4 & rows
        & Hsim & Hrets & Hdet & _ & _ & _ & _ & _ & _ & El & Es).
  assert (Hd : det = det0) by (unfold det; rewrite Es; reflexivity).
  assert (Hkr : dict_keys rets = dict_keys assets)
    by (eapply compute_rets_keys; exact Hrets).
  rewrite <- El in Hrets.
  destruct (detector_panel_inv _ _ Hdet) as (first & rest & Hr & Hl & Hg & Hrk).
  rewrite <- Hd in Hl, Hg, Hrk. fold rank in Hrk.
  assert (Hmap : map fst rank = map fst (rs_rank rets)).
  { rewrite Hrk, map_map. apply map_ext. reflexivity. }
  assert (Hperm : Permutation (map fst (rs_rank rets)) (dict_keys assets)).
  { rewrite <- Hkr. unfold dict_keys. apply Permutation_map.
    apply Permutation_sym, rs_rank_perm. }
  assert (Hne : rs_rank rets <> []) by (rewrite Hr; discriminate).
  assert (Hlast : In (List.last (rs_rank rets) first) (rs_rank rets))
    by (apply last_In; exact Hne).
  rewrite Hmap. split; [exact Hperm|]. split; [|split; [|split; [|split]]].
  - rewrite Hr, Hl. reflexivity.
  - rewrite <- map_rev, Hg.
    destruct (exists_last Hne) as (l' & x & Hx).
    rewrite Hx, rev_unit, last_last. reflexivity.
  - rewrite Hl. apply (Permutation_in _ Hperm).
    rewrite Hr. left. reflexivity.
  - rewrite Hg. apply (Permutation_in _ Hperm). apply in_map. exact Hlast.
  - intros a c Hin. rewrite Hrk in Hin. apply in_map_iff in Hin.
    destruct Hin as ([a' r] & Heq & Hin). cbn [fst snd] in Heq.
    injection Heq as -> <-.
    apply (Permutation_in _ (Permutation_sym (rs_rank_perm rets))) in Hin.
    assert (Hina : In a (dict_keys assets)).
    { rewrite <- Hkr. change a with (fst (a, r)). apply in_map. exact Hin. }
    destruct (tick_of_named_asset _ _ _ _ _ _ _ _ a Hnd E Hsim Hrets Hina)
      as (p & np & r' & row & H1 & H2 & H3 & H4 & H5 & H6 & H7).
    exists row. split; [exact H4|]. rewrite H7. f_equal.
    destruct (In_nth_error _ _ Hin) as [i Hi].
    assert (Hgr : dict_get rets a = Ok r)
      by (apply (dict_get_nth rets i); [rewrite Hkr; exact Hnd | exact Hi]).
    rewrite Hgr in H5. injection H5 as ->. reflexivity.
Qed.

Lemma ranking_follows_the_rows_witness :
  let det := snap_detector sample_snapshot in
  let rank := relative_strength_rank det in
  Permutation (map fst rank) (dict_keys ASSETS) /\
  hd_error (map fst rank) = Some (leader det) /\
  hd_error (rev (map fst rank)) = Some (laggard det) /\
  In (leader det) (dict_keys ASSETS) /\
  In (laggard det) (dict_keys ASSETS) /\
  (forall a c, In (a, c) rank ->
     exists row,
       dict_get (snap_assets sample_snapshot) a = Ok row /\ c = row_chg_pct row).
Proof.
  apply (ranking_follows_the_rows ASSETS initial_last sample_rng
           sample_snapshot sample_last sample_rng_after).
  - exact ASSETS_keys_NoDup.
  - exact sample_tick_returns.
Defined.

Lemma leb_refl_not_nan (x : float) : is_nan x = false -> (x <=? x) = true.
Proof.
  intros H. apply nlt_iff_leb; try exact H.
  destruct (x <? x) eqn:E; [|reflexivity].
  rewrite (ltb_asym _ _ E) in E. discriminate.
Qed.

(** The rank, its elements numbers, in descending order. *)
Lemma rs_rank_descending (rets : dict float) :
  no_nan rets = true ->
  Forall (fun kv => is_nan (snd kv) = false) (rs_rank rets) /\
  StronglySorted (fun x y => (snd y <=? snd x) = true) (rs_rank rets).
Proof.
  intros Hn0.
  set (P := fun kv : string * float => is_nan (snd kv) = false).
  assert (Hn : Forall P rets).
  { apply Forall_forall. intros kv Hin. unfold no_nan in Hn0.
    rewrite forallb_forall in Hn0. apply negb_true_iff, Hn0, Hin. }
  assert (Hrank : Forall P (rs_rank rets))
    by (rewrite <- (rs_rank_perm rets); exact Hn).
  split; [exact Hrank|].
  apply (StronglySorted_weaken (desc by_return) _ P); [|exact Hrank|].
  - intros x y Px Py Hxy. apply nlt_iff_leb; assumption.
  - apply (sorted_reverse_desc by_return P); [| |exact Hn].
    + intros x y _ _. apply by_return_asym.
    + intros x y z. apply by_return_nlt_trans.
Qed.

(** X5: when no return is NaN, the leader has the highest return of the
    mapping and the laggard the lowest. *)
Theorem leader_highest_laggard_lowest (rets : dict float) (det : detector) :
  no_nan rets = true ->
  detector_panel rets = Ok det ->
  exists r_lead r_lag,
    In (leader det, r_lead) rets /\ In (laggard det, r_lag) rets /\
    forall a r, In (a, r) rets ->
      (r <=? r_lead) = true /\ (r_lag <=? r) = true.
Proof.
  intros Hn Hdet.
  destruct (rs_rank_descending rets Hn) as [Hnan Hs].
  destruct (detector_panel_inv _ _ Hdet) as (first & rest & Hr & Hl & Hg & _).
  pose proof (rs_rank_perm rets) as Hperm.
  assert (Hne : rs_rank rets <> []) by (rewrite Hr; discriminate).
  destruct (exists_last Hne) as (front & lst & Hx).
  assert (Hlast : List.last (rs_rank rets) first = lst)
    by (rewrite Hx; apply last_last).
  exists (snd first), (snd lst). split; [|split].
  - rewrite Hl. rewrite <- surjective_pairing.
    apply (Permutation_in _ (Permutation_sym Hperm)). rewrite Hr. left. reflexivity.
  - rewrite Hg, Hlast. rewrite <- surjective_pairing.
    apply (Permutation_in _ (Permutation_sym Hperm)). rewrite Hx.
    apply in_or_app. right. left. reflexivity.
  - intros a r Hin. apply (Permutation_in _ Hperm) in Hin.
    rewrite Forall_forall in Hnan. split.
    + rewrite Hr in Hs, Hin. apply StronglySorted_inv in Hs as [_ Hall].
      destruct Hin as [Heq|Hin].
      * rewrite Heq. cbn [snd]. apply leb_refl_not_nan.
        apply (Hnan (a, r)). rewrite Hr, Heq. left. reflexivity.
      * rewrite Forall_forall in Hall. apply (Hall (a, r) Hin).
    + apply (StronglySorted_rev (fun x y => (snd y <=? snd x) = true)) in Hs.
      rewrite Hx, rev_unit in Hs. apply StronglySorted_inv in Hs as [_ Hall].
      rewrite Hx in Hin. apply in_app_or in Hin. destruct Hin as [Hin|[Heq|[]]].
      * rewrite Forall_forall in Hall. apply (Hall (a, r)).
        apply -> in_rev. exact Hin.
      * rewrite Heq. cbn [snd]. apply leb_refl_not_nan.
        apply (Hnan (a, r)). rewrite Hx, Heq.
        apply in_or_app. right. left. reflexivity.
Qed.

Lemma leader_highest_laggard_lowest_witness :
  exists r_lead r_lag,
    In ("BTC", r_lead) e2e_rets /\ In ("TLT", r_lag) e2e_rets /\
    forall a r, In (a, r) e2e_rets ->
      (r <=? r_lead) = true /\ (r_lag <=? r) = true.
Proof.
  apply (leader_highest_laggard_lowest e2e_rets
           {| leader := "BTC"; laggard := "TLT";
              relative_strength_rank :=
                [("BTC", 2); ("SPY", 1); ("GLD", -1.053); ("TLT", -1.053)] |}).
  - reflexivity.
  - vm_compute. reflexivity.
Defined.

(** ** What makes a tick raise *)

Lemma dict_get_existsb {V : Type} (d : dict V) (k : string) :
  existsb (String.eqb k) (dict_keys d) = true -> exists v, dict_get d k = Ok v.
Proof.
  intros H. apply dict_get_in. apply existsb_exists in H as (x & Hin & Hx).
  apply String.eqb_eq in Hx. subst x. exact Hin.
Qed.

Lemma dict_get_not_existsb {V : Type} (d : dict V) (k : string) :
  existsb (String.eqb k) (dict_keys d) = false -> dict_get d k = Raise (KeyError k).
Proof.
  intros H. apply dict_get_missing. intros Hin.
  assert (existsb (String.eqb k) (dict_keys d) = true).
  { apply existsb_exists. exists k. split; [exact Hin | apply String.eqb_refl]. }
  congruence.
Qed.

(** X6: the ranking step raises exactly on an empty mapping, and then
    [IndexError]; the regime step raises exactly when one of SPY, BTC, TLT,
    GLD is not listed, and then [KeyError] for the first one missing in
    that order. *)
Theorem steps_raise_exactly_when (rets : dict float) :
  (raises (detector_panel rets) = true <-> rets = []) /\
  (rets = [] -> detector_panel rets = Raise IndexError) /\
  match first_missing rets with
  | Some k => regime_step rets = Raise (KeyError k)
  | None => raises (regime_step rets) = false
  end.
Proof.
  split; [|split].
  - split.
    + intros Hr. destruct rets as [|kv rets']; [reflexivity|].
      rewrite detector_panel_nonempty in Hr by discriminate. discriminate.
    + intros ->. reflexivity.
  - intros ->. reflexivity.
  - unfold first_missing, regime_step. cbn [find].
    destruct (existsb (String.eqb "SPY") (dict_keys rets)) eqn:E1; cbn [negb].
    2:{ rewrite (dict_get_not_existsb _ _ E1). reflexivity. }
    destruct (dict_get_existsb _ _ E1) as [v1 ->]. cbn [bind].
    destruct (existsb (String.eqb "BTC") (dict_keys rets)) eqn:E2; cbn [negb].
    2:{ rewrite (dict_get_not_existsb _ _ E2). reflexivity. }
    destruct (dict_get_existsb _ _ E2) as [v2 ->]. cbn [bind].
    destruct (existsb (String.eqb "TLT") (dict_keys rets)) eqn:E3; cbn [negb].
    2:{ rewrite (dict_get_not_existsb _ _ E3). reflexivity. }
    destruct (dict_get_existsb _ _ E3) as [v3 ->]. cbn [bind].
    destruct (existsb (String.eqb "GLD") (dict_keys rets)) eqn:E4; cbn [negb].
    2:{ rewrite (dict_get_not_existsb _ _ E4). reflexivity. }
    destruct (dict_get_existsb _ _ E4) as [v4 ->]. reflexivity.
Qed.

Lemma simulate_needs _last keys : forall t g r,
  simulate _last keys t g = Ok r ->
  forall a, In a keys -> In a (dict_keys _last) /\ In a (dict_keys vols).
Proof.
  induction keys as [|k keys IH]; intros t g r E a Hin; [destruct Hin|].
  cbn [simulate] in E.
  destruct (simulate_asset _last k t g) as [[t1 g1]|] eqn:E1; cbn [bind] in E;
    [|discriminate].
  destruct Hin as [<-|Hin].
  - destruct (simulate_asset_inv _ _ _ _ _ _ E1) as (p & vol & v & Hp & Hv & _).
    split; eapply dict_get_Ok_in; eassumption.
  - eapply IH; eassumption.
Qed.

(** X7: a tick returns only on a registry that holds exactly the assets
    SPY, GLD, BTC and TLT, each with a price in the state: any other
    registry asset has no volatility entry, and the regime step needs all
    four. *)
Theorem tick_needs_the_four_assets (assets : dict asset_info)
    (_last : dict float) (g : rng) (snap : snapshot) (_last' : dict float)
    (g' : rng) :
  live_over assets _last g = Ok (snap, _last', g') ->
  (forall a, In a (dict_keys assets) <-> In a ["SPY"; "GLD"; "BTC"; "TLT"]) /\
  incl (dict_keys assets) (dict_keys _last).
Proof.
  intros E.
  destruct (live_over_inv _ _ _ _ _ _ E)
    as (t & rets & det & label & conf & s1 & s2 & s3 & s4 & rows
        & Hsim & Hrets & _ & Hreg & _).
  pose proof (simulate_needs _ _ _ _ _ Hsim) as Hneed.
  assert (Hkr : dict_keys rets = dict_keys assets)
    by (eapply compute_rets_keys; exact Hrets).
  split.
  - intros a. split.
    + intros Hin. exact (proj2 (Hneed a Hin)).
    + unfold regime_step in Hreg.
      destruct (dict_get rets "SPY") eqn:G1; cbn [bind] in Hreg; [|discriminate].
      destruct (dict_get rets "BTC") eqn:G2; cbn [bind] in Hreg; [|discriminate].
      destruct (dict_get rets "TLT") eqn:G3; cbn [bind] in Hreg; [|discriminate].
      destruct (dict_get rets "GLD") eqn:G4; cbn [bind] in Hreg; [|discriminate].
      apply dict_get_Ok_in in G1, G2, G3, G4. rewrite Hkr in G1, G2, G3, G4.
      intros [<-|[<-|[<-|[<-|[]]]]]; assumption.
  - intros a Hin. exact (proj1 (Hneed a Hin)).
Qed.

Lemma tick_needs_the_four_assets_witness :
  (forall a, In a (dict_keys ASSETS) <-> In a ["SPY"; "GLD"; "BTC"; "TLT"]) /\
  incl (dict_keys ASSETS) (dict_keys initial_last).
Proof.
  apply (tick_needs_the_four_assets ASSETS initial_last sample_rng
           sample_snapshot sample_last sample_rng_after).
  exact sample_tick_returns.
Defined.

(* ================================================================== *)
(** * Signs: rises, falls and the floor *)
(* ================================================================== *)

Local Open Scope Z_scope.

Lemma shl_align_fst m e e' :
  e' <= e -> Zpos (fst (shl_align m e e')) = Zpos m * 2 ^ (e - e').
Proof.
  intros He. unfold shl_align.
  destruct (e' - e) as [|d|d] eqn:Ed; cbn [fst].
  - replace (e - e') with 0 by lia. lia.
  - lia.
  - replace (e - e') with (Zpos d) by lia.
    change (Pos.iter xO m d) with (shift_pos d m).
    rewrite shift_pos_correct. change (Z.pow_pos 2 d) with (2 ^ Zpos d). lia.
Qed.

(** A valid mantissa has at most 53 bits. *)
Lemma bounded_mantissa m e : bounded prec emax m e = true -> Zpos m < 2 ^ 53.
Proof.
  unfold bounded, canonical_mantissa. intros H.
  apply andb_true_iff in H as [H _]. apply Z.eqb_eq in H.
  pose proof (digits2_pos_bounds m) as [_ B].
  assert (Hd : Zpos (digits2_pos m) <= 53).
  { unfold fexp, SpecFloat.emin, prec, emax in *. lia. }
  eapply Z.lt_le_trans; [exact B|]. apply Z.pow_le_mono_r; lia.
Qed.

Lemma bounded_emin m e : bounded prec emax m e = true -> emin <= e.
Proof.
  unfold bounded, canonical_mantissa. intros H.
  apply andb_true_iff in H as [H _]. apply Z.eqb_eq in H.
  unfold fexp, SpecFloat.emin, prec, emax in *. lia.
Qed.

(** Of two valid positive numbers brought to a common exponent, the one
    that compares lower has the lower mantissa. *)
Lemma aligned_le mx ex my ey :
  bounded prec emax mx ex = true -> bounded prec emax my ey = true ->
  SFleb (S754_finite false mx ex) (S754_finite false my ey) = true ->
  Zpos (fst (shl_align mx ex (Z.min ex ey)))
  <= Zpos (fst (shl_align my ey (Z.min ex ey))).
Proof.
  intros Hx Hy Hle. apply SFleb_pos_finite in Hle.
  rewrite !shl_align_fst by lia.
  destruct Hle as [Hlt|[-> Hm]].
  - rewrite Z.min_l by lia. rewrite Z.sub_diag, Z.mul_1_r.
    pose proof (bounded_mantissa mx ex Hx).
    pose proof (bounded_emin mx ex Hx).
    assert (Hn : 2 ^ 52 <= Zpos my < 2 ^ 53)
      by (apply (bounded_normal my ey Hy); lia).
    assert (2 ^ 1 <= 2 ^ (ey - ex)) by (apply Z.pow_le_mono_r; lia).
    change (2 ^ 53) with (2 ^ 52 * 2 ^ 1) in H. nia.
  - rewrite Z.min_id, Z.sub_diag. lia.
Qed.

Lemma SF_has_sign_or_zero s x : SF_has_sign s x -> SF_sign_or_zero s x.
Proof. destruct x; cbn; auto. Qed.

Lemma binary_normalize_sign m e :
  (m <= 0 -> SF_sign_or_zero true (binary_normalize prec emax m e false)) /\
  (0 <= m -> SF_sign_or_zero false (binary_normalize prec emax m e false)).
Proof.
  unfold binary_normalize, binary_round.
  destruct m as [|p|p]; split; intros H; try lia; cbn [SF_sign_or_zero]; auto;
    match goal with
    | |- context [shl_align ?a ?b ?c] => destruct (shl_align a b c) as [mz ez]
    end;
    apply SF_has_sign_or_zero, binary_round_aux_sign.
Qed.

(** The difference of two valid positive numbers is not positive when the
    first compares lower, not negative when it compares higher. *)
Lemma SFsub_sign x y :
  valid_binary x = true -> valid_binary y = true ->
  SF_positive x -> SF_positive y ->
  (SFleb x y = true -> SF_sign_or_zero true (SFsub prec emax x y)) /\
  (SFleb y x = true -> SF_sign_or_zero false (SFsub prec emax x y)).
Proof.
  intros Vx Vy Px Py.
  destruct x as [sx|[|]| |[|] mx ex]; cbn in Px; try (exfalso; exact Px);
    destruct y as [sy|[|]| |[|] my ey]; cbn in Py; try (exfalso; exact Py);
    cbn [SFsub negb SF_sign_or_zero];
    try (split; intros H; (discriminate H || exact I || reflexivity)).
  cbn [cond_Zopp]. split; intros Hle.
  - apply (proj1 (binary_normalize_sign _ _)).
    pose proof (aligned_le mx ex my ey Vx Vy Hle). lia.
  - apply (proj2 (binary_normalize_sign _ _)).
    pose proof (aligned_le my ey mx ex Vy Vx Hle) as H.
    rewrite (Z.min_comm ey ex) in H. lia.
Qed.

Lemma SFdiv_sign b x y :
  SF_sign_or_zero b x -> SF_positive y ->
  SF_sign_or_zero b (SFdiv prec emax x y).
Proof.
  destruct x as [sx|sx| |sx mx ex]; destruct y as [sy|[|]| |[|] my ey];
    cbn; intros Hx Hy; try (exfalso; exact Hy); auto; subst;
    try (destruct b; reflexivity); try (destruct sx; reflexivity).
  destruct (SFdiv_core_binary prec emax (Zpos mx) ex (Zpos my) ey) as [[mz ez] lz].
  apply SF_has_sign_or_zero.
  replace b with (xorb b false) at 1 by (destruct b; reflexivity).
  apply binary_round_aux_sign.
Qed.

Lemma SFmul_sign b x y :
  SF_sign_or_zero b x -> SF_positive y ->
  SF_sign_or_zero b (SFmul prec emax x y).
Proof.
  destruct x as [sx|sx| |sx mx ex]; destruct y as [sy|[|]| |[|] my ey];
    cbn; intros Hx Hy; try (exfalso; exact Hy); auto; subst;
    try (destruct b; reflexivity); try (destruct sx; reflexivity).
  apply SF_has_sign_or_zero.
  replace b with (xorb b false) at 1 by (destruct b; reflexivity).
  apply binary_round_aux_sign.
Qed.

Lemma SF_sign_or_zero_not_pos x :
  SF_sign_or_zero true x -> SFltb (S754_zero false) x = false.
Proof. destruct x as [s|s| |s m e]; cbn; intros H; subst; reflexivity. Qed.

Lemma SF_sign_or_zero_not_neg x :
  SF_sign_or_zero false x -> SFltb x (S754_zero false) = false.
Proof. destruct x as [s|s| |s m e]; cbn; intros H; subst; reflexivity. Qed.

Local Open Scope float_scope.

Lemma positive_SF (x : float) : (0 <? x) = true -> SF_positive (Prim2SF x).
Proof.
  rewrite ltb_spec, Prim2SF_0. unfold SFltb.
  destruct (Prim2SF x) as [s|[|]| |[|] m e]; cbn; intros H;
    try discriminate; exact I.
Qed.

Lemma Prim2SF_100_positive : SF_positive (Prim2SF 100).
Proof. rewrite Prim2SF_100. exact I. Qed.

(** The return of [old -> new], both positive: not positive when the price
    did not rise, not negative when it did not fall. *)
Lemma pct_sign (new old : float) :
  (0 <? old) = true -> (0 <? new) = true ->
  ((new <=? old) = true -> (0 <? (new - old) / old * 100) = false) /\
  ((old <=? new) = true -> ((new - old) / old * 100 <? 0) = false).
Proof.
  intros Ho Hn.
  pose proof (positive_SF _ Ho) as Po. pose proof (positive_SF _ Hn) as Pn.
  rewrite !leb_spec, !ltb_spec, !mul_spec, !div_spec, !sub_spec, Prim2SF_0.
  destruct (SFsub_sign (Prim2SF new) (Prim2SF old)
              (Prim2SF_valid _) (Prim2SF_valid _) Pn Po) as [H1 H2].
  split; intros H.
  - apply SF_sign_or_zero_not_pos, SFmul_sign; [|exact Prim2SF_100_positive].
    apply SFdiv_sign; [apply H1, H | exact Po].
  - apply SF_sign_or_zero_not_neg, SFmul_sign; [|exact Prim2SF_100_positive].
    apply SFdiv_sign; [apply H2, H | exact Po].
Qed.

Lemma positive_not_zero (x : float) : (0 <? x) = true -> (x =? 0) = false.
Proof.
  rewrite ltb_spec, FloatAxioms.eqb_spec, Prim2SF_0. unfold SFltb, SFeqb.
  destruct (Prim2SF x) as [s|[|]| |[|] m e]; cbn; congruence.
Qed.

Lemma ltb_not_nan (a b : float) :
  (a <? b) = true -> is_nan a = false /\ is_nan b = false.
Proof.
  unfold is_nan. rewrite ltb_spec, !FloatAxioms.eqb_spec. unfold SFltb, SFeqb.
  destruct (Prim2SF a) as [s|s| |s m e]; destruct (Prim2SF b) as [s'|s'| |s' m' e'];
    cbn; try discriminate; intros _;
    repeat match goal with
           | s : bool |- _ => destruct s
           end;
    cbn; rewrite ?Z.compare_refl; try fold (Pos.compare m m);
    try fold (Pos.compare m' m'); rewrite ?Pos.compare_refl; split; reflexivity.
Qed.

Lemma leb_not_nan (a b : float) :
  (a <=? b) = true -> is_nan a = false /\ is_nan b = false.
Proof.
  unfold is_nan. rewrite leb_spec, !FloatAxioms.eqb_spec. unfold SFleb, SFeqb.
  destruct (Prim2SF a) as [s|s| |s m e]; destruct (Prim2SF b) as [s'|s'| |s' m' e'];
    cbn; try discriminate; intros _;
    repeat match goal with
           | s : bool |- _ => destruct s
           end;
    cbn; rewrite ?Z.compare_refl; try fold (Pos.compare m m);
    try fold (Pos.compare m' m'); rewrite ?Pos.compare_refl; split; reflexivity.
Qed.

(** X8: for positive prices the return never takes the wrong sign: it is
    not positive when the price did not rise and not negative when it did
    not fall; so a positive return means the price rose, a negative one
    that it fell. *)
Theorem return_sign_follows_price (new old : float) :
  (0 <? old) = true -> (0 <? new) = true ->
  exists r,
    _pct new old = Ok r /\
    ((new <=? old) = true -> (0 <? r) = false) /\
    ((old <=? new) = true -> (r <? 0) = false) /\
    ((0 <? r) = true -> (old <? new) = true) /\
    ((r <? 0) = true -> (new <? old) = true).
Proof.
  intros Ho Hn. exists ((new - old) / old * 100).
  destruct (pct_sign new old Ho Hn) as [H1 H2].
  destruct (ltb_not_nan _ _ Ho) as [_ No]. destruct (ltb_not_nan _ _ Hn) as [_ Nn].
  split; [|split; [exact H1|split; [exact H2|split]]].
  - unfold _pct, py_div. rewrite (positive_not_zero _ Ho). reflexivity.
  - intros Hr. destruct (old <? new) eqn:E; [reflexivity|].
    apply nlt_iff_leb in E; auto. rewrite (H1 E) in Hr. discriminate.
  - intros Hr. destruct (new <? old) eqn:E; [reflexivity|].
    apply nlt_iff_leb in E; auto. rewrite (H2 E) in Hr. discriminate.
Qed.

Lemma return_sign_follows_price_witness :
  exists r,
    _pct 505 500 = Ok r /\
    ((505 <=? 500) = true -> (0 <? r) = false) /\
    ((500 <=? 505) = true -> (r <? 0) = false) /\
    ((0 <? r) = true -> (500 <? 505) = true) /\
    ((r <? 0) = true -> (505 <? 500) = true).
Proof.
  apply (return_sign_follows_price 505 500); reflexivity.
Defined.

Lemma ltb_leb_trans (a b c : float) :
  (a <? b) = true -> (b <=? c) = true -> (a <? c) = true.
Proof.
  intros Hab Hbc.
  destruct (ltb_not_nan _ _ Hab) as [Na Nb]. destruct (leb_not_nan _ _ Hbc) as [_ Nc].
  destruct (a <? c) eqn:E; [reflexivity|].
  apply nlt_iff_leb in E; auto.
  pose proof (leb_trans _ _ _ Hbc E) as Hba.
  apply nlt_iff_leb in Hba; auto. congruence.
Qed.

Lemma floor_positive (p : float) : (0.01 <=? p) = true -> (0 <? p) = true.
Proof. apply ltb_leb_trans. reflexivity. Qed.

Lemma price_floor_get (d : dict float) (k : string) (p : float) :
  price_floor d = true -> dict_get d k = Ok p -> (0.01 <=? p) = true.
Proof.
  unfold price_floor, dict_get. induction d as [|[k0 v0] d IH]; cbn; [discriminate|].
  intros H. apply andb_true_iff in H as [H0 H].
  destruct (String.eqb k k0).
  - intros [= <-]. exact H0.
  - apply IH. exact H.
Qed.

(** The conditions [_regime] tested, read back from its label. *)
Lemma regime_label_inv (spy btc tlt gld : float) :
  (fst (_regime spy btc tlt gld) = "RISK-ON" ->
   (0 <? spy) = true /\ (0 <? btc) = true /\ (tlt <? 0) = true) /\
  (fst (_regime spy btc tlt gld) = "RISK-OFF" ->
   (0 <? tlt) = true /\ (0 <? gld) = true /\ (spy <? 0) = true).
Proof.
  unfold _regime.
  destruct ((0 <? spy) && (0 <? btc) && (tlt <? 0)) eqn:Eon.
  - apply andb_true_iff in Eon as [Eon E3]. apply andb_true_iff in Eon as [E1 E2].
    cbn [fst]. split; [auto | discriminate].
  - destruct ((0 <? tlt) && (0 <? gld) && (spy <? 0)) eqn:Eoff; cbn [fst].
    + apply andb_true_iff in Eoff as [Eoff E3].
      apply andb_true_iff in Eoff as [E1 E2]. split; [discriminate | auto].
    + split; discriminate.
Qed.

(** X9: on a state whose prices are at least 0.01, a tick reports RISK-ON
    only if the committed prices of SPY and BTC are above the old ones and
    that of TLT below; and RISK-OFF only if TLT and GLD went up and SPY
    down. *)
Theorem regime_reflects_price_moves (_last : dict float) (g : rng)
    (snap : snapshot) (_last' : dict float) (g' : rng) :
  price_floor _last = true ->
  live _last g = Ok (snap, _last', g') ->
  let rose a := exists p np, dict_get _last a = Ok p /\ dict_get _last' a = Ok np
                             /\ (p <? np) = true in
  let fell a := exists p np, dict_get _last a = Ok p /\ dict_get _last' a = Ok np
                             /\ (np <? p) = true in
  (fst (snap_regime snap) = "RISK-ON" -> rose "SPY" /\ rose "BTC" /\ fell "TLT") /\
  (fst (snap_regime snap) = "RISK-OFF" -> rose "TLT" /\ rose "GLD" /\ fell "SPY").
Proof.
  intros Hf E rose fell. unfold live in E.
  pose proof (live_over_floor _ _ _ _ _ _ E) as Hf'.
  destruct (live_over_inv _ _ _ _ _ _ E)
    as (t & rets & det & label & conf & s1 & s2 & s3 & s4 & rows
        & Hsim & Hrets & _ & Hreg & _ & _ & _ & _ & _ & El & Es).
  rewrite <- El in Hrets.
  assert (Hmove : forall a r, dict_get rets a = Ok r ->
            ((0 <? r) = true -> rose a) /\ ((r <? 0) = true -> fell a)).
  { intros a r Hr.
    assert (Hin : In a (dict_keys ASSETS)).
    { rewrite <- (compute_rets_keys _ _ _ _ Hrets).
      eapply dict_get_Ok_in. exact Hr. }
    destruct (tick_of_named_asset _ _ _ _ _ _ _ _ a ASSETS_keys_NoDup E Hsim Hrets Hin)
      as (p & np & r' & row & H1 & H2 & H3 & _ & H5 & _).
    rewrite Hr in H5. injection H5 as <-.
    pose proof (floor_positive _ (price_floor_get _ _ _ Hf H1)) as Pp.
    pose proof (floor_positive _ (price_floor_get _ _ _ Hf' H2)) as Pnp.
    destruct (pct_sign np p Pp Pnp) as [S1 S2].
    destruct (ltb_not_nan _ _ Pp) as [_ Np]. destruct (ltb_not_nan _ _ Pnp) as [_ Nnp].
    unfold _pct, py_div in H3. rewrite (positive_not_zero _ Pp) in H3.
    cbn [bind] in H3. injection H3 as <-.
    split; intros Hr0; exists p, np; (split; [exact H1|split; [exact H2|]]).
    - destruct (p <? np) eqn:Ec; [reflexivity|].
      apply nlt_iff_leb in Ec; auto. rewrite (S1 Ec) in Hr0. discriminate.
    - destruct (np <? p) eqn:Ec; [reflexivity|].
      apply nlt_iff_leb in Ec; auto. rewrite (S2 Ec) in Hr0. discriminate. }
  unfold regime_step in Hreg.
  destruct (dict_get rets "SPY") as [spy|] eqn:G1; cbn [bind] in Hreg; [|discriminate].
  destruct (dict_get rets "BTC") as [btc|] eqn:G2; cbn [bind] in Hreg; [|discriminate].
  destruct (dict_get rets "TLT") as [tlt|] eqn:G3; cbn [bind] in Hreg; [|discriminate].
  destruct (dict_get rets "GLD") as [gld|] eqn:G4; cbn [bind] in Hreg; [|discriminate].
  injection Hreg as Hreg.
  assert (Hlab : fst (snap_regime snap) = fst (_regime spy btc tlt gld))
    by (rewrite Es, Hreg; reflexivity).
  rewrite Hlab.
  destruct (regime_label_inv spy btc tlt gld) as [Ron Roff].
  split; intros Hl.
  - destruct (Ron Hl) as (A & B & C).
    repeat split;
      [apply (Hmove _ _ G1) | apply (Hmove _ _ G2) | apply (Hmove _ _ G3)];
      assumption.
  - destruct (Roff Hl) as (A & B & C).
    repeat split;
      [apply (Hmove _ _ G3) | apply (Hmove _ _ G4) | apply (Hmove _ _ G1)];
      assumption.
Qed.

Lemma regime_reflects_price_moves_witness :
  let rose a := exists p np, dict_get initial_last a = Ok p
                             /\ dict_get sample_last a = Ok np
                             /\ (p <? np) = true in
  let fell a := exists p np, dict_get initial_last a = Ok p
                             /\ dict_get sample_last a = Ok np
                             /\ (np <? p) = true in
  (fst (snap_regime sample_snapshot) = "RISK-ON" ->
   rose "SPY" /\ rose "BTC" /\ fell "TLT") /\
  (fst (snap_regime sample_snapshot) = "RISK-OFF" ->
   rose "TLT" /\ rose "GLD" /\ fell "SPY").
Proof.
  apply (regime_reflects_price_moves initial_last sample_rng sample_snapshot
           sample_last sample_rng_after).
  - reflexivity.
  - exact sample_tick_returns.
Defined.

(** ** The floor *)

Local Open Scope Z_scope.

Lemma SFleb_neg_finite a ea b eb :
  SFleb (S754_finite true a ea) (S754_finite true b eb)
  = SFleb (S754_finite false b eb) (S754_finite false a ea).
Proof.
  unfold SFleb; cbn. fold (Pos.compare a b). fold (Pos.compare b a).
  rewrite (Z.compare_antisym ea eb), (Pos.compare_antisym a b).
  destruct (ea ?= eb); cbn; try reflexivity;
  destruct (a ?= b)%positive; reflexivity.
Qed.

(** Adding to a valid positive number a negative one at least as large in
    magnitude gives a result that is not positive. *)
Lemma SFadd_pos_neg_sign mx ex y :
  bounded prec emax mx ex = true -> valid_binary y = true ->
  SFleb y (S754_finite true mx ex) = true ->
  SF_sign_or_zero true (SFadd prec emax (S754_finite false mx ex) y).
Proof.
  intros Vx Vy Hle.
  destruct y as [sy|[|]| |[|] my ey]; try discriminate; cbn [SFadd SF_sign_or_zero];
    try reflexivity.
  cbn [cond_Zopp]. rewrite SFleb_neg_finite in Hle.
  apply (proj1 (binary_normalize_sign _ _)).
  pose proof (aligned_le mx ex my ey Vx Vy Hle). lia.
Qed.

Lemma SFmul_nonneg_by_nonpos x w :
  SFleb (S754_zero false) x = true -> SF_sign_or_zero true w ->
  SF_sign_or_zero true (SFmul prec emax x w).
Proof.
  destruct x as [sx|[|]| |[|] mx ex]; try discriminate;
    destruct w as [sw|sw| |sw mw ew]; cbn; intros _ Hw; subst; auto.
  apply SF_has_sign_or_zero. apply (binary_round_aux_sign true).
Qed.

Lemma SF_sign_or_zero_below x c ec :
  SF_sign_or_zero true x -> SFltb (S754_finite false c ec) x = false.
Proof. destruct x as [s|s| |s m e]; cbn; intros H; subst; reflexivity. Qed.

Local Open Scope float_scope.

Lemma Prim2SF_1 : Prim2SF 1 = S754_finite false 4503599627370496 (-52).
Proof. vm_compute. reflexivity. Qed.

Lemma Prim2SF_minus_1 : Prim2SF (-1) = S754_finite true 4503599627370496 (-52).
Proof. vm_compute. reflexivity. Qed.

Lemma Prim2SF_001 : Prim2SF 0.01 = S754_finite false 5764607523034235 (-59).
Proof. vm_compute. reflexivity. Qed.

(** X10: a shock of -100% or worse sends any non-negative price to the
    floor: the new price is exactly 0.01. *)
Theorem shock_below_minus_one_hits_floor (p vol : float) (g : rng) :
  (0 <=? p) = true ->
  (draws g (cursor g) <=? -1) = true ->
  fst (_tick_price p vol g) = 0.01.
Proof.
  intros Hp Hs. unfold _tick_price, gauss, next_draw. cbn [fst]. unfold py_max.
  replace (0.01 <? p * (1 + draws g (cursor g))) with false; [reflexivity|].
  symmetry. rewrite ltb_spec, mul_spec, add_spec, Prim2SF_001.
  apply SF_sign_or_zero_below. apply SFmul_nonneg_by_nonpos.
  - rewrite leb_spec, Prim2SF_0 in Hp. exact Hp.
  - rewrite Prim2SF_1. apply SFadd_pos_neg_sign.
    + reflexivity.
    + apply Prim2SF_valid.
    + rewrite leb_spec, Prim2SF_minus_1 in Hs. exact Hs.
Qed.

Lemma shock_below_minus_one_hits_floor_witness :
  fst (_tick_price 500 0.0009 {| draws := fun _ => -1.5; cursor := 0 |}) = 0.01.
Proof.
  apply (shock_below_minus_one_hits_floor 500 0.0009
           {| draws := fun _ => -1.5; cursor := 0 |}); reflexivity.
Defined.

(* ================================================================== *)
(** * Rounding against a representable bound *)
(* ================================================================== *)

Local Open Scope Z_scope.

Lemma shr_1_double k :
  0 <= k ->
  shr_1 {| shr_m := k * 2; shr_r := false; shr_s := false |}
  = {| shr_m := k; shr_r := false; shr_s := false |}.
Proof.
  intros Hk. destruct k as [|p|p]; try lia; try reflexivity.
  replace (Zpos p * 2) with (Zpos p~0) by lia. reflexivity.
Qed.

(** Shifting out [n] zero bits leaves nothing behind. *)
Lemma iter_shr_1_exact n : forall k, 0 <= k ->
  iter_pos shr_1 n {| shr_m := k * 2 ^ Zpos n; shr_r := false; shr_s := false |}
  = {| shr_m := k; shr_r := false; shr_s := false |}.
Proof.
  induction n as [n IH|n IH|]; intros k Hk; cbn [iter_pos].
  - assert (Hp : 0 < 2 ^ Zpos n) by (apply Z.pow_pos_nonneg; lia).
    replace (k * 2 ^ Zpos n~1) with (k * 2 ^ Zpos n * 2 ^ Zpos n * 2).
    + rewrite shr_1_double by nia. rewrite IH by nia. apply IH. exact Hk.
    + replace (Zpos n~1) with (Zpos n + Zpos n + 1) by lia.
      rewrite !Z.pow_add_r by lia. change (2 ^ 1) with 2. ring.
  - assert (Hp : 0 < 2 ^ Zpos n) by (apply Z.pow_pos_nonneg; lia).
    replace (k * 2 ^ Zpos n~0) with (k * 2 ^ Zpos n * 2 ^ Zpos n).
    + rewrite IH by nia. apply IH. exact Hk.
    + replace (Zpos n~0) with (Zpos n + Zpos n) by lia.
      rewrite !Z.pow_add_r by lia. ring.
  - change (2 ^ 1) with 2. apply shr_1_double. exact Hk.
Qed.

Lemma fexp_ge_emin x : emin <= fexp prec emax x.
Proof. unfold fexp. lia. Qed.

Lemma fexp_ge_sub x : x - 53 <= fexp prec emax x.
Proof. unfold fexp, prec. lia. Qed.

Lemma fexp_cases x :
  fexp prec emax x = x - 53 \/ fexp prec emax x = emin.
Proof. unfold fexp, prec. lia. Qed.

(** What rounding an exact mantissa gives, in every case: the mantissa
    itself when it is short enough; otherwise the mantissa shifted to the
    exponent [fexp] allows, or its successor (never when the shifted bits
    are all zero), with the carry into a 54th bit shifted once more. *)
Lemma binary_round_aux_cases s M E :
  let f := fexp prec emax (Zpos (digits2_pos M) + E) in
  (f <= E /\
   binary_round_aux prec emax s (Zpos M) E loc_Exact
   = if E <=? emax - prec then S754_finite s M E else S754_infinity s) \/
  (E < f /\ exists q,
     Zpos M / 2 ^ (f - E) <= q <= Zpos M / 2 ^ (f - E) + 1 /\
     (Zpos M mod 2 ^ (f - E) = 0 -> q = Zpos M / 2 ^ (f - E)) /\
     q <= 2 ^ 53 /\
     binary_round_aux prec emax s (Zpos M) E loc_Exact =
       if q =? 0 then S754_zero s
       else if q <? 2 ^ 53 then
         if f <=? emax - prec then S754_finite s (Z.to_pos q) f
         else S754_infinity s
       else
         if f + 1 <=? emax - prec
         then S754_finite s (Z.to_pos (2 ^ 52)) (f + 1)
         else S754_infinity s).
Proof.
  intros f.
  pose proof (digits2_pos_bounds M) as [Dlo Dhi].
  pose proof (fexp_ge_emin (Zpos (digits2_pos M) + E)) as Fmin.
  pose proof (fexp_ge_sub (Zpos (digits2_pos M) + E)) as Fsub.
  fold f in Fmin, Fsub.
  set (d := Zpos (digits2_pos M)) in *.
  unfold binary_round_aux, shr_fexp. cbn [Zdigits2]. fold d. fold f.
  destruct (Z.le_gt_cases f E) as [Hle|Hgt].
  - left. split; [exact Hle|].
    assert (Hs : forall mrs, shr mrs E (f - E) = (mrs, E)).
    { intros mrs. unfold shr. destruct (f - E) eqn:En; try reflexivity. lia. }
    rewrite Hs.
    cbn [shr_record_of_loc shr_m loc_of_shr_record round_nearest_even Zdigits2].
    fold d. fold f. rewrite Hs. cbn [shr_m]. reflexivity.
  - right. split; [lia|].
    remember (f - E) as n eqn:En.
    assert (Hn : 0 < n) by lia.
    assert (Hpow : 0 < 2 ^ n) by (apply Z.pow_pos_nonneg; lia).
    destruct n as [|p|p]; try lia. cbn [shr].
    set (mrs' := iter_pos shr_1 p (shr_record_of_loc (Zpos M) loc_Exact)).
    set (q0 := Zpos M / 2 ^ Zpos p).
    assert (Hm : shr_m mrs' = q0).
    { unfold mrs'. rewrite iter_shr_1_m; [reflexivity | simpl; lia]. }
    pose proof (round_nearest_even_range (shr_m mrs') (loc_of_shr_record mrs')) as Hr.
    set (q := round_nearest_even (shr_m mrs') (loc_of_shr_record mrs')) in *.
    rewrite Hm in Hr.
    assert (Hq0 : 0 <= q0 < 2 ^ 53).
    { split; [apply Z.div_pos; lia|].
      apply Z.div_lt_upper_bound; [lia|].
      assert (2 ^ d <= 2 ^ (Zpos p + 53)) by (apply Z.pow_le_mono_r; lia).
      rewrite Z.pow_add_r in H by lia. lia. }
    replace (E + Zpos p) with f by lia.
    exists q. split; [exact Hr|]. split; [|split; [lia|]].
    { intros Hmod. unfold q, mrs'. cbn [shr_record_of_loc].
      assert (HM : Zpos M = q0 * 2 ^ Zpos p).
      { unfold q0. pose proof (Z.div_mod (Zpos M) (2 ^ Zpos p) ltac:(lia)). lia. }
      rewrite HM, iter_shr_1_exact by lia. reflexivity. }
    destruct (Z.eqb_spec q 0) as [Hz|Hnz].
    + rewrite Hz. cbn [Zdigits2].
      assert (Hs : forall mrs, shr mrs f (fexp prec emax (0 + f) - f) = (mrs, f)).
      { intros mrs. unfold shr.
        destruct (fexp prec emax (0 + f) - f) eqn:E2; try reflexivity.
        unfold fexp, SpecFloat.emin, prec, emax in *. lia. }
      rewrite Hs. reflexivity.
    + destruct (Z.ltb_spec q (2 ^ 53)) as [Hlt|Hge].
      * destruct q as [|qp|qp] eqn:Eq; try lia.
        cbn [Zdigits2].
        pose proof (digits2_pos_bounds qp) as [Qlo Qhi].
        assert (Hdq : Zpos (digits2_pos qp) <= 53).
        { destruct (Z.le_gt_cases (Zpos (digits2_pos qp)) 53) as [|Hd]; [assumption|].
          assert (2 ^ 53 <= 2 ^ (Zpos (digits2_pos qp) - 1))
            by (apply Z.pow_le_mono_r; lia).
          lia. }
        assert (Hs : forall mrs,
                  shr mrs f (fexp prec emax (Zpos (digits2_pos qp) + f) - f) = (mrs, f)).
        { intros mrs. unfold shr.
          destruct (fexp prec emax (Zpos (digits2_pos qp) + f) - f) eqn:E2;
            try reflexivity.
          unfold fexp, SpecFloat.emin, prec, emax in *. lia. }
        rewrite Hs. reflexivity.
      * assert (Eq : q = 2 ^ 53) by lia.
        rewrite Eq.
        cbn [Z.pow Z.pow_pos Pos.iter Z.mul Pos.mul Zdigits2 digits2_pos Pos.succ].
        assert (Hf2 : fexp prec emax (54 + f) = f + 1).
        { unfold fexp, SpecFloat.emin, prec, emax in *. lia. }
        rewrite Hf2. replace (f + 1 - f) with 1 by lia.
        cbn [shr iter_pos shr_record_of_loc shr_1 shr_m].
        reflexivity.
Qed.

(** ** Magnitudes *)

(** A valid mantissa sits at the exponent that [fexp] gives its length. *)
Lemma bounded_canonical m e :
  bounded prec emax m e = true ->
  fexp prec emax (Zpos (digits2_pos m) + e) = e /\ e <= emax - prec.
Proof.
  unfold bounded, canonical_mantissa. intros H.
  apply andb_true_iff in H as [H1 H2].
  apply Z.eqb_eq in H1. apply Z.leb_le in H2. split; assumption.
Qed.

Lemma fexp_mono x y : x <= y -> fexp prec emax x <= fexp prec emax y.
Proof. unfold fexp. lia. Qed.

(** Rounding a mantissa that is at most [mc * 2^ec] gives at most
    [mc * 2^ec] in magnitude, when that bound is a float. *)
Lemma binary_round_aux_mag_le s M E mc ec :
  bounded prec emax mc ec = true -> E <= ec ->
  E <= fexp prec emax (Zpos (digits2_pos M) + E) ->
  Zpos M <= Zpos mc * 2 ^ (ec - E) ->
  SF_mag_le (binary_round_aux prec emax s (Zpos M) E loc_Exact) mc ec.
Proof.
  intros Vc HE Hf HM.
  destruct (bounded_canonical mc ec Vc) as [Hcan Hmax].
  pose proof (bounded_mantissa mc ec Vc) as Hmc.
  pose proof (bounded_emin mc ec Vc) as Hemin.
  pose proof (digits2_pos_bounds M) as [Dlo Dhi].
  pose proof (digits2_pos_bounds mc) as [Clo Chi].
  set (d := Zpos (digits2_pos M)) in *.
  set (dc := Zpos (digits2_pos mc)) in *.
  assert (Hp : 0 < 2 ^ (ec - E)) by (apply Z.pow_pos_nonneg; lia).
  assert (Hd : d + E <= dc + ec).
  { destruct (Z.le_gt_cases (d + E) (dc + ec)) as [|Hgt]; [assumption|].
    assert (2 ^ (dc + (ec - E)) <= 2 ^ (d - 1)) by (apply Z.pow_le_mono_r; lia).
    rewrite Z.pow_add_r in H by lia. nia. }
  assert (Hfec : fexp prec emax (d + E) <= ec).
  { rewrite <- Hcan. apply fexp_mono. exact Hd. }
  destruct (binary_round_aux_cases s M E) as [[Hle ->]|[Hlt (q & Hq & Hex & Hq53 & ->)]];
    fold d in Hle || fold d in Hlt.
  - replace (E <=? emax - prec) with true by (symmetry; apply Z.leb_le; lia).
    cbn [SF_mag_le].
    destruct (Z.eq_dec E ec) as [->|]; [right|left; lia].
    split; [reflexivity|]. rewrite Z.sub_diag, Z.mul_1_r in HM. exact HM.
  - fold d in Hq, Hex |- *.
    set (f := fexp prec emax (d + E)) in *.
    pose proof (fexp_ge_emin (d + E)) as Fmin. fold f in Fmin.
    assert (Hpn : 0 < 2 ^ (f - E)) by (apply Z.pow_pos_nonneg; lia).
    assert (Hq0 : 0 <= Zpos M / 2 ^ (f - E)) by (apply Z.div_pos; lia).
    destruct (Z.eqb_spec q 0) as [Hz|Hnz]; [exact I|].
    destruct (Z.ltb_spec q (2 ^ 53)) as [Hq1|Hq1].
    + replace (f <=? emax - prec) with true by (symmetry; apply Z.leb_le; lia).
      cbn [SF_mag_le]. rewrite Z2Pos.id by lia.
      destruct (Z.eq_dec f ec) as [Hfe|]; [right|left; lia].
      split; [exact Hfe|].
      rewrite Hfe in *.
      destruct (Z.eq_dec (Zpos M) (Zpos mc * 2 ^ (ec - E))) as [Heq|Hne].
      * rewrite Hex; rewrite Heq.
        -- rewrite Z.div_mul by lia. lia.
        -- apply Z.mod_mul. lia.
      * assert (Zpos M / 2 ^ (ec - E) < Zpos mc)
          by (apply Z.div_lt_upper_bound; lia).
        lia.
    + assert (Hfl : f < ec).
      { destruct (Z.eq_dec f ec) as [Hfe|]; [|lia]. exfalso.
        rewrite Hfe in *.
        assert (Zpos M / 2 ^ (ec - E) <= Zpos mc).
        { apply Z.div_le_upper_bound; lia. }
        destruct (Z.eq_dec (Zpos M) (Zpos mc * 2 ^ (ec - E))) as [Heq|Hne].
        - rewrite Hex in Hq1; rewrite Heq in *.
          + rewrite Z.div_mul in Hq1 by lia. lia.
          + apply Z.mod_mul. lia.
        - assert (Zpos M / 2 ^ (ec - E) < Zpos mc)
            by (apply Z.div_lt_upper_bound; lia).
          lia. }
      replace (f + 1 <=? emax - prec) with true by (symmetry; apply Z.leb_le; lia).
      cbn [SF_mag_le].
      destruct (Z.eq_dec (f + 1) ec) as [Hfe|]; [right|left; lia].
      split; [exact Hfe|].
      assert (Hn : 2 ^ 52 <= Zpos mc < 2 ^ 53)
        by (apply (bounded_normal mc ec Vc); lia).
      change (Zpos (Z.to_pos (2 ^ 52))) with (2 ^ 52). lia.
Qed.

(** Rounding a mantissa that is at least [mc * 2^ec] gives at least
    [mc * 2^ec] in magnitude, when that bound is a float. *)
Lemma binary_round_aux_mag_ge s M E mc ec :
  bounded prec emax mc ec = true -> E <= ec ->
  Zpos mc * 2 ^ (ec - E) <= Zpos M ->
  SF_mag_ge (binary_round_aux prec emax s (Zpos M) E loc_Exact) mc ec.
Proof.
  intros Vc HE HM.
  destruct (bounded_canonical mc ec Vc) as [Hcan Hmax].
  pose proof (bounded_emin mc ec Vc) as Hemin.
  pose proof (digits2_pos_bounds M) as [Dlo Dhi].
  pose proof (digits2_pos_bounds mc) as [Clo Chi].
  set (d := Zpos (digits2_pos M)) in *.
  set (dc := Zpos (digits2_pos mc)) in *.
  assert (Hp : 0 < 2 ^ (ec - E)) by (apply Z.pow_pos_nonneg; lia).
  assert (Hd : dc + ec <= d + E).
  { destruct (Z.le_gt_cases (dc + ec) (d + E)) as [|Hgt]; [assumption|].
    assert (2 ^ d <= 2 ^ (dc - 1 + (ec - E))) by (apply Z.pow_le_mono_r; lia).
    rewrite Z.pow_add_r in H by lia. nia. }
  assert (Hfec : ec <= fexp prec emax (d + E)).
  { rewrite <- Hcan. apply fexp_mono. exact Hd. }
  destruct (binary_round_aux_cases s M E) as [[Hle ->]|[Hlt (q & Hq & Hex & Hq53 & ->)]];
    fold d in Hle || fold d in Hlt.
  - destruct (E <=? emax - prec); [|exact I].
    cbn [SF_mag_ge]. right. split; [lia|].
    replace (ec - E) with 0 in HM by lia. lia.
  - fold d in Hq, Hex |- *.
    set (f := fexp prec emax (d + E)) in *.
    assert (Hpn : 0 < 2 ^ (f - E)) by (apply Z.pow_pos_nonneg; lia).
    assert (Hq1 : 1 <= q /\ (f = ec -> Zpos mc <= q)).
    { destruct (Z.eq_dec f ec) as [Hfe|Hfe].
      - assert (Zpos mc <= Zpos M / 2 ^ (f - E)).
        { apply Z.div_le_lower_bound; [lia|]. rewrite Hfe. lia. }
        lia.
      - split; [|lia].
        destruct (fexp_cases (d + E)) as [Hn|Hn]; fold f in Hn; [|lia].
        assert (2 ^ 52 <= Zpos M / 2 ^ (f - E)).
        { apply Z.div_le_lower_bound; [lia|].
          replace (d - 1) with (52 + (f - E)) in Dlo by lia.
          rewrite Z.pow_add_r in Dlo by lia. lia. }
        change (2 ^ 52) with 4503599627370496 in *. lia. }
    destruct Hq1 as [Hq1 Hq2].
    destruct (Z.eqb_spec q 0) as [Hz|Hnz]; [lia|].
    destruct (Z.ltb_spec q (2 ^ 53)) as [Hq3|Hq3].
    + destruct (f <=? emax - prec); [|exact I].
      cbn [SF_mag_ge]. rewrite Z2Pos.id by lia.
      destruct (Z.eq_dec f ec) as [Hfe|]; [right|left; lia].
      split; [lia|]. apply Hq2. exact Hfe.
    + destruct (f + 1 <=? emax - prec); [|exact I].
      cbn [SF_mag_ge]. left. lia.
Qed.

(** A mantissa of at least 53 bits at an exponent above [ec] rounds to
    more than any float of exponent [ec]. *)
Lemma binary_round_aux_mag_ge_high s M E mc ec :
  bounded prec emax mc ec = true -> ec < E ->
  E <= fexp prec emax (Zpos (digits2_pos M) + E) ->
  SF_mag_ge (binary_round_aux prec emax s (Zpos M) E loc_Exact) mc ec.
Proof.
  intros Vc HE Hf.
  pose proof (bounded_emin mc ec Vc) as Hemin.
  pose proof (digits2_pos_bounds M) as [Dlo Dhi].
  set (d := Zpos (digits2_pos M)) in *.
  destruct (binary_round_aux_cases s M E) as [[Hle ->]|[Hlt (q & Hq & Hex & Hq53 & ->)]];
    fold d in Hle || fold d in Hlt.
  - destruct (E <=? emax - prec); [|exact I].
    cbn [SF_mag_ge]. left. exact HE.
  - fold d in Hq, Hex |- *.
    set (f := fexp prec emax (d + E)) in *.
    assert (Hpn : 0 < 2 ^ (f - E)) by (apply Z.pow_pos_nonneg; lia).
    assert (Hq1 : 1 <= q).
    { destruct (fexp_cases (d + E)) as [Hn|Hn]; fold f in Hn; [|lia].
      assert (2 ^ 52 <= Zpos M / 2 ^ (f - E)).
      { apply Z.div_le_lower_bound; [lia|].
        replace (d - 1) with (52 + (f - E)) in Dlo by lia.
        rewrite Z.pow_add_r in Dlo by lia. lia. }
      change (2 ^ 52) with 4503599627370496 in *. lia. }
    destruct (Z.eqb_spec q 0) as [Hz|Hnz]; [lia|].
    destruct (Z.ltb_spec q (2 ^ 53)) as [Hq3|Hq3].
    + destruct (f <=? emax - prec); [|exact I].
      cbn [SF_mag_ge]. left. lia.
    + destruct (f + 1 <=? emax - prec); [|exact I].
      cbn [SF_mag_ge]. left. lia.
Qed.

(** [shl_align] keeps the value and only lowers the exponent. *)
Lemma shl_align_spec m e e' :
  let r := shl_align m e e' in
  snd r = Z.min e e' /\ Zpos (fst r) = Zpos m * 2 ^ (e - snd r).
Proof.
  unfold shl_align. destruct (e' - e) as [|p|p] eqn:Ed; cbn [fst snd].
  - split; [lia|]. rewrite Z.sub_diag. lia.
  - split; [lia|]. rewrite Z.sub_diag. lia.
  - split; [lia|].
    replace (e - e') with (Zpos p) by lia.
    change (Pos.iter xO m p) with (shift_pos p m).
    rewrite shift_pos_correct. change (Z.pow_pos 2 p) with (2 ^ Zpos p). lia.
Qed.

Lemma digits2_pos_shift m mz k :
  0 <= k -> Zpos mz = Zpos m * 2 ^ k ->
  Zpos (digits2_pos mz) = Zpos (digits2_pos m) + k.
Proof.
  intros Hk Hmz. apply digits2_pos_unique.
  pose proof (digits2_pos_bounds m) as [Dlo Dhi].
  assert (Hp : 0 < 2 ^ k) by (apply Z.pow_pos_nonneg; lia).
  replace (Zpos (digits2_pos m) + k - 1) with (Zpos (digits2_pos m) - 1 + k) by lia.
  rewrite !Z.pow_add_r by lia. rewrite Hmz. nia.
Qed.

(** What [binary_round] hands to [binary_round_aux]. *)
Lemma binary_round_aligned s M E :
  exists mz ez,
    binary_round prec emax s M E
      = binary_round_aux prec emax s (Zpos mz) ez loc_Exact /\
    ez <= E /\ Zpos mz = Zpos M * 2 ^ (E - ez) /\
    ez <= fexp prec emax (Zpos (digits2_pos mz) + ez).
Proof.
  unfold binary_round.
  pose proof (shl_align_spec M E (fexp prec emax (Zpos (digits2_pos M) + E)))
    as [H1 H2]. cbv zeta in H1, H2.
  destruct (shl_align M E (fexp prec emax (Zpos (digits2_pos M) + E)))
    as [mz ez]. cbn [fst snd] in H1, H2.
  exists mz, ez. split; [reflexivity|]. split; [lia|]. split; [exact H2|].
  rewrite (digits2_pos_shift M mz (E - ez)) by (lia || exact H2).
  replace (Zpos (digits2_pos M) + (E - ez) + ez) with (Zpos (digits2_pos M) + E)
    by lia.
  lia.
Qed.

Lemma binary_round_mag_le s M E mc ec :
  bounded prec emax mc ec = true -> E <= ec ->
  Zpos M <= Zpos mc * 2 ^ (ec - E) ->
  SF_mag_le (binary_round prec emax s M E) mc ec.
Proof.
  intros Vc HE HM.
  destruct (binary_round_aligned s M E) as (mz & ez & -> & Hez & Hmz & Hf).
  apply binary_round_aux_mag_le; [exact Vc | lia | exact Hf |].
  rewrite Hmz.
  replace (ec - ez) with (ec - E + (E - ez)) by lia.
  rewrite Z.pow_add_r by lia.
  assert (0 < 2 ^ (E - ez)) by (apply Z.pow_pos_nonneg; lia). nia.
Qed.

Lemma binary_round_mag_ge s M E mc ec :
  bounded prec emax mc ec = true -> E <= ec ->
  Zpos mc * 2 ^ (ec - E) <= Zpos M ->
  SF_mag_ge (binary_round prec emax s M E) mc ec.
Proof.
  intros Vc HE HM.
  destruct (binary_round_aligned s M E) as (mz & ez & -> & Hez & Hmz & Hf).
  apply binary_round_aux_mag_ge; [exact Vc | lia |].
  rewrite Hmz.
  replace (ec - ez) with (ec - E + (E - ez)) by lia.
  rewrite Z.pow_add_r by lia.
  assert (0 < 2 ^ (E - ez)) by (apply Z.pow_pos_nonneg; lia). nia.
Qed.

Lemma binary_round_sign s M E :
  SF_has_sign s (binary_round prec emax s M E).
Proof.
  destruct (binary_round_aligned s M E) as (mz & ez & -> & _).
  apply binary_round_aux_sign.
Qed.

(** ** Sums, differences and products *)

Lemma SFleb_pos_refl m e :
  SFleb (S754_finite false m e) (S754_finite false m e) = true.
Proof. apply SFleb_pos_finite. right. split; lia. Qed.

Lemma binary_round_not_nan s M E : binary_round prec emax s M E <> S754_nan.
Proof.
  destruct (binary_round_aligned s M E) as (mz & ez & -> & _).
  destruct (binary_round_aux_cases s mz ez)
    as [[_ ->]|[_ (q & _ & _ & _ & ->)]].
  - destruct (ez <=? emax - prec); discriminate.
  - destruct (q =? 0); [discriminate|].
    destruct (q <? 2 ^ 53);
      match goal with |- context [if ?c then _ else _] => destruct c end;
      discriminate.
Qed.

Lemma mag_le_leb x mc ec :
  SF_mag_le x mc ec -> SF_has_sign false x ->
  SFleb x (S754_finite false mc ec) = true.
Proof.
  destruct x as [s|s| |s q f]; cbn [SF_mag_le SF_has_sign]; intros H Hs;
    try contradiction.
  - destruct s; reflexivity.
  - subst s. apply SFleb_pos_finite. exact H.
Qed.

Lemma mag_ge_leb x mc ec :
  SF_mag_ge x mc ec -> SF_has_sign false x ->
  SFleb (S754_finite false mc ec) x = true.
Proof.
  destruct x as [s|s| |s q f]; cbn [SF_mag_ge SF_has_sign]; intros H Hs;
    try contradiction.
  - subst s. reflexivity.
  - subst s. apply SFleb_pos_finite. exact H.
Qed.

Lemma mag_ge_leb_neg x mc ec :
  SF_mag_ge x mc ec -> SF_has_sign true x ->
  SFleb x (S754_finite true mc ec) = true.
Proof.
  destruct x as [s|s| |s q f]; cbn [SF_mag_ge SF_has_sign]; intros H Hs;
    try contradiction.
  - subst s. reflexivity.
  - subst s. rewrite SFleb_neg_finite. apply SFleb_pos_finite. exact H.
Qed.

Lemma mag_le_leb_neg x mc ec :
  SF_mag_le x mc ec -> SF_has_sign true x ->
  SFleb (S754_finite true mc ec) x = true.
Proof.
  destruct x as [s|s| |s q f]; cbn [SF_mag_le SF_has_sign]; intros H Hs;
    try contradiction.
  - destruct s; reflexivity.
  - subst s. rewrite SFleb_neg_finite. apply SFleb_pos_finite. exact H.
Qed.

(** A float of one sign against a finite float of the other. *)
Lemma neg_leb_pos x mc ec :
  SF_has_sign true x -> x <> S754_nan ->
  SFleb x (S754_finite false mc ec) = true.
Proof.
  destruct x as [s|s| |s q f]; cbn [SF_has_sign]; intros Hs Hn;
    try congruence; subst; reflexivity.
Qed.

Lemma neg_leb_pos' x mc ec :
  SF_has_sign false x -> x <> S754_nan ->
  SFleb (S754_finite true mc ec) x = true.
Proof.
  destruct x as [s|s| |s q f]; cbn [SF_has_sign]; intros Hs Hn;
    try congruence; subst; reflexivity.
Qed.

(** Normalising an integer that is at most the aligned mantissa of a
    float gives at most that float. *)
Lemma binary_normalize_le sx mx ex m e :
  bounded prec emax mx ex = true -> e <= ex ->
  m <= cond_Zopp sx (Zpos mx * 2 ^ (ex - e)) ->
  SFleb (binary_normalize prec emax m e false) (S754_finite sx mx ex) = true.
Proof.
  intros Vx He Hm.
  assert (Hp : 0 < 2 ^ (ex - e)) by (apply Z.pow_pos_nonneg; lia).
  destruct sx; cbn [cond_Zopp] in Hm.
  - destruct m as [|p|p]; try lia. cbn [binary_normalize].
    apply mag_ge_leb_neg; [|apply binary_round_sign].
    apply binary_round_mag_ge; [exact Vx | exact He | lia].
  - destruct m as [|p|p]; cbn [binary_normalize].
    + reflexivity.
    + apply mag_le_leb; [|apply binary_round_sign].
      apply binary_round_mag_le; [exact Vx | exact He | lia].
    + apply neg_leb_pos; [apply binary_round_sign | apply binary_round_not_nan].
Qed.

Lemma binary_normalize_ge sx mx ex m e :
  bounded prec emax mx ex = true -> e <= ex ->
  cond_Zopp sx (Zpos mx * 2 ^ (ex - e)) <= m ->
  SFleb (S754_finite sx mx ex) (binary_normalize prec emax m e false) = true.
Proof.
  intros Vx He Hm.
  assert (Hp : 0 < 2 ^ (ex - e)) by (apply Z.pow_pos_nonneg; lia).
  destruct sx; cbn [cond_Zopp] in Hm.
  - destruct m as [|p|p]; cbn [binary_normalize].
    + reflexivity.
    + apply neg_leb_pos'; [apply binary_round_sign | apply binary_round_not_nan].
    + apply mag_le_leb_neg; [|apply binary_round_sign].
      apply binary_round_mag_le; [exact Vx | exact He | lia].
  - destruct m as [|p|p]; try lia. cbn [binary_normalize].
    apply mag_ge_leb; [|apply binary_round_sign].
    apply binary_round_mag_ge; [exact Vx | exact He | lia].
Qed.

Lemma SFleb_finite_refl s m e :
  SFleb (S754_finite s m e) (S754_finite s m e) = true.
Proof.
  destruct s; [rewrite SFleb_neg_finite|]; apply SFleb_pos_refl.
Qed.

(** Adding a number that is not positive never gives more. *)
Lemma SFadd_le_left sx mx ex y :
  bounded prec emax mx ex = true -> valid_binary y = true ->
  SF_sign_or_zero true y -> y <> S754_nan ->
  SFleb (SFadd prec emax (S754_finite sx mx ex) y) (S754_finite sx mx ex) = true.
Proof.
  intros Vx Vy Sy Ny.
  destruct y as [sy|sy| |sy my ey]; cbn in Sy; try congruence; subst;
    cbn [SFadd].
  - apply SFleb_finite_refl.
  - destruct sx; reflexivity.
  - apply binary_normalize_le; [exact Vx | lia|].
    rewrite !shl_align_fst by lia. cbn [cond_Zopp]. lia.
Qed.

(** Adding a number that is not negative never gives less. *)
Lemma SFadd_ge_left_any sx mx ex y :
  bounded prec emax mx ex = true -> valid_binary y = true ->
  SF_sign_or_zero false y -> y <> S754_nan ->
  SFleb (S754_finite sx mx ex) (SFadd prec emax (S754_finite sx mx ex) y) = true.
Proof.
  intros Vx Vy Sy Ny.
  destruct y as [sy|sy| |sy my ey]; cbn in Sy; try congruence; subst;
    cbn [SFadd].
  - apply SFleb_finite_refl.
  - destruct sx; reflexivity.
  - apply binary_normalize_ge; [exact Vx | lia|].
    rewrite !shl_align_fst by lia. cbn [cond_Zopp]. lia.
Qed.

(** Subtracting a number that is not negative never gives more. *)
Lemma SFsub_le_left sx mx ex y :
  bounded prec emax mx ex = true -> valid_binary y = true ->
  SF_sign_or_zero false y -> y <> S754_nan ->
  SFleb (SFsub prec emax (S754_finite sx mx ex) y) (S754_finite sx mx ex) = true.
Proof.
  intros Vx Vy Sy Ny.
  destruct y as [sy|sy| |sy my ey]; cbn in Sy; try congruence; subst;
    cbn [SFsub].
  - apply SFleb_finite_refl.
  - cbn [negb]. destruct sx; reflexivity.
  - apply binary_normalize_le; [exact Vx | lia|].
    rewrite !shl_align_fst by lia. cbn [cond_Zopp]. lia.
Qed.

(** Multiplying a normal positive number by a positive number that is at
    most 1 never gives more. *)
Lemma SFmul_le_left mp ep my ey :
  bounded prec emax mp ep = true -> emin < ep ->
  bounded prec emax my ey = true ->
  SFleb (S754_finite false my ey) (S754_finite false 4503599627370496 (-52)) = true ->
  SFleb (SFmul prec emax (S754_finite false mp ep) (S754_finite false my ey))
        (S754_finite false mp ep) = true.
Proof.
  intros Vp Hn Vy Hy. cbn [SFmul xorb].
  pose proof (bounded_normal mp ep Vp Hn) as Hmp.
  pose proof (bounded_mantissa my ey Vy) as Hmy.
  apply SFleb_pos_finite in Hy.
  apply mag_le_leb; [|apply binary_round_aux_sign].
  assert (Hle : Zpos my <= 2 ^ (- ey)).
  { destruct Hy as [Hlt|[-> Hm]].
    - assert (2 ^ 53 <= 2 ^ (- ey)) by (apply Z.pow_le_mono_r; lia). lia.
    - exact Hm. }
  apply binary_round_aux_mag_le; [exact Vp | lia | |].
  - pose proof (digits2_pos_bounds (mp * my)) as [_ Dhi].
    pose proof (fexp_ge_sub (Zpos (digits2_pos (mp * my)) + (ep + ey))) as Hf.
    assert (53 <= Zpos (digits2_pos (mp * my))).
    { destruct (Z.le_gt_cases 53 (Zpos (digits2_pos (mp * my)))) as [|Hd];
        [assumption|].
      assert (2 ^ Zpos (digits2_pos (mp * my)) <= 2 ^ 52)
        by (apply Z.pow_le_mono_r; lia).
      change (2 ^ 52) with 4503599627370496 in *. nia. }
    lia.
  - replace (ep - (ep + ey)) with (- ey) by lia.
    rewrite Pos2Z.inj_mul. nia.
Qed.

(** Adding a number that is not negative to a positive one never gives
    less, unless the number added is NaN. *)
Lemma SFadd_ge_left mc ec y :
  bounded prec emax mc ec = true ->
  valid_binary y = true -> SF_sign_or_zero false y ->
  y = S754_nan \/
  SFleb (S754_finite false mc ec)
        (SFadd prec emax (S754_finite false mc ec) y) = true.
Proof.
  intros Vc Vy Sy.
  destruct y as [sy|sy| |sy my ey] eqn:Ey; [right|right|left; reflexivity|right];
    rewrite <- Ey in *; apply SFadd_ge_left_any; try assumption;
    rewrite Ey; discriminate.
Qed.

(** Multiplying a normal positive number by a number that is at least 1
    never gives less. *)
Lemma SFmul_ge_left mc ec y :
  bounded prec emax mc ec = true -> emin < ec ->
  valid_binary y = true ->
  SFleb (S754_finite false 4503599627370496 (-52)) y = true ->
  SFleb (S754_finite false mc ec)
        (SFmul prec emax (S754_finite false mc ec) y) = true.
Proof.
  intros Vc Hn Vy Hy.
  pose proof (bounded_normal mc ec Vc Hn) as Hmc.
  destruct y as [sy|[|]| |[|] my ey]; try discriminate; cbn [SFmul xorb].
  - reflexivity.
  - apply SFleb_pos_finite in Hy.
    assert (Hmy : 2 ^ 52 <= Zpos my < 2 ^ 53).
    { apply (bounded_normal my ey Vy). unfold SpecFloat.emin, prec, emax. lia. }
    apply mag_ge_leb; [|apply binary_round_aux_sign].
    assert (Hd : ec + ey
                 <= fexp prec emax (Zpos (digits2_pos (mc * my)) + (ec + ey))).
    { pose proof (digits2_pos_bounds (mc * my)) as [_ Dhi].
      pose proof (fexp_ge_sub (Zpos (digits2_pos (mc * my)) + (ec + ey))) as Hf.
      assert (53 <= Zpos (digits2_pos (mc * my))).
      { destruct (Z.le_gt_cases 53 (Zpos (digits2_pos (mc * my)))) as [|Hd];
          [assumption|].
        assert (2 ^ Zpos (digits2_pos (mc * my)) <= 2 ^ 52)
          by (apply Z.pow_le_mono_r; lia).
        change (2 ^ 52) with 4503599627370496 in *. nia. }
      lia. }
    destruct (Z.le_gt_cases ey 0) as [He|He].
    + apply binary_round_aux_mag_ge; [exact Vc | lia |].
      replace (ec - (ec + ey)) with (- ey) by lia.
      assert (2 ^ (- ey) <= Zpos my).
      { destruct Hy as [Hlt|[<- Hm]]; [|exact Hm].
        assert (2 ^ (- ey) <= 2 ^ 52) by (apply Z.pow_le_mono_r; lia). lia. }
      assert (0 < 2 ^ (- ey)) by (apply Z.pow_pos_nonneg; lia).
      rewrite Pos2Z.inj_mul. nia.
    + apply binary_round_aux_mag_ge_high; [exact Vc | lia | exact Hd].
Qed.

(* ================================================================== *)
(** * The synthetic volume, bounded *)
(* ================================================================== *)

Local Open Scope float_scope.

Lemma Prim2SF_1e6 : Prim2SF 1000000 = S754_finite false 8589934592000000 (-33).
Proof. vm_compute. reflexivity. Qed.

Lemma abs_nonneg (x : float) : SF_has_sign false (Prim2SF (abs x)).
Proof. rewrite abs_spec. destruct (Prim2SF x); cbn; auto. Qed.

(** The operand of [int] is NaN or at least 1,000,000. *)
Lemma volume_operand_ge (shock : float) :
  Prim2SF (1000000 * (1 + abs shock)) = S754_nan \/
  SFleb (S754_finite false 8589934592000000 (-33))
        (Prim2SF (1000000 * (1 + abs shock))) = true.
Proof.
  rewrite mul_spec, Prim2SF_1e6.
  pose proof (Prim2SF_valid (1 + abs shock)) as Hv.
  rewrite add_spec, Prim2SF_1 in *.
  destruct (SFadd_ge_left 4503599627370496 (-52) (Prim2SF (abs shock)))
    as [Hn|Hge].
  - reflexivity.
  - apply Prim2SF_valid.
  - apply SF_has_sign_or_zero, abs_nonneg.
  - left. unfold SF64add. rewrite Hn. reflexivity.
  - right. apply SFmul_ge_left.
    + reflexivity.
    + unfold SpecFloat.emin, prec, emax. lia.
    + exact Hv.
    + exact Hge.
Qed.

Local Open Scope Z_scope.

Lemma trunc_mag_ge_million m e :
  bounded prec emax m e = true ->
  SFleb (S754_finite false 8589934592000000 (-33)) (S754_finite false m e) = true ->
  1000000 <= trunc_mag m e.
Proof.
  intros Hv Hle. apply SFleb_pos_finite in Hle.
  assert (Hm : 2 ^ 52 <= Zpos m < 2 ^ 53).
  { apply (bounded_normal m e Hv). unfold SpecFloat.emin, prec, emax. lia. }
  change (2 ^ 52) with 4503599627370496 in Hm.
  unfold trunc_mag. destruct (Z.leb_spec 0 e) as [He|He].
  - assert (1 <= 2 ^ e) by (apply (Z.pow_le_mono_r 2 0 e); lia). nia.
  - assert (Hp : 0 < 2 ^ (- e)) by (apply Z.pow_pos_nonneg; lia).
    apply Z.div_le_lower_bound; [exact Hp|].
    destruct Hle as [Hlt|[<- Hmm]].
    + assert (2 ^ (- e) <= 2 ^ 32) by (apply Z.pow_le_mono_r; lia).
      change (2 ^ 32) with 4294967296 in *. lia.
    + change (2 ^ (- -33)) with 8589934592. lia.
Qed.

(** [int(1_000_000 * (1 + abs(shock)))] gives at least 1,000,000, or raises
    one of the two errors of [int]. *)
Lemma synthetic_volume_cases (shock : float) :
  match synthetic_volume shock with
  | Ok v => 1000000 <= v
  | Raise e => e = ValueError \/ e = OverflowError
  end.
Proof.
  unfold synthetic_volume, py_int.
  pose proof (Prim2SF_valid (1000000 * (1 + abs shock))%float) as Hv.
  destruct (volume_operand_ge shock) as [Hn|Hge].
  - rewrite Hn. left. reflexivity.
  - destruct (Prim2SF (1000000 * (1 + abs shock))%float) as [s|s| |s m e];
      try discriminate.
    + right. reflexivity.
    + destruct s; [discriminate|]. cbn [cond_Zopp].
      apply trunc_mag_ge_million; assumption.
Qed.

Lemma snapshot_rows_keys assets _last g snap _last' g' :
  live_over assets _last g = Ok (snap, _last', g') ->
  dict_keys (snap_assets snap) = dict_keys assets.
Proof.
  intros E.
  destruct (live_over_inv _ _ _ _ _ _ E)
    as (t & rets & det & label & conf & s1 & s2 & s3 & s4 & rows
        & Hsim & Hrets & _ & _ & _ & _ & _ & _ & Hrows & -> & ->).
  cbn [snap_assets]. eapply Forall2_keys. eapply asset_rows_inv. exact Hrows.
Qed.

(** X11: a synthetic volume that is produced is at least 1,000,000,
    whatever the draw. *)
Theorem volume_at_least_a_million (shock : float) (v : Z) :
  synthetic_volume shock = Ok v -> 1000000 <= v.
Proof.
  intros H. pose proof (synthetic_volume_cases shock) as Hc.
  rewrite H in Hc. exact Hc.
Qed.

Lemma volume_at_least_a_million_witness :
  synthetic_volume 0.3%float = Ok 1300000 /\ 1000000 <= 1300000.
Proof.
  split; [vm_compute; reflexivity|].
  apply (volume_at_least_a_million 0.3%float 1300000). vm_compute. reflexivity.
Defined.

(** X12: every asset row of a response reports a volume of at least
    1,000,000. *)
Theorem response_volumes_at_least_a_million (_last : dict float) (g : rng)
    (snap : snapshot) (_last' : dict float) (g' : rng) :
  live _last g = Ok (snap, _last', g') ->
  Forall (fun kv => 1000000 <= row_volume (snd kv)) (snap_assets snap).
Proof.
  intros E. apply Forall_forall. intros [a row] Hin.
  destruct (In_nth_error _ _ Hin) as [i Hi].
  assert (Hk : nth_error (dict_keys ASSETS) i = Some a).
  { rewrite <- (snapshot_rows_keys _ _ _ _ _ _ E). unfold dict_keys.
    rewrite nth_error_map, Hi. reflexivity. }
  destruct (tick_of_asset _ _ _ _ _ _ ASSETS_keys_NoDup E i a Hk)
    as (info & p & np & r & v & row' & rets & t
        & _ & _ & _ & _ & _ & Hv & Hrow & _ & Heq & _).
  rewrite Hi in Hrow. injection Hrow as <-.
  rewrite Heq. cbn [snd row_volume].
  pose proof (synthetic_volume_cases (draws g (cursor g + 3 * i + 1)%nat)) as Hc.
  rewrite Hv in Hc. exact Hc.
Qed.

Lemma response_volumes_at_least_a_million_witness :
  Forall (fun kv => 1000000 <= row_volume (snd kv)) (snap_assets sample_snapshot).
Proof.
  apply (response_volumes_at_least_a_million initial_last sample_rng
           sample_snapshot sample_last sample_rng_after).
  exact sample_tick_returns.
Defined.

(* ================================================================== *)
(** * Percentages *)
(* ================================================================== *)

(** ** Multiplying by 100 *)

Local Open Scope Z_scope.

(** The product of a normal positive number of moderate exponent with 100:
    the mantissa [25 m], shifted by 4 or by 5 bits and rounded. *)
Lemma SFmul100_normal m e :
  2 ^ 52 <= Zpos m < 2 ^ 53 -> -900 <= e <= 900 ->
  exists q e',
    SF64mul (S754_finite false m e) SF_100 = S754_finite false (Z.to_pos q) e' /\
    2 ^ 52 <= q < 2 ^ 53 /\
    ((e' = e + 6 /\ 16 * q - 16 <= 25 * Zpos m < 16 * q + 16) \/
     (e' = e + 7 /\ 32 * q - 32 <= 25 * Zpos m < 32 * q + 32)).
Proof.
  intros Hm He.
  unfold SF64mul, SF_100, SFmul. cbn [xorb].
  set (M := (m * 7036874417766400)%positive).
  assert (HM : Zpos M = Zpos m * 7036874417766400) by (unfold M; lia).
  change (2 ^ 52) with 4503599627370496 in *.
  change (2 ^ 53) with 9007199254740992 in *.
  destruct (Z.ltb_spec (Zpos M) (2 ^ 105)) as [Hlt|Hge].
  - destruct (binary_round_aux_long false M (e + -46) loc_Exact 52) as (q & Hq & Hr & ->).
    + apply digits2_pos_unique. change (2 ^ (53 + 52 - 1)) with 20282409603651670423947251286016.
      change (2 ^ (53 + 52)) with (2 ^ 105). lia.
    + lia.
    + unfold SpecFloat.emin, prec, emax. lia.
    + unfold prec, emax. lia.
    + change (2 ^ 105) with 40564819207303340847894502572032 in Hlt.
      change (2 ^ 52) with 4503599627370496 in *.
      change (2 ^ 53) with 9007199254740992 in *.
      pose proof (Z.mul_div_le (Zpos M) 4503599627370496 eq_refl).
      pose proof (Z.mul_succ_div_gt (Zpos M) 4503599627370496 eq_refl).
      destruct (Z.ltb_spec q 9007199254740992).
      * exists q, (e + -46 + 52). split; [reflexivity|]. split; [lia|]. left. lia.
      * exists 4503599627370496, (e + -46 + 52 + 1).
        split; [reflexivity|]. split; [lia|]. right. lia.
  - destruct (binary_round_aux_long false M (e + -46) loc_Exact 53) as (q & Hq & Hr & ->).
    + apply digits2_pos_unique. change (53 + 53 - 1) with 105.
      change (2 ^ (53 + 53)) with 81129638414606681695789005144064.
      split; [lia|].
      change (2 ^ 105) with 40564819207303340847894502572032 in Hge. lia.
    + lia.
    + unfold SpecFloat.emin, prec, emax. lia.
    + unfold prec, emax. lia.
    + change (2 ^ 105) with 40564819207303340847894502572032 in Hge.
      change (2 ^ 52) with 4503599627370496 in *.
      change (2 ^ 53) with 9007199254740992 in *.
      pose proof (Z.mul_div_le (Zpos M) 9007199254740992 eq_refl).
      pose proof (Z.mul_succ_div_gt (Zpos M) 9007199254740992 eq_refl).
      destruct (Z.ltb_spec q 9007199254740992).
      * exists q, (e + -46 + 53). split; [reflexivity|]. split; [lia|]. right. lia.
      * exfalso. lia.
Qed.

Lemma SFltb_pos_finite a ea b eb :
  SFltb (S754_finite false a ea) (S754_finite false b eb) = true <->
  ea < eb \/ (ea = eb /\ Zpos a < Zpos b).
Proof.
  unfold SFltb; simpl. fold (Pos.compare a b).
  destruct (Z.compare_spec ea eb); destruct (Pos.compare_spec a b);
    split; intros; try reflexivity; try discriminate; lia.
Qed.

(** Read a float constant as its sign, mantissa and exponent. *)
Ltac sf_of c :=
  let v := eval vm_compute in (Prim2SF c) in
  replace (Prim2SF c) with v in * by (vm_compute; reflexivity).

(** Bounds on [x * 100] from bounds on the mantissa and exponent of [x]. *)
Ltac mul100_lia m e Hv :=
  let Hm := fresh "Hm" in
  assert (Hm : 2 ^ 52 <= Zpos m < 2 ^ 53)
    by (apply (bounded_normal m e Hv); unfold SpecFloat.emin, prec, emax; lia);
  let q := fresh "q" in
  let e' := fresh "e'" in
  let Hq := fresh "Hq" in
  let Hc := fresh "Hc" in
  destruct (SFmul100_normal m e Hm ltac:(lia)) as (q & e' & -> & Hq & Hc);
  change (2 ^ 52) with 4503599627370496 in *;
  change (2 ^ 53) with 9007199254740992 in *;
  rewrite ?SFleb_pos_finite; rewrite ?Z2Pos.id by lia; lia.

Ltac positive_finite x Hv Hlo Hhi m e :=
  pose proof (Prim2SF_valid x) as Hv;
  destruct (Prim2SF x) as [?|[|]| |[|] m e];
  try discriminate Hlo; try discriminate Hhi.

Local Open Scope float_scope.

Lemma mul100_ge_60 (p : float) :
  (0.6 <=? p) = true -> (p <=? 0.95) = true -> (60 <=? p * 100) = true.
Proof.
  rewrite !leb_spec, mul_spec, Prim2SF_100. sf_of 0.6. sf_of 0.95. sf_of 60.
  intros Hlo Hhi. positive_finite p Hv Hlo Hhi m e.
  apply SFleb_pos_finite in Hlo, Hhi.
  destruct (Z.eq_dec (Zpos m) 5404319552844595) as [Em|Em];
    [destruct (Z.eq_dec e (-53)) as [Ee|Ee]|].
  - injection Em as ->. subst e. vm_compute. reflexivity.
  - mul100_lia m e Hv.
  - mul100_lia m e Hv.
Qed.

Lemma mul100_le_40 (p : float) :
  (0.05 <=? p) = true -> (p <=? 0.4) = true -> (p * 100 <=? 40) = true.
Proof.
  rewrite !leb_spec, mul_spec, Prim2SF_100. sf_of 0.05. sf_of 0.4. sf_of 40.
  intros Hlo Hhi. positive_finite p Hv Hlo Hhi m e.
  apply SFleb_pos_finite in Hlo, Hhi.
  destruct (Z.eq_dec (Zpos m) 7205759403792794) as [Em|Em];
    [destruct (Z.eq_dec e (-54)) as [Ee|Ee]|].
  - injection Em as ->. subst e. vm_compute. reflexivity.
  - mul100_lia m e Hv.
  - mul100_lia m e Hv.
Qed.

Lemma mul100_between_40_60 (p : float) :
  (0.4 <? p) = true -> (p <? 0.6) = true ->
  (40 <=? p * 100) = true /\ (p * 100 <=? 60) = true.
Proof.
  rewrite !ltb_spec, !leb_spec, mul_spec, Prim2SF_100.
  sf_of 0.4. sf_of 0.6. sf_of 40. sf_of 60.
  intros Hlo Hhi. positive_finite p Hv Hlo Hhi m e.
  apply SFltb_pos_finite in Hlo, Hhi.
  split; mul100_lia m e Hv.
Qed.

Lemma mul100_ge_45 (c : float) :
  (0.45 <=? c) = true -> (c <=? 0.95) = true -> (45 <=? c * 100) = true.
Proof.
  rewrite !leb_spec, mul_spec, Prim2SF_100. sf_of 0.45. sf_of 0.95. sf_of 45.
  intros Hlo Hhi. positive_finite c Hv Hlo Hhi m e.
  apply SFleb_pos_finite in Hlo, Hhi.
  mul100_lia m e Hv.
Qed.

Lemma mul100_ge_55 (c : float) :
  (0.55 <=? c) = true -> (c <=? 0.95) = true -> (55 <=? c * 100) = true.
Proof.
  rewrite !leb_spec, mul_spec, Prim2SF_100. sf_of 0.55. sf_of 0.95. sf_of 55.
  intros Hlo Hhi. positive_finite c Hv Hlo Hhi m e.
  apply SFleb_pos_finite in Hlo, Hhi.
  mul100_lia m e Hv.
Qed.

Lemma mul100_le_75 (c : float) :
  (0.45 <=? c) = true -> (c <=? 0.75) = true -> (c * 100 <=? 75) = true.
Proof.
  rewrite !leb_spec, mul_spec, Prim2SF_100. sf_of 0.45. sf_of 0.75. sf_of 75.
  intros Hlo Hhi. positive_finite c Hv Hlo Hhi m e.
  apply SFleb_pos_finite in Hlo, Hhi.
  destruct (Z.eq_dec (Zpos m) 6755399441055744) as [Em|Em];
    [destruct (Z.eq_dec e (-53)) as [Ee|Ee]|].
  - injection Em as ->. subst e. vm_compute. reflexivity.
  - mul100_lia m e Hv.
  - mul100_lia m e Hv.
Qed.

(** ** Rounding to one decimal *)

Local Open Scope float_scope.

Lemma tenths_table : tenths_nondecreasing = true.
Proof. vm_compute. reflexivity. Qed.

Lemma tenths_step (n : Z) :
  (50 <= n < 950)%Z -> (tenths n <=? tenths (n + 1)) = true.
Proof.
  intros Hn. pose proof tenths_table as T. unfold tenths_nondecreasing in T.
  rewrite forallb_forall in T.
  specialize (T (Z.to_nat (n - 50))).
  replace (50 + Z.of_nat (Z.to_nat (n - 50)))%Z with n in T by lia.
  apply T. apply in_seq. lia.
Qed.

Lemma tenths_not_nan (n : Z) : (50 <= n <= 950)%Z -> is_nan (tenths n) = false.
Proof.
  intros Hn. destruct (Z.eq_dec n 950) as [->|Hne].
  - apply (leb_not_nan (tenths 949) (tenths (949 + 1))). apply tenths_step. lia.
  - apply (leb_not_nan (tenths n) (tenths (n + 1))). apply tenths_step. lia.
Qed.

Lemma tenths_mono (k : nat) : forall n : Z,
  (50 <= n)%Z -> (n + Z.of_nat k <= 950)%Z ->
  (tenths n <=? tenths (n + Z.of_nat k)) = true.
Proof.
  induction k as [|k IH]; intros n Hlo Hhi.
  - rewrite Z.add_0_r. apply leb_refl_not_nan, tenths_not_nan. lia.
  - apply leb_trans with (tenths (n + 1)).
    + apply tenths_step. lia.
    + replace (n + Z.of_nat (S k))%Z with (n + 1 + Z.of_nat k)%Z by lia.
      apply IH; lia.
Qed.

(** [round(y, 1)] stays between two bounds that are themselves whole
    numbers of tenths. *)
Lemma py_round_1_between (y L H : float) (lo hi : Z)
    (mL : positive) (eL : Z) (mH : positive) (eH : Z) :
  (50 <= lo)%Z -> (hi <= 950)%Z ->
  tenths lo = L -> tenths hi = H ->
  Prim2SF L = S754_finite false mL eL -> Prim2SF H = S754_finite false mH eH ->
  (-900 < eL)%Z -> (eH < 0)%Z ->
  (10 * Zpos mL = lo * 2 ^ (- eL))%Z -> (10 * Zpos mH = hi * 2 ^ (- eH))%Z ->
  (L <=? y) = true -> (y <=? H) = true ->
  (L <=? py_round y 1) = true /\ (py_round y 1 <=? H) = true.
Proof.
  intros Hlo50 Hhi950 TL TH PL PH HeL HeH XL XH Hlo Hhi.
  pose proof (Prim2SF_valid y) as Hv.
  pose proof (Prim2SF_valid L) as HvL. pose proof (Prim2SF_valid H) as HvH.
  pose proof Hlo as Hlo'. pose proof Hhi as Hhi'.
  rewrite leb_spec, PL in Hlo'. rewrite leb_spec, PH in Hhi'.
  rewrite PL in HvL. rewrite PH in HvH.
  unfold py_round.
  destruct (Prim2SF y) as [s|[|]| |[|] m e];
    try discriminate Hlo'; try discriminate Hhi'.
  apply SFleb_pos_finite in Hlo', Hhi'.
  cbn [valid_binary] in Hv, HvL, HvH.
  assert (Hm : (2 ^ 52 <= Zpos m < 2 ^ 53)%Z).
  { apply (bounded_normal m e Hv). unfold SpecFloat.emin, prec, emax. lia. }
  assert (HmL : (Zpos mL < 2 ^ 53)%Z) by (apply (bounded_mantissa mL eL HvL)).
  assert (HmH : (2 ^ 52 <= Zpos mH < 2 ^ 53)%Z).
  { apply (bounded_normal mH eH HvH). unfold SpecFloat.emin, prec, emax. lia. }
  change (2 ^ 52)%Z with 4503599627370496%Z in *.
  change (2 ^ 53)%Z with 9007199254740992%Z in *.
  destruct (Z.leb_spec 0 e) as [He|He]; [lia|].
  change (SF2Prim (SF_of_ratio false (scaled_decimal m e 1) (10 ^ Z.of_nat 1)))
    with (tenths (scaled_decimal m e 1)).
  assert (Hn : (lo <= scaled_decimal m e 1 <= hi)%Z).
  { unfold scaled_decimal. destruct (Z.leb_spec 0 e) as [He'|He']; [lia|].
    change (10 ^ Z.of_nat 1)%Z with 10%Z.
    assert (HP : (0 < 2 ^ (- e))%Z) by (apply Z.pow_pos_nonneg; lia).
    apply round_half_even_bounds; [exact HP| |].
    - destruct Hlo' as [Hlt|[Heq Hmm]].
      + assert (HK : (2 ^ 1 <= 2 ^ (e - eL))%Z) by (apply Z.pow_le_mono_r; lia).
        assert (Hsplit : (2 ^ (- eL) = 2 ^ (- e) * 2 ^ (e - eL))%Z).
        { rewrite <- Z.pow_add_r by lia. f_equal. lia. }
        rewrite Hsplit in XL. change (2 ^ 1)%Z with 2%Z in HK. nia.
      + subst e. lia.
    - destruct Hhi' as [Hlt|[Heq Hmm]].
      + assert (HK : (2 ^ 1 <= 2 ^ (eH - e))%Z) by (apply Z.pow_le_mono_r; lia).
        assert (Hsplit : (2 ^ (- e) = 2 ^ (- eH) * 2 ^ (eH - e))%Z).
        { rewrite <- Z.pow_add_r by lia. f_equal. lia. }
        assert (HPH : (0 < 2 ^ (- eH))%Z) by (apply Z.pow_pos_nonneg; lia).
        rewrite Hsplit. change (2 ^ 1)%Z with 2%Z in HK. nia.
      + subst e. lia. }
  set (n := scaled_decimal m e 1) in *.
  rewrite <- TL, <- TH. split.
  - replace n with (lo + Z.of_nat (Z.to_nat (n - lo)))%Z by lia.
    apply tenths_mono; lia.
  - replace hi with (n + Z.of_nat (Z.to_nat (hi - n)))%Z by lia.
    apply tenths_mono; lia.
Qed.

(** Solve the side conditions of [py_round_1_between] for literal bounds. *)
Ltac round1_between lo hi :=
  eapply (py_round_1_between _ _ _ lo hi);
  [lia | lia | vm_compute; reflexivity | vm_compute; reflexivity
  | vm_compute; reflexivity | vm_compute; reflexivity
  | lia | lia | reflexivity | reflexivity | assumption | assumption].

Lemma py_round_1_60_95 (y : float) :
  (60 <=? y) = true -> (y <=? 95) = true ->
  (60 <=? py_round y 1) = true /\ (py_round y 1 <=? 95) = true.
Proof. intros. round1_between 600%Z 950%Z. Qed.

Lemma py_round_1_5_40 (y : float) :
  (5 <=? y) = true -> (y <=? 40) = true ->
  (5 <=? py_round y 1) = true /\ (py_round y 1 <=? 40) = true.
Proof. intros. round1_between 50%Z 400%Z. Qed.

Lemma py_round_1_40_60 (y : float) :
  (40 <=? y) = true -> (y <=? 60) = true ->
  (40 <=? py_round y 1) = true /\ (py_round y 1 <=? 60) = true.
Proof. intros. round1_between 400%Z 600%Z. Qed.

Lemma py_round_1_45_75 (y : float) :
  (45 <=? y) = true -> (y <=? 75) = true ->
  (45 <=? py_round y 1) = true /\ (py_round y 1 <=? 75) = true.
Proof. intros. round1_between 450%Z 750%Z. Qed.

Lemma py_round_1_55_95 (y : float) :
  (55 <=? y) = true -> (y <=? 95) = true ->
  (55 <=? py_round y 1) = true /\ (py_round y 1 <=? 95) = true.
Proof. intros. round1_between 550%Z 950%Z. Qed.

(* ================================================================== *)
(** * Confidences *)
(* ================================================================== *)

Local Open Scope float_scope.

Lemma nleb_ltb (a b : float) :
  is_nan a = false -> is_nan b = false -> (a <=? b) = false -> (b <? a) = true.
Proof.
  intros Na Nb H. destruct (b <? a) eqn:E; [reflexivity|].
  apply (nlt_iff_leb b a Nb Na) in E. congruence.
Qed.

(** The probability [_signal] ends with lies in [[0.05, 0.95]]. *)
Lemma signal_p_up_bounds (asset : string) (ret_1h : float) (vol_spike : bool)
    (regime : string) :
  (0.05 <=? _signal_p_up asset ret_1h vol_spike regime) = true /\
  (_signal_p_up asset ret_1h vol_spike regime <=? 0.95) = true.
Proof. unfold _signal_p_up. apply clamp_bounds. reflexivity. Qed.

(** X13: the confidence of a signal agrees with its action: at least 60
    for BUY, at most 40 for SELL, between 40 and 60 for HOLD, and within
    [[5, 95]] in every case. *)
Theorem signal_confidence_matches_action (asset : string) (ret_1h : float)
    (vol_spike : bool) (regime : string) :
  let s := _signal asset ret_1h vol_spike regime in
  (sig_action s = "BUY" ->
   (60 <=? sig_confidence s) = true /\ (sig_confidence s <=? 95) = true) /\
  (sig_action s = "SELL" ->
   (5 <=? sig_confidence s) = true /\ (sig_confidence s <=? 40) = true) /\
  (sig_action s = "HOLD" ->
   (40 <=? sig_confidence s) = true /\ (sig_confidence s <=? 60) = true).
Proof.
  intros s. subst s. unfold _signal. cbn [sig_action sig_confidence].
  destruct (signal_p_up_bounds asset ret_1h vol_spike regime) as [Hlo Hhi].
  set (p := _signal_p_up asset ret_1h vol_spike regime) in *.
  destruct (leb_not_nan _ _ Hlo) as [_ Np].
  destruct (0.60 <=? p) eqn:Ebuy; [|destruct (p <=? 0.40) eqn:Esell].
  - split; [|split; discriminate]. intros _.
    apply py_round_1_60_95.
    + apply mul100_ge_60; assumption.
    + apply mul100_bounds; assumption.
  - split; [discriminate|]. split; [|discriminate]. intros _.
    apply py_round_1_5_40.
    + apply mul100_bounds; assumption.
    + apply mul100_le_40; assumption.
  - split; [discriminate|]. split; [discriminate|]. intros _.
    assert (H1 : (p <? 0.6) = true) by (apply nleb_ltb; auto).
    assert (H2 : (0.4 <? p) = true) by (apply nleb_ltb; auto).
    destruct (mul100_between_40_60 p H2 H1).
    apply py_round_1_40_60; assumption.
Qed.

(** The sum of absolute values that [_regime] scales is not negative. *)
Lemma regime_term_nonneg (k a b c : float) :
  SF_has_sign false (Prim2SF k) ->
  SF_has_sign false (Prim2SF (k * (abs a + abs b + abs c))).
Proof.
  intros Hk. rewrite mul_spec, !add_spec.
  apply SFmul_nonneg; [exact Hk|].
  apply SFadd_nonneg; [apply SFadd_nonneg|]; apply abs_nonneg.
Qed.

Lemma regime_term2_nonneg (k a b : float) :
  SF_has_sign false (Prim2SF k) ->
  SF_has_sign false (Prim2SF (k * (abs a + abs b))).
Proof.
  intros Hk. rewrite mul_spec, !add_spec.
  apply SFmul_nonneg; [exact Hk|].
  apply SFadd_nonneg; apply abs_nonneg.
Qed.

(** A base plus a non-negative term, capped: the result lies between the
    base and the cap, also when the sum overflows or is NaN. *)
Lemma capped_sum_bounds (cap c z : float) (mc : positive) (ec : Z) :
  Prim2SF c = S754_finite false mc ec ->
  SF_has_sign false (Prim2SF z) -> (c <=? cap) = true ->
  (c <=? py_min cap (c + z)) = true /\ (py_min cap (c + z) <=? cap) = true.
Proof.
  intros Pc Hz Hcap. unfold py_min.
  destruct (c + z <? cap) eqn:E.
  - split; [|apply ltb_leb; exact E].
    pose proof (Prim2SF_valid c) as Vc. rewrite Pc in Vc. cbn [valid_binary] in Vc.
    destruct (SFadd_ge_left mc ec (Prim2SF z) Vc (Prim2SF_valid z)
                (SF_has_sign_or_zero _ _ Hz)) as [Hnan|Hge].
    + rewrite ltb_spec, add_spec, Pc in E. unfold SF64add in E.
      rewrite Hnan in E. discriminate.
    + rewrite leb_spec, add_spec, Pc. exact Hge.
  - split; [exact Hcap|].
    apply leb_refl_not_nan. apply (leb_not_nan _ _ Hcap).
Qed.

(** The confidence of [_regime]: what it is by label, before it is shown
    as a percentage. *)
Lemma regime_conf_by_label (spy btc tlt gld : float) :
  let r := _regime spy btc tlt gld in
  (fst r = "TRANSITION" /\ (0.45 <=? snd r) = true /\ (snd r <=? 0.75) = true) \/
  ((fst r = "RISK-ON" \/ fst r = "RISK-OFF") /\
   (0.55 <=? snd r) = true /\ (snd r <=? 0.95) = true).
Proof.
  unfold _regime.
  assert (H8 : SF_has_sign false (Prim2SF 0.08)) by (vm_compute; reflexivity).
  assert (H4 : SF_has_sign false (Prim2SF 0.04)) by (vm_compute; reflexivity).
  destruct ((0 <? spy) && (0 <? btc) && (tlt <? 0));
    [|destruct ((0 <? tlt) && (0 <? gld) && (spy <? 0))]; cbn [fst snd].
  - right. split; [left; reflexivity|].
    apply (capped_sum_bounds 0.95 0.55 _ 4953959590107546 (-53));
      [vm_compute; reflexivity | apply regime_term_nonneg; exact H8
      | reflexivity].
  - right. split; [right; reflexivity|].
    apply (capped_sum_bounds 0.95 0.55 _ 4953959590107546 (-53));
      [vm_compute; reflexivity | apply regime_term_nonneg; exact H8
      | reflexivity].
  - left. split; [reflexivity|].
    apply (capped_sum_bounds 0.75 0.45 _ 8106479329266893 (-54));
      [vm_compute; reflexivity | apply regime_term2_nonneg; exact H4
      | reflexivity].
Qed.

Lemma shown_45_75 (c : float) :
  (0.45 <=? c) = true -> (c <=? 0.75) = true ->
  (45 <=? py_round (c * 100) 1) = true /\ (py_round (c * 100) 1 <=? 75) = true.
Proof.
  intros Hlo Hhi. apply py_round_1_45_75.
  - apply mul100_ge_45; [exact Hlo|].
    apply leb_trans with 0.75; [exact Hhi | reflexivity].
  - apply mul100_le_75; assumption.
Qed.

Lemma shown_55_95 (c : float) :
  (0.55 <=? c) = true -> (c <=? 0.95) = true ->
  (55 <=? py_round (c * 100) 1) = true /\ (py_round (c * 100) 1 <=? 95) = true.
Proof.
  intros Hlo Hhi. apply py_round_1_55_95.
  - apply mul100_ge_55; assumption.
  - apply mul100_bounds; [|exact Hhi].
    apply leb_trans with 0.55; [reflexivity | exact Hlo].
Qed.

(** X14: whatever the four returns are, NaN and infinities included, the
    confidence of [_regime] is a number between 0.45 and 0.95: at most 0.75
    for TRANSITION, at least 0.55 for RISK-ON and RISK-OFF; shown as a
    percentage with one decimal it lies in [[45, 75]], respectively
    [[55, 95]]. *)
Theorem regime_confidence_bounds (spy_ret btc_ret tlt_ret gld_ret : float) :
  let r := _regime spy_ret btc_ret tlt_ret gld_ret in
  let shown := py_round (snd r * 100) 1 in
  (0.45 <=? snd r) = true /\ (snd r <=? 0.95) = true /\
  (fst r = "TRANSITION" ->
   (snd r <=? 0.75) = true /\ (45 <=? shown) = true /\ (shown <=? 75) = true) /\
  (fst r = "RISK-ON" \/ fst r = "RISK-OFF" ->
   (0.55 <=? snd r) = true /\ (55 <=? shown) = true /\ (shown <=? 95) = true).
Proof.
  intros r shown.
  destruct (regime_conf_by_label spy_ret btc_ret tlt_ret gld_ret)
    as [(Hl & Hlo & Hhi)|(Hl & Hlo & Hhi)]; fold r in Hl, Hlo, Hhi.
  - split; [exact Hlo|]. split.
    { apply leb_trans with 0.75; [exact Hhi | reflexivity]. }
    split.
    + intros _. split; [exact Hhi|]. apply shown_45_75; assumption.
    + intros [H|H]; rewrite Hl in H; discriminate.
  - split.
    { apply leb_trans with 0.55; [reflexivity | exact Hlo]. }
    split; [exact Hhi|]. split.
    + intros H. destruct Hl as [Hl|Hl]; rewrite Hl in H; discriminate.
    + intros _. split; [exact Hlo|]. apply shown_55_95; assumption.
Qed.

(** The action of a signal is one of the three, its confidence within
    [[5, 95]]. *)
Lemma signal_in_range (asset : string) (ret_1h : float) (vol_spike : bool)
    (regime : string) :
  let s := _signal asset ret_1h vol_spike regime in
  In (sig_action s) ["BUY"; "SELL"; "HOLD"] /\
  (5 <=? sig_confidence s) = true /\ (sig_confidence s <=? 95) = true.
Proof.
  intros s. subst s. unfold _signal. cbn [sig_action sig_confidence].
  destruct (signal_p_up_bounds asset ret_1h vol_spike regime) as [Hlo Hhi].
  split.
  - destruct (0.60 <=? _); [|destruct (_ <=? 0.40)]; cbn; auto.
  - apply py_round_1_bounds; apply mul100_bounds; assumption.
Qed.

(** X15: in every response the regime label is RISK-ON, RISK-OFF or
    TRANSITION and its confidence lies between 45 and 95; every signal is
    BUY, SELL or HOLD with a confidence between 5 and 95. *)
Theorem response_confidences_in_range (_last : dict float) (g : rng)
    (snap : snapshot) (_last' : dict float) (g' : rng) :
  live _last g = Ok (snap, _last', g') ->
  In (fst (snap_regime snap)) ["RISK-ON"; "RISK-OFF"; "TRANSITION"] /\
  (45 <=? snd (snap_regime snap)) = true /\
  (snd (snap_regime snap) <=? 95) = true /\
  Forall (fun s => In (sig_action s) ["BUY"; "SELL"; "HOLD"] /\
                   (5 <=? sig_confidence s) = true /\
                   (sig_confidence s <=? 95) = true)
         (snap_signals snap).
Proof.
  intros E.
  destruct (live_over_inv _ _ _ _ _ _ E)
    as (t & rets & det & label & conf & s1 & s2 & s3 & s4 & rows
        & _ & _ & _ & Hreg & H1 & H2 & H3 & H4 & _ & _ & ->).
  cbn [snap_regime snap_signals fst snd].
  assert (Hr : exists spy btc tlt gld, (label, conf) = _regime spy btc tlt gld).
  { unfold regime_step in Hreg.
    destruct (dict_get rets "SPY") as [spy|]; cbn [bind] in Hreg; [|discriminate].
    destruct (dict_get rets "BTC") as [btc|]; cbn [bind] in Hreg; [|discriminate].
    destruct (dict_get rets "TLT") as [tlt|]; cbn [bind] in Hreg; [|discriminate].
    destruct (dict_get rets "GLD") as [gld|]; cbn [bind] in Hreg; [|discriminate].
    injection Hreg as Hreg. exists spy, btc, tlt, gld. symmetry. exact Hreg. }
  destruct Hr as (spy & btc & tlt & gld & Hr).
  pose proof (regime_conf_by_label spy btc tlt gld) as Hc. cbv zeta in Hc.
  rewrite <- Hr in Hc. cbn [fst snd] in Hc.
  assert (Hsig : forall a sg, signal_for rets (vol_spike t) label a = Ok sg ->
            In (sig_action sg) ["BUY"; "SELL"; "HOLD"] /\
            (5 <=? sig_confidence sg) = true /\ (sig_confidence sg <=? 95) = true).
  { intros a sg Hs. destruct (signal_for_inv _ _ _ _ _ Hs) as (r & s & _ & _ & ->).
    apply signal_in_range. }
  destruct Hc as [(Hl & Hlo & Hhi)|(Hl & Hlo & Hhi)].
  - destruct (shown_45_75 conf Hlo Hhi) as [S1 S2].
    split; [rewrite Hl; cbn; auto|]. split; [exact S1|]. split.
    + apply leb_trans with 75; [exact S2 | reflexivity].
    + repeat (apply Forall_cons; [eapply Hsig; eassumption|]). apply Forall_nil.
  - destruct (shown_55_95 conf Hlo Hhi) as [S1 S2].
    split; [destruct Hl as [-> | ->]; cbn; auto|]. split.
    + apply leb_trans with 55; [reflexivity | exact S1].
    + split; [exact S2|].
      repeat (apply Forall_cons; [eapply Hsig; eassumption|]). apply Forall_nil.
Qed.

Lemma response_confidences_in_range_witness :
  In (fst (snap_regime sample_snapshot)) ["RISK-ON"; "RISK-OFF"; "TRANSITION"] /\
  (45 <=? snd (snap_regime sample_snapshot)) = true /\
  (snd (snap_regime sample_snapshot) <=? 95) = true /\
  Forall (fun s => In (sig_action s) ["BUY"; "SELL"; "HOLD"] /\
                   (5 <=? sig_confidence s) = true /\
                   (sig_confidence s <=? 95) = true)
         (snap_signals sample_snapshot).
Proof.
  apply (response_confidences_in_range initial_last sample_rng
           sample_snapshot sample_last sample_rng_after).
  exact sample_tick_returns.
Defined.

(* ================================================================== *)
(** * NaN returns *)
(* ================================================================== *)

Lemma ltb_nan_l (x y : float) : is_nan x = true -> (x <? y) = false.
Proof.
  intros H. rewrite ltb_spec, (is_nan_true_SF x H). reflexivity.
Qed.

Lemma ltb_nan_r (x y : float) : is_nan y = true -> (x <? y) = false.
Proof.
  intros H. rewrite ltb_spec, (is_nan_true_SF y H).
  unfold SFltb. destruct (Prim2SF x) as [s|s| |s m e]; reflexivity.
Qed.

(** X16: [_signal] scores a NaN return as a return of +5%: the same
    action and the same confidence. *)
Theorem signal_scores_nan_as_plus_five (asset : string) (ret_1h : float)
    (vol_spike : bool) (regime : string) :
  is_nan ret_1h = true ->
  sig_action (_signal asset ret_1h vol_spike regime)
    = sig_action (_signal asset 5 vol_spike regime) /\
  sig_confidence (_signal asset ret_1h vol_spike regime)
    = sig_confidence (_signal asset 5 vol_spike regime).
Proof.
  intros Hn.
  assert (Hp : _signal_p_up asset ret_1h vol_spike regime
               = _signal_p_up asset 5 vol_spike regime).
  { unfold _signal_p_up.
    replace (py_min 5 ret_1h) with (py_min 5 5); [reflexivity|].
    unfold py_min. rewrite (ltb_nan_l ret_1h 5 Hn). reflexivity. }
  unfold _signal. cbn [sig_action sig_confidence]. rewrite Hp. split; reflexivity.
Qed.

Lemma signal_scores_nan_as_plus_five_witness :
  sig_action (_signal "SPY" nan false "TRANSITION")
    = sig_action (_signal "SPY" 5 false "TRANSITION") /\
  sig_confidence (_signal "SPY" nan false "TRANSITION")
    = sig_confidence (_signal "SPY" 5 false "TRANSITION").
Proof.
  apply (signal_scores_nan_as_plus_five "SPY" nan false "TRANSITION").
  reflexivity.
Defined.

Lemma add_nan_l (x y : float) : is_nan x = true -> is_nan (x + y) = true.
Proof.
  intros H. unfold is_nan. rewrite FloatAxioms.eqb_spec, add_spec.
  rewrite (is_nan_true_SF x H). reflexivity.
Qed.

Lemma add_nan_r (x y : float) : is_nan y = true -> is_nan (x + y) = true.
Proof.
  intros H. unfold is_nan. rewrite FloatAxioms.eqb_spec, add_spec.
  rewrite (is_nan_true_SF y H). unfold SF64add.
  destruct (Prim2SF x) as [s|s| |s m e]; reflexivity.
Qed.

Lemma mul_nan_r (x y : float) : is_nan y = true -> is_nan (x * y) = true.
Proof.
  intros H. unfold is_nan. rewrite FloatAxioms.eqb_spec, mul_spec.
  rewrite (is_nan_true_SF y H). unfold SF64mul.
  destruct (Prim2SF x) as [s|s| |s m e]; reflexivity.
Qed.

Lemma abs_nan (x : float) : is_nan x = true -> is_nan (abs x) = true.
Proof.
  intros H. unfold is_nan. rewrite FloatAxioms.eqb_spec, abs_spec.
  rewrite (is_nan_true_SF x H). reflexivity.
Qed.

(** X17: NaN returns in [_regime]: a NaN SPY or TLT return gives
    TRANSITION; a NaN BTC return never gives RISK-ON; and a TRANSITION
    reached with a NaN SPY or BTC return carries the cap 0.75 as its
    confidence. *)
Theorem regime_of_nan_returns (spy_ret btc_ret tlt_ret gld_ret : float) :
  let r := _regime spy_ret btc_ret tlt_ret gld_ret in
  (is_nan spy_ret = true \/ is_nan tlt_ret = true -> fst r = "TRANSITION") /\
  (is_nan btc_ret = true -> fst r = "RISK-OFF" \/ fst r = "TRANSITION") /\
  (is_nan spy_ret = true \/ is_nan btc_ret = true ->
   fst r = "TRANSITION" -> snd r = 0.75).
Proof.
  intros r. subst r. unfold _regime. split; [|split].
  - intros [H|H].
    + rewrite (ltb_nan_r 0 spy_ret H), (ltb_nan_l spy_ret 0 H).
      cbn [andb]. rewrite !andb_false_r. reflexivity.
    + rewrite (ltb_nan_r 0 tlt_ret H), (ltb_nan_l tlt_ret 0 H).
      rewrite !andb_false_r. cbn [andb]. reflexivity.
  - intros H. rewrite (ltb_nan_r 0 btc_ret H). rewrite andb_false_r. cbn [andb].
    destruct ((0 <? tlt_ret) && (0 <? gld_ret) && (spy_ret <? 0)); cbn [fst]; auto.
  - intros H.
    assert (Hs : is_nan (abs spy_ret + abs btc_ret) = true).
    { destruct H as [H|H]; [apply add_nan_l | apply add_nan_r]; apply abs_nan, H. }
    destruct ((0 <? spy_ret) && (0 <? btc_ret) && (tlt_ret <? 0));
      [cbn [fst]; discriminate|].
    destruct ((0 <? tlt_ret) && (0 <? gld_ret) && (spy_ret <? 0));
      [cbn [fst]; discriminate|].
    intros _. cbn [snd]. unfold py_min.
    rewrite ltb_nan_l; [reflexivity|].
    apply add_nan_r, mul_nan_r, Hs.
Qed.

(* ================================================================== *)
(** * Prices and shocks *)
(* ================================================================== *)

(** ** An unchanged price *)

Lemma SFsub_diag_finite s m e :
  SFsub prec emax (S754_finite s m e) (S754_finite s m e) = S754_zero false.
Proof.
  unfold SFsub. rewrite Z.sub_diag. reflexivity.
Qed.

(** X18: the return of a price onto itself is zero when the price is
    finite, and NaN when it is not. *)
Theorem unchanged_price_zero_return (p : float) :
  exists r, _pct p p = Ok r /\
    (is_finite p = true -> (r =? 0) = true) /\
    (is_finite p = false -> is_nan r = true).
Proof.
  unfold _pct, py_div.
  destruct (p =? 0) eqn:E0.
  - exists 0.0. split; [reflexivity|]. split; [reflexivity|].
    intros Hf. exfalso. revert E0 Hf.
    unfold is_finite, is_nan, is_infinity.
    rewrite !FloatAxioms.eqb_spec, abs_spec, Prim2SF_infinity, Prim2SF_0.
    destruct (Prim2SF p) as [s|[|]| |[|] m e]; cbn; discriminate.
  - cbn [bind]. exists ((p - p) / p * 100). split; [reflexivity|]. split.
    + intros Hf. rewrite FloatAxioms.eqb_spec, mul_spec, div_spec, sub_spec, Prim2SF_0.
      rewrite FloatAxioms.eqb_spec, Prim2SF_0 in E0.
      destruct (is_finite_cases p Hf) as [[s Hp]|(s & m & e & Hp)]; rewrite Hp in *.
      * destruct s; discriminate.
      * unfold SF64sub. rewrite SFsub_diag_finite. rewrite Prim2SF_100.
        destruct s; reflexivity.
    + unfold is_finite, is_nan, is_infinity.
      rewrite !FloatAxioms.eqb_spec, abs_spec, Prim2SF_infinity.
      rewrite !mul_spec, !div_spec, !sub_spec, Prim2SF_100.
      rewrite FloatAxioms.eqb_spec, Prim2SF_0 in E0.
      destruct (Prim2SF p) as [s|[|]| |[|] m e]; cbn; try discriminate;
        try reflexivity;
        rewrite Z.compare_refl; fold (Pos.compare m m);
        rewrite Pos.compare_refl; discriminate.
Qed.

(** ** A shock that is not negative *)

Lemma add_one_ge (s : float) : (0 <=? s) = true -> (1 <=? 1 + s) = true.
Proof.
  rewrite !leb_spec, add_spec, Prim2SF_0, Prim2SF_1. intros Hs.
  destruct (SFadd_ge_left 4503599627370496 (-52) (Prim2SF s)) as [Hn|Hge].
  - reflexivity.
  - apply Prim2SF_valid.
  - destruct (Prim2SF s) as [?|[|]| |[|] m e]; cbn; try discriminate; auto.
  - rewrite Hn in Hs. discriminate.
  - exact Hge.
Qed.

Lemma mul_ge_left (p y : float) :
  (0.01 <=? p) = true -> (1 <=? y) = true -> (p <=? p * y) = true.
Proof.
  rewrite !leb_spec, mul_spec, Prim2SF_001, Prim2SF_1. intros Hp Hy.
  pose proof (Prim2SF_valid p) as Vp.
  destruct (Prim2SF p) as [?|[|]| |[|] m e]; try discriminate Hp.
  - destruct (Prim2SF y) as [?|[|]| |[|] my ey]; try discriminate Hy; reflexivity.
  - apply SFleb_pos_finite in Hp.
    apply SFmul_ge_left; [exact Vp | | apply Prim2SF_valid | exact Hy].
    unfold SpecFloat.emin, prec, emax. lia.
Qed.

(** X19: on a price of at least 0.01, a shock that is not negative never
    lowers the price, and the return of the tick is then not negative. *)
Theorem nonneg_shock_never_lowers_price (p vol : float) (g : rng) :
  (0.01 <=? p) = true ->
  (0 <=? draws g (cursor g)) = true ->
  (p <=? fst (_tick_price p vol g)) = true /\
  exists r, _pct (fst (_tick_price p vol g)) p = Ok r /\ (r <? 0) = false.
Proof.
  intros Hp Hs.
  assert (Hup : (p <=? fst (_tick_price p vol g)) = true).
  { unfold _tick_price, gauss, next_draw. cbn [fst]. unfold py_max.
    pose proof (mul_ge_left p _ Hp (add_one_ge _ Hs)) as Hx.
    destruct (0.01 <? p * (1 + draws g (cursor g))) eqn:E; [exact Hx|].
    destruct (leb_not_nan _ _ Hx) as [_ Nx].
    apply nlt_iff_leb in E; [|reflexivity | exact Nx].
    apply leb_trans with (p * (1 + draws g (cursor g))); assumption. }
  split; [exact Hup|].
  set (np := fst (_tick_price p vol g)) in *.
  assert (Ho : (0 <? p) = true) by (apply floor_positive, Hp).
  assert (Hn : (0 <? np) = true) by (apply floor_positive, tick_price_floor).
  exists ((np - p) / p * 100). split.
  - unfold _pct, py_div. rewrite (positive_not_zero _ Ho). reflexivity.
  - apply (pct_sign np p Ho Hn). exact Hup.
Qed.

Lemma nonneg_shock_never_lowers_price_witness :
  (500 <=? fst (_tick_price 500 0.0009 sample_rng)) = true /\
  exists r, _pct (fst (_tick_price 500 0.0009 sample_rng)) 500 = Ok r
            /\ (r <? 0) = false.
Proof.
  apply (nonneg_shock_never_lowers_price 500 0.0009 sample_rng); reflexivity.
Defined.

(** ** A shock that is not positive *)

Local Open Scope float_scope.

Lemma one_plus_nonpos (s : float) : (s <=? 0) = true -> (1 + s <=? 1) = true.
Proof.
  rewrite !leb_spec, add_spec, Prim2SF_0, Prim2SF_1. intros Hs.
  apply SFadd_le_left.
  - reflexivity.
  - apply Prim2SF_valid.
  - destruct (Prim2SF s) as [?|[|]| |[|] m e]; cbn; try discriminate; auto.
  - intros E. rewrite E in Hs. discriminate.
Qed.

(** On a price of at least 0.01, a factor of at most 1 gives a product
    that is at most the price, or one the floor replaces. *)
Lemma mul_le_left (p y : float) :
  (0.01 <=? p) = true -> (y <=? 1) = true -> (0.01 <? p * y) = true ->
  (p * y <=? p) = true.
Proof.
  rewrite !leb_spec, ltb_spec, mul_spec, Prim2SF_001, Prim2SF_1.
  intros Hp Hy Hx.
  pose proof (Prim2SF_valid p) as Vp. pose proof (Prim2SF_valid y) as Vy.
  destruct (Prim2SF p) as [?|[|]| |[|] mp ep]; try discriminate Hp.
  - destruct (Prim2SF y) as [?|[|]| |[|] my ey]; try discriminate Hy;
      try discriminate Hx; reflexivity.
  - apply SFleb_pos_finite in Hp.
    destruct (Prim2SF y) as [sy|[|]| |[|] my ey]; try discriminate Hy;
      try discriminate Hx.
    + exfalso. unfold SF64mul in Hx.
      rewrite SF_sign_or_zero_below in Hx; [discriminate|].
      apply SF_has_sign_or_zero. cbn [SFmul xorb]. apply binary_round_aux_sign.
    + apply SFmul_le_left; [exact Vp | | exact Vy | exact Hy].
      unfold SpecFloat.emin, prec, emax. lia.
Qed.

(** X20: on a price of at least 0.01, a shock that is not positive never
    raises the price, and the return of the tick is then not positive. *)
Theorem nonpos_shock_never_raises_price (p vol : float) (g : rng) :
  (0.01 <=? p) = true ->
  (draws g (cursor g) <=? 0) = true ->
  (fst (_tick_price p vol g) <=? p) = true /\
  exists r, _pct (fst (_tick_price p vol g)) p = Ok r /\ (0 <? r) = false.
Proof.
  intros Hp Hs.
  assert (Hdown : (fst (_tick_price p vol g) <=? p) = true).
  { unfold _tick_price, gauss, next_draw. cbn [fst]. unfold py_max.
    destruct (0.01 <? p * (1 + draws g (cursor g))) eqn:E; [|exact Hp].
    apply mul_le_left; [exact Hp | apply one_plus_nonpos, Hs | exact E]. }
  split; [exact Hdown|].
  set (np := fst (_tick_price p vol g)) in *.
  assert (Ho : (0 <? p) = true) by (apply floor_positive, Hp).
  assert (Hn : (0 <? np) = true) by (apply floor_positive, tick_price_floor).
  exists ((np - p) / p * 100). split.
  - unfold _pct, py_div. rewrite (positive_not_zero _ Ho). reflexivity.
  - apply (pct_sign np p Ho Hn). exact Hdown.
Qed.

Lemma nonpos_shock_never_raises_price_witness :
  (fst (_tick_price 500 0.0009 {| draws := fun _ => -0.002; cursor := 0 |})
   <=? 500) = true /\
  exists r,
    _pct (fst (_tick_price 500 0.0009 {| draws := fun _ => -0.002; cursor := 0 |}))
         500 = Ok r
    /\ (0 <? r) = false.
Proof.
  apply (nonpos_shock_never_raises_price 500 0.0009
           {| draws := fun _ => -0.002; cursor := 0 |}); reflexivity.
Defined.

(* ================================================================== *)
(** * The volatility penalty *)
(* ================================================================== *)

Lemma leb_nlt (a b : float) : (a <=? b) = true -> (b <? a) = false.
Proof.
  intros H. destruct (leb_not_nan _ _ H) as [Na Nb].
  apply nlt_iff_leb; assumption.
Qed.

Lemma py_min_mono (k a b : float) :
  is_nan k = false -> (a <=? b) = true ->
  (py_min k a <=? py_min k b) = true.
Proof.
  intros Nk Hab. destruct (leb_not_nan _ _ Hab) as [Na Nb]. unfold py_min.
  destruct (a <? k) eqn:Ea; destruct (b <? k) eqn:Eb.
  - exact Hab.
  - apply ltb_leb, Ea.
  - apply nlt_iff_leb in Ea; [|assumption|assumption].
    pose proof (leb_trans _ _ _ Ea Hab) as Hkb.
    rewrite (leb_nlt _ _ Hkb) in Eb. discriminate.
  - apply leb_refl_not_nan, Nk.
Qed.

Lemma py_max_mono (k a b : float) :
  is_nan k = false -> (a <=? b) = true ->
  (py_max k a <=? py_max k b) = true.
Proof.
  intros Nk Hab. destruct (leb_not_nan _ _ Hab) as [Na Nb]. unfold py_max.
  destruct (k <? a) eqn:Ea; destruct (k <? b) eqn:Eb.
  - exact Hab.
  - apply nlt_iff_leb in Eb; [|assumption|assumption].
    pose proof (leb_trans _ _ _ Hab Eb) as Hak.
    rewrite (leb_nlt _ _ Hak) in Ea. discriminate.
  - apply ltb_leb, Eb.
  - apply leb_refl_not_nan, Nk.
Qed.

(** Taking 0.05 off a number never gives more. *)
Lemma sub_penalty_le (x : float) :
  is_nan x = false -> (x - 0.05 <=? x) = true.
Proof.
  intros Nx. apply is_nan_SF in Nx.
  rewrite leb_spec, sub_spec.
  pose proof (Prim2SF_valid x) as Vx.
  assert (V5 : valid_binary (Prim2SF 0.05) = true) by apply Prim2SF_valid.
  rewrite Prim2SF_005 in *. unfold SF_005 in *. unfold SF64sub.
  destruct (Prim2SF x) as [s|s| |s m e]; try congruence.
  - destruct s; reflexivity.
  - destruct s; reflexivity.
  - apply SFsub_le_left; [exact Vx | exact V5 | reflexivity | discriminate].
Qed.

(** The final clamp of [_signal] after the penalty is at most the clamp
    without it, NaN included. *)
Lemma clamp_penalty_le (x : float) :
  (py_max 0.05 (py_min 0.95 (x - 0.05)) <=? py_max 0.05 (py_min 0.95 x)) = true.
Proof.
  destruct (is_nan x) eqn:Nx.
  - assert (N2 : is_nan (x - 0.05) = true).
    { unfold is_nan. rewrite FloatAxioms.eqb_spec, sub_spec.
      rewrite (is_nan_true_SF x Nx). reflexivity. }
    unfold py_min. rewrite (ltb_nan_l _ 0.95 N2), (ltb_nan_l _ 0.95 Nx).
    reflexivity.
  - apply py_max_mono; [reflexivity|].
    apply py_min_mono; [reflexivity|].
    apply sub_penalty_le, Nx.
Qed.

(** X21: a volatility spike never raises the up-probability of a signal:
    with the spike flag the probability is at most what it is without, so
    a BUY under a spike is a BUY without it, and a SELL without a spike
    stays a SELL under one. *)
Theorem spike_never_raises_probability (asset : string) (ret_1h : float)
    (regime : string) :
  let calm := _signal asset ret_1h false regime in
  let spiked := _signal asset ret_1h true regime in
  (_signal_p_up asset ret_1h true regime
   <=? _signal_p_up asset ret_1h false regime) = true /\
  (sig_action spiked = "BUY" -> sig_action calm = "BUY") /\
  (sig_action calm = "SELL" -> sig_action spiked = "SELL").
Proof.
  intros calm spiked.
  assert (Hle : (_signal_p_up asset ret_1h true regime
                 <=? _signal_p_up asset ret_1h false regime) = true).
  { unfold _signal_p_up. apply clamp_penalty_le. }
  split; [exact Hle|].
  subst calm spiked. unfold _signal. cbn [sig_action].
  set (p1 := _signal_p_up asset ret_1h true regime) in *.
  set (p0 := _signal_p_up asset ret_1h false regime) in *.
  split.
  - destruct (0.60 <=? p1) eqn:E1.
    + intros _. rewrite (leb_trans _ _ _ E1 Hle). reflexivity.
    + destruct (p1 <=? 0.40); discriminate.
  - destruct (0.60 <=? p0) eqn:E0; [discriminate|].
    destruct (p0 <=? 0.40) eqn:E2; [|discriminate].
    intros _. rewrite (leb_trans _ _ _ Hle E2).
    destruct (0.60 <=? p1) eqn:E1; [|reflexivity].
    pose proof (leb_trans _ _ _ E1 (leb_trans _ _ _ Hle E2)) as Habs.
    vm_compute in Habs. discriminate.
Qed.
